(** * ClientWs: a shallow embedding of [src/index.ts]

    The controller class [ClientWs] is embedded as a state record together
    with the part of the host environment its methods touch: the WebSocket
    objects it creates (with their [readyState]), the timers armed through
    [setTimeout], and a chronological log of every externally visible action
    (transport sends, listener and callback invocations, console output).

    Methods are computations in a state-and-exception monad: a JavaScript
    [throw] leaves the mutations done so far in place, so a computation
    always returns the final state, together with either a value or the
    thrown error.

    Numbers are JavaScript doubles in the source; the embedding uses [Z]
    (options) and [nat] (counters, indices), i.e. it covers integer-valued
    settings below 2^53. *)

From stdpp Require Import gmap strings list fin_maps pretty.
From Stdlib Require Import ZArith Lia.

Open Scope Z_scope.

(** ** Values *)

(** A property value, of a structured payload or of a parsed frame.  Nested
    objects and arrays, and the functions found on a prototype chain, are
    kept only through their [String(...)] image, which is all the controller
    ever consults. *)
Inductive jsval :=
| VNull
| VBool (b : bool)
| VNum (n : Z)
| VStr (s : string)
| VRef (image : string).

(** JavaScript truthiness, as tested by [if (uniqueKey)]. *)
Definition truthy (v : jsval) : bool :=
  match v with
  | VNull => false
  | VBool b => b
  | VNum n => negb (n =? 0)
  | VStr s => negb (String.eqb s EmptyString)
  | VRef _ => true
  end.

(** Conversion to a property key, as done by [this.sendMessageQueue[uniqueKey]]. *)
Definition to_property_key (v : jsval) : string :=
  match v with
  | VNull => "null"
  | VBool true => "true"
  | VBool false => "false"
  | VNum n => pretty n
  | VStr s => s
  | VRef image => image
  end.

(** The result of [JSON.parse]: [null], a plain object, an array, or a
    primitive.  Text is taken as a sequence of one-unit characters. *)
Inductive json :=
| JNull
| JObject (fields : gmap string jsval)
| JArray (items : list jsval)
| JString (text : string)
| JNumber (n : Z)
| JBoolean (b : bool).

(** The position that a property name denotes in an array or a string of
    [len] elements: the name is the canonical decimal spelling of a position
    below [len]. *)
Definition array_index (name : string) (len : nat) : option nat :=
  head (filter (fun i => pretty i = name) (seq 0 len)).

(** The own properties of a parsed value ([None] is a property the value
    does not own): the fields of an object, the elements and the [length]
    of an array, the characters and the [length] of a string. *)
Definition own_property (data : json) (name : string) : option jsval :=
  match data with
  | JObject fields => fields !! name
  | JArray items =>
      if String.eqb name "length" then Some (VNum (Z.of_nat (length items)))
      else array_index name (length items) ≫= fun i => items !! i
  | JString text =>
      if String.eqb name "length" then Some (VNum (Z.of_nat (String.length text)))
      else array_index name (String.length text) ≫= fun i =>
           (fun c => VStr (String c EmptyString)) <$> String.get i text
  | JNull | JNumber _ | JBoolean _ => None
  end.

(** The [data] argument of [sendMessage], classified by [typeof]:
    ["string"], ["object"] (a key-value object, or [null]), anything else. *)
Inductive payload :=
| PText (s : string)
| PObject (fields : gmap string jsval)
| PNull
| POther.

(** Every [Error] value created or caught by the class. *)
Inductive Error :=
| UrlRequired                       (* "URL is required" *)
| MaxReconnectAttempts              (* "Max reconnect attempts reached" *)
| NotConnected                      (* "websocket 未连接" *)
| ConnectionNotOpen                 (* "websocket connection is not open" *)
| DataMustBeStringOrObject          (* "data must be a string or an object" *)
| UnsupportedEvent (event : string) (* `Event "${event}" is not supported` *)
| TypeError                         (* property read on undefined / null *)
| SyntaxError                       (* JSON.parse failure *)
| UserError (msg : string).         (* thrown by user code *)

(** A DOM event as handed to listeners: its type and, for messages, its data. *)
Record Event := mkEvent { ev_type : string; ev_data : string }.

(** An event that carries no data, such as [new Event("timeout")]. *)
Definition plain_event (type : string) : Event := mkEvent type EmptyString.

(** [MessageCallback]: user code, identified by reference; it either returns
    or throws. *)
Record MessageCallback := mkCallback {
  cb_ref : nat;
  cb_run : option Error -> json -> option Error
}.

(** [SocketEventListener]: either a function supplied by the user, or the
    [onceListener] closure built by [once] around one. *)
Inductive lref := UserFn (n : nat) | OnceFn (n : nat).

Global Instance lref_eq_dec : EqDecision lref.
Proof. solve_decision. Defined.

Record SocketEventListener := mkListener {
  l_ref : lref;
  l_run : Event -> option Error
}.

Definition is_once (l : SocketEventListener) : bool :=
  match l_ref l with OnceFn _ => true | UserFn _ => false end.

(** [Options], after the constructor has merged the defaults in.  The fields
    live in their own name space: [reconnect] is also a method. *)
Module Opt.
Record Options := mkOptions {
  url : string;
  timeout : Z;
  reconnect : bool;
  reconnectInterval : Z;
  reconnectMaxInterval : Z;
  reconnectMaxTimes : Z;
  uniqueKey : string;
  cacheMessage : bool;
  maxCacheMessage : Z
}.
End Opt.
Abbreviation Options := Opt.Options.

(** The defaults merged under the caller's options by the constructor. *)
Definition default_options (u : string) : Options :=
  {| Opt.url := u; Opt.timeout := 5000; Opt.reconnect := true;
     Opt.reconnectInterval := 5000; Opt.reconnectMaxInterval := 10000;
     Opt.reconnectMaxTimes := 0; Opt.uniqueKey := "message_id";
     Opt.cacheMessage := false; Opt.maxCacheMessage := 100 |}.

Record sendMessageQueueItem := mkQueueItem {
  message : string;
  callback : option MessageCallback
}.

Record CacheItem := mkCacheItem {
  data : payload;
  cache_callback : option MessageCallback
}.

(** ** Host environment *)

Inductive ReadyState := CONNECTING | OPEN | CLOSING | CLOSED.

Global Instance ReadyState_eq_dec : EqDecision ReadyState.
Proof. solve_decision. Defined.

(** A WebSocket object: its [readyState], and whether [bindEvents] has
    attached the controller's four handlers to it. *)
Record WebSocket := mkWebSocket { sock_state : ReadyState; sock_bound : bool }.

(** The closures handed to [setTimeout]. *)
Inductive TimerAction :=
| TimeoutGuard                    (* the arrow function in [connect] *)
| ReconnectTimer                  (* the arrow function in [reconnect] *)
| SendNextMessage (index : nat).  (* [sendNextMessage], with its captured index *)

Record Timer := mkTimer { t_id : nat; t_delay : Z; t_action : TimerAction }.

Inductive Effect :=
| NewWebSocket (u : string) (sock : nat)
| SocketClose (sock : nat)
| SocketSend (sock : nat) (msg : string)
| ListenerCall (l : lref) (event : string) (e : Event)
| CallbackCall (cb : nat) (err : option Error) (d : json)
| ConsoleWarn (msg : string)
| ConsoleError (e : Error)
| Uncaught (e : Error).

(** ** State: the fields of [ClientWs] followed by the environment *)

Record State := mkState {
  ws : option nat;
  options : Options;
  eventListeners : gmap string (list SocketEventListener);
  messageCache : list CacheItem;
  reconnectAttempts : nat;
  reconnectTimeout : option nat;
  sendMessageQueue : gmap string sendMessageQueueItem;
  isHandleClose : bool;
  (* environment *)
  sockets : list WebSocket;      (* every WebSocket created, by identity *)
  timers : list Timer;           (* armed, not yet fired or cleared *)
  nextTimer : nat;               (* the id the next [setTimeout] returns *)
  nextClosure : nat;             (* identity of the next [onceListener] *)
  keysDrawn : nat;               (* calls to [generateUniqueKey] so far *)
  log : list Effect
}.

Definition set_ws (v : option nat) (s : State) : State :=
  mkState v (options s) (eventListeners s) (messageCache s) (reconnectAttempts s)
    (reconnectTimeout s) (sendMessageQueue s) (isHandleClose s)
    (sockets s) (timers s) (nextTimer s) (nextClosure s) (keysDrawn s) (log s).

Definition set_eventListeners (v : gmap string (list SocketEventListener)) (s : State) : State :=
  mkState (ws s) (options s) v (messageCache s) (reconnectAttempts s)
    (reconnectTimeout s) (sendMessageQueue s) (isHandleClose s)
    (sockets s) (timers s) (nextTimer s) (nextClosure s) (keysDrawn s) (log s).

Definition set_messageCache (v : list CacheItem) (s : State) : State :=
  mkState (ws s) (options s) (eventListeners s) v (reconnectAttempts s)
    (reconnectTimeout s) (sendMessageQueue s) (isHandleClose s)
    (sockets s) (timers s) (nextTimer s) (nextClosure s) (keysDrawn s) (log s).

Definition set_reconnectAttempts (v : nat) (s : State) : State :=
  mkState (ws s) (options s) (eventListeners s) (messageCache s) v
    (reconnectTimeout s) (sendMessageQueue s) (isHandleClose s)
    (sockets s) (timers s) (nextTimer s) (nextClosure s) (keysDrawn s) (log s).

Definition set_reconnectTimeout (v : option nat) (s : State) : State :=
  mkState (ws s) (options s) (eventListeners s) (messageCache s) (reconnectAttempts s)
    v (sendMessageQueue s) (isHandleClose s)
    (sockets s) (timers s) (nextTimer s) (nextClosure s) (keysDrawn s) (log s).

Definition set_sendMessageQueue (v : gmap string sendMessageQueueItem) (s : State) : State :=
  mkState (ws s) (options s) (eventListeners s) (messageCache s) (reconnectAttempts s)
    (reconnectTimeout s) v (isHandleClose s)
    (sockets s) (timers s) (nextTimer s) (nextClosure s) (keysDrawn s) (log s).

Definition set_isHandleClose (v : bool) (s : State) : State :=
  mkState (ws s) (options s) (eventListeners s) (messageCache s) (reconnectAttempts s)
    (reconnectTimeout s) (sendMessageQueue s) v
    (sockets s) (timers s) (nextTimer s) (nextClosure s) (keysDrawn s) (log s).

Definition set_sockets (v : list WebSocket) (s : State) : State :=
  mkState (ws s) (options s) (eventListeners s) (messageCache s) (reconnectAttempts s)
    (reconnectTimeout s) (sendMessageQueue s) (isHandleClose s)
    v (timers s) (nextTimer s) (nextClosure s) (keysDrawn s) (log s).

Definition set_timers (v : list Timer) (s : State) : State :=
  mkState (ws s) (options s) (eventListeners s) (messageCache s) (reconnectAttempts s)
    (reconnectTimeout s) (sendMessageQueue s) (isHandleClose s)
    (sockets s) v (nextTimer s) (nextClosure s) (keysDrawn s) (log s).

Definition set_nextTimer (v : nat) (s : State) : State :=
  mkState (ws s) (options s) (eventListeners s) (messageCache s) (reconnectAttempts s)
    (reconnectTimeout s) (sendMessageQueue s) (isHandleClose s)
    (sockets s) (timers s) v (nextClosure s) (keysDrawn s) (log s).

Definition set_nextClosure (v : nat) (s : State) : State :=
  mkState (ws s) (options s) (eventListeners s) (messageCache s) (reconnectAttempts s)
    (reconnectTimeout s) (sendMessageQueue s) (isHandleClose s)
    (sockets s) (timers s) (nextTimer s) v (keysDrawn s) (log s).

Definition set_keysDrawn (v : nat) (s : State) : State :=
  mkState (ws s) (options s) (eventListeners s) (messageCache s) (reconnectAttempts s)
    (reconnectTimeout s) (sendMessageQueue s) (isHandleClose s)
    (sockets s) (timers s) (nextTimer s) (nextClosure s) v (log s).

Definition set_log (v : list Effect) (s : State) : State :=
  mkState (ws s) (options s) (eventListeners s) (messageCache s) (reconnectAttempts s)
    (reconnectTimeout s) (sendMessageQueue s) (isHandleClose s)
    (sockets s) (timers s) (nextTimer s) (nextClosure s) (keysDrawn s) v.

(** ** The monad of methods *)

Inductive Result (A : Type) :=
| Ok (a : A)
| Throw (e : Error).
Arguments Ok {A} a.
Arguments Throw {A} e.

Definition M (A : Type) : Type := State -> State * Result A.

Definition ret {A} (a : A) : M A := fun s => (s, Ok a).
Definition throw {A} (e : Error) : M A := fun s => (s, Throw e).
Definition bind {A B} (m : M A) (k : A -> M B) : M B :=
  fun s => match m s with
           | (s', Ok a) => k a s'
           | (s', Throw e) => (s', Throw e)
           end.
Definition try_catch (m : M unit) (handler : Error -> M unit) : M unit :=
  fun s => match m s with
           | (s', Ok a) => (s', Ok a)
           | (s', Throw e) => handler e s'
           end.
Definition gets {A} (f : State -> A) : M A := fun s => (s, Ok (f s)).
Definition modify (f : State -> State) : M unit := fun s => (f s, Ok tt).

Notation "'let*' x ':=' m 'in' k" := (bind m (fun x => k))
  (at level 10, x name, m at level 100, k at level 200).
Notation "m '>>' k" := (bind m (fun _ => k))
  (at level 90, right associativity).

Definition when (b : bool) (m : M unit) : M unit := if b then m else ret tt.

Definition exec {A} (m : M A) (s : State) : State := fst (m s).
Definition outcome {A} (m : M A) (s : State) : Result A := snd (m s).

(** ** Environment primitives *)

Definition emit_effect (e : Effect) : M unit :=
  modify (fun s => set_log (log s ++ [e]) s).

(** [new WebSocket(url)]: a fresh socket in state [CONNECTING]. *)
Definition new_WebSocket (u : string) : M nat :=
  let* n := gets (fun s => length (sockets s)) in
  modify (fun s => set_sockets (sockets s ++ [mkWebSocket CONNECTING false]) s) >>
  emit_effect (NewWebSocket u n) >>
  ret n.

Definition readyState (s : State) (sock : nat) : ReadyState :=
  default CLOSED (sock_state <$> sockets s !! sock).

Definition set_readyState (sock : nat) (r : ReadyState) (s : State) : State :=
  set_sockets (alter (fun k => mkWebSocket r (sock_bound k)) sock (sockets s)) s.

(** [socket.close()]: starts the closing handshake unless already closing
    or closed. *)
Definition socket_close (sock : nat) : M unit :=
  emit_effect (SocketClose sock) >>
  modify (fun s =>
    match readyState s sock with
    | CONNECTING | OPEN => set_readyState sock CLOSING s
    | CLOSING | CLOSED => s
    end).

Definition socket_send (sock : nat) (msg : string) : M unit :=
  emit_effect (SocketSend sock msg).

Definition setTimeout (action : TimerAction) (delay : Z) : M nat :=
  let* id := gets nextTimer in
  modify (fun s => set_nextTimer (S id) (set_timers (timers s ++ [mkTimer id delay action]) s)) >>
  ret id.

Definition clearTimeout (id : nat) : M unit :=
  modify (fun s => set_timers (filter (fun t => t_id t ≠ id) (timers s)) s).

Definition console_warn (msg : string) : M unit := emit_effect (ConsoleWarn msg).
Definition console_error (e : Error) : M unit := emit_effect (ConsoleError e).

(** Calling user code: the call is logged, then the code returns or throws. *)
Definition call_callback (cb : MessageCallback) (err : option Error) (d : json) : M unit :=
  emit_effect (CallbackCall (cb_ref cb) err d) >>
  match cb_run cb err d with
  | Some e => throw e
  | None => ret tt
  end.

Definition call_listener_body (l : SocketEventListener) (e : Event) : M unit :=
  match l_run l e with
  | Some err => throw err
  | None => ret tt
  end.

Fixpoint forEach {A} (f : A -> M unit) (l : list A) : M unit :=
  match l with
  | [] => ret tt
  | x :: rest => f x >> forEach f rest
  end.

(** ** EventHub: [emit], [on], [once], [off], [removeListener] *)

Definition supported_events : list string := ["open"; "close"; "message"; "error"].

Definition off (event : string) (l : lref) : M unit :=
  let* listeners := gets (fun s => eventListeners s !! event) in
  match listeners with
  | Some ls =>
      modify (fun s => set_eventListeners
                (<[event := filter (fun l' => l_ref l' ≠ l) ls]> (eventListeners s)) s)
  | None => ret tt
  end.

(** One listener invocation.  For a closure built by [once] the body is
    [listener(data); this.off(event, onceListener)]. *)
Definition call_listener (event : string) (e : Event) (l : SocketEventListener) : M unit :=
  emit_effect (ListenerCall (l_ref l) event e) >>
  call_listener_body l e >>
  when (is_once l) (off event (l_ref l)).

Definition emit (event : string) (e : Event) : M unit :=
  let* listeners := gets (fun s => eventListeners s !! event) in
  match listeners with
  | Some (l :: ls) => forEach (call_listener event e) (l :: ls)
  | Some [] | None => ret tt
  end.

Definition includes (ls : list SocketEventListener) (l : SocketEventListener) : bool :=
  bool_decide (Exists (fun l' => l_ref l' = l_ref l) ls).

Definition on (event : string) (l : SocketEventListener) : M unit :=
  if bool_decide (event ∈ supported_events) then
    let* present := gets (fun s => eventListeners s !! event) in
    when (bool_decide (present = None))
      (modify (fun s => set_eventListeners (<[event := []]> (eventListeners s)) s)) >>
    let* ls := gets (fun s => default [] (eventListeners s !! event)) in
    when (negb (includes ls l))
      (modify (fun s => set_eventListeners (<[event := ls ++ [l]]> (eventListeners s)) s))
  else throw (UnsupportedEvent event).

Definition once (event : string) (listener : Event -> option Error) : M unit :=
  if bool_decide (event ∈ supported_events) then
    let* n := gets nextClosure in
    modify (set_nextClosure (S n)) >>
    on event (mkListener (OnceFn n) listener)
  else throw (UnsupportedEvent event).

Definition removeListener (event : string) : M unit :=
  modify (fun s => set_eventListeners (delete event (eventListeners s)) s).

Definition removeAllListeners : M unit :=
  modify (set_eventListeners ∅).

(** The object built by [new ClientWs(options)], in a fresh environment
    (timer ids start at 1). *)
Definition initial (o : Options) : State :=
  mkState None o ∅ [] 0%nat None ∅ false [] [] 1%nat 0%nat 0%nat [].

Definition constructor (o : Options) : Result State :=
  if String.eqb (Opt.url o) EmptyString then Throw UrlRequired
  else Ok (initial o).

(** ** The controller

    Four collaborators are outside the class and are parameters of the
    embedding: [JSON.stringify], [JSON.parse] ([None] is a [SyntaxError]),
    the prototype chain of the values that [JSON.parse] returns, and the
    stream of values [Date.now().toString(36) + Math.random()...] that
    successive calls of [generateUniqueKey] return. *)

Section Controller.

Variable JSON_stringify : gmap string jsval -> string.
Variable JSON_parse : string -> option json.

(** [inherited data name] is what a read of [data[name]] finds on the
    prototype chain of [data] ([Object.prototype.constructor] for
    [name = "constructor"], say) when [data] does not own the property;
    [None] when the chain has no such property either, so that the read
    yields [undefined]. *)
Variable inherited : json -> string -> option jsval.
Variable key_source : nat -> string.

(** The property read [data[name]] on a value other than [null]. *)
Definition get_property (data : json) (name : string) : option jsval :=
  match own_property data name with
  | Some v => Some v
  | None => inherited data name
  end.

(** [Object.assign(target, source)]: the source's properties win. *)
Definition Object_assign (target source : gmap string jsval) : gmap string jsval :=
  source ∪ target.

Definition generateUniqueKey : M string :=
  let* n := gets keysDrawn in
  modify (set_keysDrawn (S n)) >>
  ret (key_source n).

Definition bindEvents : M unit :=
  let* w := gets ws in
  match w with
  | Some sock =>
      modify (fun s => set_sockets
                (alter (fun k => mkWebSocket (sock_state k) true) sock (sockets s)) s)
  | None => ret tt
  end.

(** The value of [const exponentialBackoff] in [reconnect]. *)
Definition exponentialBackoff (o : Options) (attempts : nat) : Z :=
  Z.min (Opt.reconnectInterval o * 2 ^ Z.of_nat attempts) (Opt.reconnectMaxInterval o).

Definition reconnect : M unit :=
  let* w := gets ws in
  match w with
  | None => ret tt
  | Some sock =>
      let* o := gets options in
      let* n := gets reconnectAttempts in
      if negb (Opt.reconnectMaxTimes o =? 0) && (Opt.reconnectMaxTimes o <=? Z.of_nat n)
      then throw MaxReconnectAttempts
      else
        let* armed := gets reconnectTimeout in
        match armed with
        | Some (S id) => clearTimeout (S id)
        | Some O | None => ret tt
        end >>
        let* st := gets (fun s => readyState s sock) in
        match st with
        | CONNECTING | OPEN => ret tt
        | CLOSING | CLOSED =>
            let* id := setTimeout ReconnectTimer (exponentialBackoff o n) in
            modify (set_reconnectTimeout (Some id))
        end
  end.

(** The closure armed by [reconnect]. *)
Definition reconnect_timer : M unit :=
  let* o := gets options in
  let* sock := new_WebSocket (Opt.url o) in
  modify (set_ws (Some sock)) >>
  bindEvents >>
  modify (fun s => set_reconnectAttempts (S (reconnectAttempts s)) s).

(** The closure armed by [connect]. *)
Definition timeout_guard : M unit :=
  let* byUser := gets isHandleClose in
  if byUser then ret tt
  else
    let* w := gets ws in
    match w with
    | None => ret tt
    | Some sock =>
        let* st := gets (fun s => readyState s sock) in
        if bool_decide (st = OPEN) then ret tt
        else
          socket_close sock >>
          emit "error" (plain_event "timeout") >>
          let* o := gets options in
          when (Opt.reconnect o)
            (modify (fun s => set_reconnectAttempts (S (reconnectAttempts s)) s) >>
             reconnect)
    end.

Definition connect : M unit :=
  let* w := gets ws in
  match w with
  | Some _ => console_warn "WebSocket is already connected or connecting."
  | None =>
      let* o := gets options in
      let* sock := new_WebSocket (Opt.url o) in
      modify (set_ws (Some sock)) >>
      bindEvents >>
      when (negb (Opt.timeout o =? 0))
        (let* _ := setTimeout TimeoutGuard (Opt.timeout o) in ret tt)
  end.

Definition push (item : CacheItem) : M unit :=
  modify (fun s => set_messageCache (messageCache s ++ [item]) s).

Definition shift : M unit :=
  modify (fun s => set_messageCache (tail (messageCache s)) s).

Definition sendMessage (d : payload) (cb : option MessageCallback) : M unit :=
  let* o := gets options in
  let* w := gets ws in
  when (Opt.cacheMessage o && bool_decide (w = None))
    (let* len := gets (fun s => length (messageCache s)) in
     if Z.of_nat len <? Opt.maxCacheMessage o
     then push (mkCacheItem d cb)
     else shift >> push (mkCacheItem d cb)) >>
  let not_connected : M unit :=
    match cb with
    | Some c => call_callback c (Some NotConnected) JNull
    | None => ret tt
    end in
  let* w := gets ws in
  match w with
  | None => not_connected
  | Some sock =>
      let* st := gets (fun s => readyState s sock) in
      match st with
      | CONNECTING | CLOSING | CLOSED => not_connected
      | OPEN =>
          match d with
          | POther => throw DataMustBeStringOrObject
          | PText text => socket_send sock text
          | PObject _ | PNull =>
              let fields := match d with PObject f => f | _ => ∅ end in
              let* key := generateUniqueKey in
              let objMsg :=
                Object_assign (Object_assign ∅ {[Opt.uniqueKey o := VStr key]}) fields in
              let message := JSON_stringify objMsg in
              modify (fun s => set_sendMessageQueue
                        (<[key := mkQueueItem message cb]> (sendMessageQueue s)) s) >>
              socket_send sock message
          end
      end
  end.

(** [sendNextMessage], the closure of [sendCachedMessages]; [index] is its
    captured counter. *)
Definition sendNextMessage (index : nat) : M unit :=
  let* cache := gets messageCache in
  if bool_decide (index < length cache)%nat then
    match cache !! index with
    | Some item =>
        sendMessage (data item) (cache_callback item) >>
        let* _ := setTimeout (SendNextMessage (S index)) 100 in ret tt
    | None => ret tt
    end
  else ret tt.

Definition sendCachedMessages : M unit := sendNextMessage 0.

Definition openHandler (e : Event) : M unit :=
  let* byUser := gets isHandleClose in
  when byUser (modify (set_isHandleClose false)) >>
  modify (set_reconnectAttempts 0%nat) >>
  emit "open" e >>
  sendCachedMessages.

Definition closeHandler (e : Event) : M unit :=
  emit "close" e >>
  let* o := gets options in
  let* byUser := gets isHandleClose in
  when (Opt.reconnect o && negb byUser) reconnect.

Definition errorHandler (e : Event) : M unit := emit "error" e.

(** Names every object inherits from [Object.prototype]: reading one of them
    from [sendMessageQueue] yields a function, whose [callback] is undefined. *)
Definition Object_prototype_keys : list string :=
  ["constructor"; "hasOwnProperty"; "isPrototypeOf"; "propertyIsEnumerable";
   "toLocaleString"; "toString"; "valueOf"; "__proto__"; "__defineGetter__";
   "__defineSetter__"; "__lookupGetter__"; "__lookupSetter__"].

Definition messageHandler (e : Event) : M unit :=
  emit "message" e >>
  try_catch
    (let* data :=
       match JSON_parse (ev_data e) with
       | Some data => ret data
       | None => throw SyntaxError
       end in
     let* o := gets options in
     let* uniqueKey :=
       match data with
       | JNull => throw TypeError
       | _ => ret (get_property data (Opt.uniqueKey o))
       end in
     match uniqueKey with
     | None => ret tt
     | Some v =>
         if truthy v then
           let key := to_property_key v in
           let* entry := gets (fun s => sendMessageQueue s !! key) in
           match entry with
           | None =>
               if bool_decide (key ∈ Object_prototype_keys) then ret tt
               else throw TypeError
           | Some item =>
               match callback item with
               | None => ret tt
               | Some cb =>
                   let* st := gets (fun s => readyState s <$> ws s) in
                   match st with
                   | Some OPEN => call_callback cb None data
                   | _ => call_callback cb (Some ConnectionNotOpen) JNull
                   end >>
                   modify (fun s => set_sendMessageQueue
                             (delete key (sendMessageQueue s)) s)
               end
           end
         else ret tt
     end)
    console_error.

Definition close : M unit :=
  modify (set_isHandleClose true) >>
  let* w := gets ws in
  match w with
  | Some sock => socket_close sock
  | None => ret tt
  end >>
  modify (set_ws None).

Definition destroy : M unit :=
  removeAllListeners >>
  close >>
  modify (set_ws None).

(** ** The event loop

    One turn of the loop runs a public method, delivers a transport event to
    the handlers bound to the socket, or fires an armed timer.  The transport
    sets [readyState] before it dispatches [open] and [close]. *)

Inductive Input :=
| Call_connect
| Call_sendMessage (d : payload) (cb : option MessageCallback)
| Call_close
| Call_destroy
| Call_on (event : string) (l : SocketEventListener)
| Call_once (event : string) (listener : Event -> option Error)
| Call_removeListener (event : string)
| Call_removeAllListeners
| Transport_open (sock : nat)
| Transport_close (sock : nat)
| Transport_message (sock : nat) (d : string)
| Transport_error (sock : nat)
| Timer_fires (id : nat).

Definition run_timer (a : TimerAction) : M unit :=
  match a with
  | TimeoutGuard => timeout_guard
  | ReconnectTimer => reconnect_timer
  | SendNextMessage index => sendNextMessage index
  end.

Definition is_bound (s : State) (sock : nat) : bool :=
  default false (sock_bound <$> sockets s !! sock).

Definition step (i : Input) : M unit :=
  match i with
  | Call_connect => connect
  | Call_sendMessage d cb => sendMessage d cb
  | Call_close => close
  | Call_destroy => destroy
  | Call_on event l => on event l
  | Call_once event listener => once event listener
  | Call_removeListener event => removeListener event
  | Call_removeAllListeners => removeAllListeners
  | Transport_open sock =>
      let* bound := gets (fun s => is_bound s sock) in
      when bound (modify (set_readyState sock OPEN) >> openHandler (plain_event "open"))
  | Transport_close sock =>
      let* bound := gets (fun s => is_bound s sock) in
      when bound (modify (set_readyState sock CLOSED) >> closeHandler (plain_event "close"))
  | Transport_message sock d =>
      let* bound := gets (fun s => is_bound s sock) in
      when bound (messageHandler (mkEvent "message" d))
  | Transport_error sock =>
      let* bound := gets (fun s => is_bound s sock) in
      when bound (errorHandler (plain_event "error"))
  | Timer_fires id =>
      let* armed := gets (fun s => filter (fun t => t_id t = id) (timers s)) in
      match armed with
      | t :: _ => clearTimeout id >> run_timer (t_action t)
      | [] => ret tt
      end
  end.

(** An exception that escapes a turn is reported by the host and the loop
    goes on. *)
Definition turn (i : Input) (s : State) : State :=
  match step i s with
  | (s', Ok _) => s'
  | (s', Throw e) => set_log (log s' ++ [Uncaught e]) s'
  end.

Definition run (inputs : list Input) (s : State) : State :=
  foldl (fun acc i => turn i acc) s inputs.

(** ** Reference behaviour of the listener loop

    [invoked e ls] is the run of [listeners.forEach(l => l(data))] as
    JavaScript defines it: listeners are called from the front, and the first
    one that throws ends the loop with its exception. *)
Fixpoint invoked (e : Event) (ls : list SocketEventListener)
  : list SocketEventListener * Result unit :=
  match ls with
  | [] => ([], Ok tt)
  | l :: rest =>
      match l_run l e with
      | Some err => ([l], Throw err)
      | None => let '(called, res) := invoked e rest in (l :: called, res)
      end
  end.

(** The cache after [sendMessage] has queued [item]: appended, after
    dropping the head when the length test [length < maxCacheMessage] fails. *)
Definition enqueue (o : Options) (cache : list CacheItem) (item : CacheItem)
  : list CacheItem :=
  (if Z.of_nat (length cache) <? Opt.maxCacheMessage o then cache else tail cache)
  ++ [item].

(** The report [callback?.(new Error("websocket 未连接"), null)]. *)
Definition not_connected_report (cb : option MessageCallback) (s : State)
  : State * Result unit :=
  match cb with
  | Some c =>
      (set_log (log s ++ [CallbackCall (cb_ref c) (Some NotConnected) JNull]) s,
       match cb_run c (Some NotConnected) JNull with
       | Some err => Throw err
       | None => Ok tt
       end)
  | None => (s, Ok tt)
  end.

(** The frame that an open transport is handed for a payload, given the
    correlation key drawn for it ([None] for a payload that [sendMessage]
    rejects). *)
Definition frame_of (o : Options) (key : string) (d : payload) : option string :=
  match d with
  | PText text => Some text
  | PObject fields =>
      Some (JSON_stringify
              (Object_assign (Object_assign ∅ {[Opt.uniqueKey o := VStr key]}) fields))
  | PNull =>
      Some (JSON_stringify
              (Object_assign (Object_assign ∅ {[Opt.uniqueKey o := VStr key]}) ∅))
  | POther => None
  end.

Definition draws_key (d : payload) : bool :=
  match d with PObject _ | PNull => true | PText _ | POther => false end.

(** The frames of a replay of [items], in order, when [drawn] keys have been
    generated before it starts. *)
Fixpoint frames (o : Options) (drawn : nat) (items : list CacheItem) : list string :=
  match items with
  | [] => []
  | item :: rest =>
      match frame_of o (key_source drawn) (data item) with
      | Some f =>
          f :: frames o (if draws_key (data item) then S drawn else drawn) rest
      | None => []
      end
  end.

(** The calls of [sendNextMessage] made by the first [n] links of the chain
    that [sendCachedMessages] starts: each link is run by the timer that the
    previous one armed. *)
Fixpoint replay (n : nat) (index : nat) : M unit :=
  match n with
  | O => ret tt
  | S n' => sendNextMessage index >> replay n' (S index)
  end.

(** The state in which [sendMessage] leaves an open transport [sock] after
    handing it the frame [f] of payload [d]. *)
Definition after_send (sock : nat) (f : string) (d : payload)
    (cb : option MessageCallback) (s : State) : State :=
  set_log (log s ++ [SocketSend sock f])
    (if draws_key d
     then set_sendMessageQueue
            (<[key_source (keysDrawn s) := mkQueueItem f cb]> (sendMessageQueue s))
            (set_keysDrawn (S (keysDrawn s)) s)
     else s).

(** The test [this.ws?.readyState === WebSocket.OPEN]. *)
Definition transport_open (s : State) : bool :=
  match ws s with
  | Some sock => bool_decide (readyState s sock = OPEN)
  | None => false
  end.

Definition listeners_of (s : State) (event : string) : list SocketEventListener :=
  default [] (eventListeners s !! event).

Definition calls (event : string) (e : Event) (ls : list SocketEventListener) : list Effect :=
  map (fun l => ListenerCall (l_ref l) event e) ls.

(** ** Properties *)

Ltac unfold_monad :=
  cbv [bind ret throw gets modify when try_catch exec outcome emit_effect
       setTimeout clearTimeout socket_send socket_close console_warn
       console_error call_callback new_WebSocket push shift] in *.

Ltac case_callback :=
  match goal with
  | |- context [cb_run ?c ?err ?d] => destruct (cb_run c err d)
  end.

(** The exhaustion test of [reconnect]. *)
Definition exhausted (s : State) : bool :=
  negb (Opt.reconnectMaxTimes (options s) =? 0)
  && (Opt.reconnectMaxTimes (options s) <=? Z.of_nat (reconnectAttempts s)).

(** C5: the delay before the next retry is [min(b * 2^n, m)] for base
    interval [b], ceiling [m] and attempt count [n]: this is the delay of the
    timer that [reconnect] arms whenever it schedules a retry; with
    [b = 1000] and [m = 10000] the attempt counts 0, 1, 2, 3, 4 give
    1000, 2000, 4000, 8000, 10000. *)
Theorem reconnect_delay_is_capped_exponential :
  (forall (o : Options) (n : nat),
      exponentialBackoff o n
      = Z.min (Opt.reconnectInterval o * 2 ^ Z.of_nat n) (Opt.reconnectMaxInterval o))
  /\ (forall (s : State) (sock : nat),
        ws s = Some sock ->
        exhausted s = false ->
        readyState s sock <> CONNECTING ->
        readyState s sock <> OPEN ->
        exists kept,
          reconnect s =
            (set_reconnectTimeout (Some (nextTimer s))
               (set_nextTimer (S (nextTimer s))
                  (set_timers
                     (kept ++ [mkTimer (nextTimer s)
                                 (Z.min (Opt.reconnectInterval (options s)
                                         * 2 ^ Z.of_nat (reconnectAttempts s))
                                        (Opt.reconnectMaxInterval (options s)))
                                 ReconnectTimer]) s)),
             Ok tt)
          /\ kept ⊆ timers s)
  /\ (forall o : Options,
        Opt.reconnectInterval o = 1000 ->
        Opt.reconnectMaxInterval o = 10000 ->
        map (exponentialBackoff o) [0; 1; 2; 3; 4]%nat
        = [1000; 2000; 4000; 8000; 10000]).
Proof.
  split; [reflexivity | split].
  - intros s sock Hws Hex Hc Ho.
    unfold exhausted in Hex.
    unfold reconnect, exponentialBackoff. unfold_monad.
    rewrite Hws, Hex.
    destruct (reconnectTimeout s) as [[|id]|] eqn:Hrt; simpl;
      destruct (readyState _ sock) eqn:Hst; try congruence;
      eexists; (split; [reflexivity | ]); simpl;
      try reflexivity; apply list_subseteq_filter.
  - intros o Hb Hm. unfold exponentialBackoff. rewrite Hb, Hm. reflexivity.
Qed.

(** *** The listener loop *)

Lemma set_log_set_eventListeners L l s :
  set_eventListeners L (set_log l s) = set_log l (set_eventListeners L s).
Proof. reflexivity. Qed.

Lemma bind_Ok {A B} (m : M A) (k : A -> M B) s s' a :
  m s = (s', Ok a) -> bind m k s = k a s'.
Proof. unfold bind. intros ->. reflexivity. Qed.

Lemma bind_Throw {A B} (m : M A) (k : A -> M B) s s' err :
  m s = (s', Throw err) -> bind m k s = (s', Throw err).
Proof. unfold bind. intros ->. reflexivity. Qed.

Lemma call_listener_run event e l s :
  exists L,
    call_listener event e l s
    = (set_eventListeners L (set_log (log s ++ [ListenerCall (l_ref l) event e]) s),
       match l_run l e with Some err => Throw err | None => Ok tt end).
Proof.
  unfold call_listener, call_listener_body, is_once, off. unfold_monad.
  destruct (l_run l e) as [err|]; simpl.
  - exists (eventListeners s). destruct s; reflexivity.
  - destruct (l_ref l); simpl.
    + exists (eventListeners s). destruct s; reflexivity.
    + destruct (eventListeners s !! event); simpl; eexists; reflexivity.
Qed.

Lemma forEach_call_listener event e ls : forall s,
  exists L,
    forEach (call_listener event e) ls s
    = (set_eventListeners L (set_log (log s ++ calls event e (fst (invoked e ls))) s),
       snd (invoked e ls)).
Proof.
  induction ls as [|l rest IH]; intros s.
  - exists (eventListeners s). simpl. unfold ret, calls. simpl.
    rewrite app_nil_r. destruct s; reflexivity.
  - simpl forEach. destruct (call_listener_run event e l s) as [L1 H1].
    simpl invoked. destruct (l_run l e) as [err|].
    + rewrite (bind_Throw _ _ _ _ _ H1). exists L1. reflexivity.
    + rewrite (bind_Ok _ _ _ _ _ H1).
      match goal with |- context [forEach _ rest ?s1] => destruct (IH s1) as [L HL] end.
      rewrite HL. destruct (invoked e rest) as [called res]. simpl.
      exists L. unfold calls. simpl. rewrite <- app_assoc. reflexivity.
Qed.

(** [emit] touches nothing but the listener table and the log; its log and
    its outcome are those of [invoked]. *)
Lemma emit_run event e s :
  exists L,
    emit event e s
    = (set_eventListeners L
         (set_log (log s ++ calls event e (fst (invoked e (listeners_of s event)))) s),
       snd (invoked e (listeners_of s event))).
Proof.
  unfold emit, listeners_of. unfold_monad.
  destruct (eventListeners s !! event) as [[|l ls]|] eqn:Hls.
  - exists (eventListeners s). simpl. rewrite app_nil_r. destruct s; reflexivity.
  - apply forEach_call_listener.
  - exists (eventListeners s). simpl. rewrite app_nil_r. destruct s; reflexivity.
Qed.

Lemma invoked_prefix e ls :
  exists skipped, ls = fst (invoked e ls) ++ skipped.
Proof.
  induction ls as [|l rest [sk IH]]; simpl.
  - exists []. reflexivity.
  - destruct (l_run l e).
    + exists rest. reflexivity.
    + destruct (invoked e rest) as [called res]. simpl in *.
      exists sk. congruence.
Qed.

Lemma invoked_all e ls :
  Forall (fun l => l_run l e = None) ls -> invoked e ls = (ls, Ok tt).
Proof.
  induction 1 as [|l rest Hl _ IH]; simpl; [reflexivity|].
  rewrite Hl, IH. reflexivity.
Qed.

Lemma invoked_stops e before l err after :
  Forall (fun l' => l_run l' e = None) before ->
  l_run l e = Some err ->
  invoked e (before ++ l :: after) = (before ++ [l], Throw err).
Proof.
  intros Hb Hl. induction Hb as [|l0 rest H0 _ IH]; simpl.
  - rewrite Hl. reflexivity.
  - rewrite H0, IH. reflexivity.
Qed.

(** C8 (as the code has it): firing an event calls the registered listeners
    synchronously in registration order; when every listener returns, all of
    them run and [emit] returns; when one throws, the listeners registered
    before it have run, it is the last one called, the ones after it are not
    run, and its exception propagates out of [emit]. *)
Theorem emit_calls_in_order_until_throw (event : string) (e : Event) (s : State) :
  (forall ls, listeners_of s event = ls ->
     Forall (fun l => l_run l e = None) ls ->
     log (exec (emit event e) s) = log s ++ calls event e ls
     /\ outcome (emit event e) s = Ok tt)
  /\ (forall before l err after,
        listeners_of s event = before ++ l :: after ->
        Forall (fun l' => l_run l' e = None) before ->
        l_run l e = Some err ->
        log (exec (emit event e) s) = log s ++ calls event e (before ++ [l])
        /\ outcome (emit event e) s = Throw err).
Proof.
  destruct (emit_run event e s) as [L HL].
  unfold exec, outcome. rewrite HL. simpl.
  split.
  - intros ls Hls Hall. rewrite Hls. rewrite (invoked_all _ _ Hall). auto.
  - intros before l err after Hls Hb Hl. rewrite Hls.
    rewrite (invoked_stops _ _ _ _ _ Hb Hl). auto.
Qed.

(** *** Reconnect exhaustion *)

Lemma reconnect_exhausted s sock :
  ws s = Some sock -> exhausted s = true ->
  reconnect s = (s, Throw MaxReconnectAttempts).
Proof.
  intros Hws Hex. unfold exhausted in Hex. unfold reconnect. unfold_monad.
  rewrite Hws, Hex. reflexivity.
Qed.

(** C3 (as the code has it): when [reconnectMaxTimes] is nonzero and the
    attempt counter has reached it (and a transport handle exists),
    [reconnect] throws "Max reconnect attempts reached" and arms no timer;
    the exception propagates out of the transport close handler and out of
    the connection-timeout timer callback, and no [error] event is emitted
    for it. *)
Theorem exhaustion_is_thrown (s : State) (sock : nat) (e : Event) :
  ws s = Some sock ->
  exhausted s = true ->
  reconnect s = (s, Throw MaxReconnectAttempts)
  /\ (Opt.reconnect (options s) = true ->
      isHandleClose s = false ->
      outcome (emit "close" e) s = Ok tt ->
      closeHandler e s = (exec (emit "close" e) s, Throw MaxReconnectAttempts))
  /\ (Opt.reconnect (options s) = true ->
      isHandleClose s = false ->
      readyState s sock <> OPEN ->
      let s1 := exec (socket_close sock) s in
      outcome (emit "error" (plain_event "timeout")) s1 = Ok tt ->
      timeout_guard s
      = (set_reconnectAttempts (S (reconnectAttempts s))
           (exec (emit "error" (plain_event "timeout")) s1),
         Throw MaxReconnectAttempts)).
Proof.
  intros Hws Hex. split; [|split].
  - apply reconnect_exhausted with sock; assumption.
  - intros Hre Hflag Hemit. unfold closeHandler.
    destruct (emit_run "close" e s) as [L HL].
    unfold outcome in Hemit. unfold exec. rewrite HL in *. simpl in Hemit.
    rewrite (bind_Ok _ _ _ _ _ (eq_trans HL (f_equal (pair _) Hemit))).
    unfold bind at 1 2, gets. simpl. rewrite Hre, Hflag. simpl.
    apply reconnect_exhausted with sock; [exact Hws | exact Hex].
  - intros Hre Hflag Hst s1 Hemit. unfold timeout_guard.
    unfold bind at 1, gets at 1. rewrite Hflag.
    unfold bind at 1, gets at 1. rewrite Hws.
    unfold bind at 1, gets at 1.
    rewrite bool_decide_eq_false_2 by exact Hst.
    assert (Hclose : socket_close sock s = (s1, Ok tt)).
    { subst s1. unfold exec, socket_close. unfold_monad. reflexivity. }
    rewrite (bind_Ok _ _ _ _ _ Hclose).
    destruct (emit_run "error" (plain_event "timeout") s1) as [L HL].
    unfold outcome in Hemit. unfold exec. rewrite HL in *. simpl in Hemit.
    rewrite (bind_Ok _ _ _ _ _ (eq_trans HL (f_equal (pair _) Hemit))).
    unfold bind at 1, gets at 1. simpl.
    assert (Hopt : options s1 = options s).
    { subst s1. unfold exec, socket_close. unfold_monad. simpl.
      destruct (readyState _ sock); reflexivity. }
    assert (Hatt : reconnectAttempts s1 = reconnectAttempts s).
    { subst s1. unfold exec, socket_close. unfold_monad. simpl.
      destruct (readyState _ sock); reflexivity. }
    rewrite Hopt, Hre. unfold when, modify. unfold bind at 1.
    match goal with |- reconnect ?s2 = _ =>
      rewrite (reconnect_exhausted s2 sock) end.
    + simpl. rewrite Hatt. reflexivity.
    + simpl. subst s1. unfold exec, socket_close. unfold_monad. simpl.
      destruct (readyState _ sock); simpl; exact Hws.
    + unfold exhausted in *. simpl. rewrite Hopt.
      apply andb_true_iff in Hex as [H1 H2]. apply andb_true_iff. split; [exact H1|].
      apply Z.leb_le in H2. apply Z.leb_le. lia.
Qed.

(** *** Sending *)

Lemma sendMessage_no_transport s d cb :
  ws s = None ->
  sendMessage d cb s
  = not_connected_report cb
      (if Opt.cacheMessage (options s)
       then set_messageCache (enqueue (options s) (messageCache s) (mkCacheItem d cb)) s
       else s).
Proof.
  intros Hws. unfold sendMessage, not_connected_report, enqueue. unfold_monad.
  rewrite Hws. simpl.
  destruct (Opt.cacheMessage (options s)); simpl.
  - destruct (Z.of_nat (length (messageCache s)) <? _); simpl; rewrite Hws; simpl;
      destruct cb; simpl; try reflexivity; case_callback; reflexivity.
  - rewrite Hws. simpl.
    destruct cb; simpl; try reflexivity; case_callback; reflexivity.
Qed.

Lemma sendMessage_not_open s sock d cb :
  ws s = Some sock -> readyState s sock <> OPEN ->
  sendMessage d cb s = not_connected_report cb s.
Proof.
  intros Hws Hst. unfold sendMessage, not_connected_report. unfold_monad.
  rewrite Hws. rewrite andb_false_r. simpl. rewrite Hws.
  destruct (readyState s sock) eqn:E; try congruence;
    destruct cb; simpl; try reflexivity; case_callback; reflexivity.
Qed.

Lemma sendMessage_open_text s sock text cb :
  ws s = Some sock -> readyState s sock = OPEN ->
  sendMessage (PText text) cb s = (set_log (log s ++ [SocketSend sock text]) s, Ok tt).
Proof.
  intros Hws Hst. unfold sendMessage. unfold_monad.
  rewrite Hws. rewrite andb_false_r. simpl. rewrite Hws, Hst. reflexivity.
Qed.

Lemma sendMessage_open_object s sock fields cb :
  ws s = Some sock -> readyState s sock = OPEN ->
  let key := key_source (keysDrawn s) in
  let message :=
    JSON_stringify
      (Object_assign (Object_assign ∅ {[Opt.uniqueKey (options s) := VStr key]}) fields) in
  sendMessage (PObject fields) cb s
  = (set_log (log s ++ [SocketSend sock message])
       (set_sendMessageQueue (<[key := mkQueueItem message cb]> (sendMessageQueue s))
          (set_keysDrawn (S (keysDrawn s)) s)),
     Ok tt).
Proof.
  intros Hws Hst. unfold sendMessage, generateUniqueKey. unfold_monad.
  rewrite Hws. rewrite andb_false_r. simpl. rewrite Hws, Hst. reflexivity.
Qed.

(** What [Object.assign({}, {[uniqueKey]: key}, data)] builds. *)
Lemma Object_assign_key_then_data (k : string) (v : jsval) (fields : gmap string jsval) :
  Object_assign (Object_assign ∅ {[k := v]}) fields
  = match fields !! k with
    | Some _ => fields
    | None => <[k := v]> fields
    end.
Proof.
  unfold Object_assign. rewrite (right_id_L ∅ (∪)).
  apply map_eq. intros i. rewrite lookup_union.
  destruct (fields !! k) as [x|] eqn:Hk.
  - destruct (decide (i = k)) as [->|Hne].
    + rewrite Hk, lookup_singleton_eq. reflexivity.
    + rewrite lookup_singleton_ne by congruence.
      destruct (fields !! i); reflexivity.
  - destruct (decide (i = k)) as [->|Hne].
    + rewrite Hk, lookup_singleton_eq, lookup_insert_eq. reflexivity.
    + rewrite lookup_singleton_ne, lookup_insert_ne by congruence.
      destruct (fields !! i); reflexivity.
Qed.

(** When the caller's object has no field named like the correlation field,
    the message sent is the caller's object with the fresh key added. *)
Lemma sendMessage_adds_fresh_key s sock fields cb :
  ws s = Some sock -> readyState s sock = OPEN ->
  fields !! Opt.uniqueKey (options s) = None ->
  log (exec (sendMessage (PObject fields) cb) s)
  = log s ++ [SocketSend sock
                (JSON_stringify
                   (<[Opt.uniqueKey (options s) := VStr (key_source (keysDrawn s))]> fields))].
Proof.
  intros Hws Hst Hk. unfold exec.
  rewrite (sendMessage_open_object s sock fields cb Hws Hst). simpl.
  rewrite Object_assign_key_then_data, Hk. reflexivity.
Qed.

(** C1 (as the code has it): with [cacheMessage] enabled and no transport,
    [sendMessage] queues the payload with its callback in the outbound cache
    (dropping the oldest entry when the cache is full), sends nothing, and on
    that same call invokes the supplied callback, when there is one, with the
    "not connected" failure. *)
Theorem sendMessage_caches_and_reports_failure
    (s : State) (d : payload) (cb : option MessageCallback) :
  Opt.cacheMessage (options s) = true ->
  ws s = None ->
  sendMessage d cb s
  = not_connected_report cb
      (set_messageCache (enqueue (options s) (messageCache s) (mkCacheItem d cb)) s).
Proof.
  intros Hcache Hws. rewrite (sendMessage_no_transport s d cb Hws), Hcache.
  reflexivity.
Qed.

(** C2 (the code at a colliding payload): when the caller's object already
    has a field named like the correlation field, the message sent is the
    caller's object unchanged, carrying the caller's value and not the
    generated key, while the pending table is registered under the generated
    key. *)
Theorem sendMessage_keeps_caller_correlation_field
    (s : State) (sock : nat) (fields : gmap string jsval) (v : jsval)
    (cb : option MessageCallback) :
  ws s = Some sock ->
  readyState s sock = OPEN ->
  fields !! Opt.uniqueKey (options s) = Some v ->
  let key := key_source (keysDrawn s) in
  let s' := exec (sendMessage (PObject fields) cb) s in
  log s' = log s ++ [SocketSend sock (JSON_stringify fields)]
  /\ sendMessageQueue s'
     = <[key := mkQueueItem (JSON_stringify fields) cb]> (sendMessageQueue s).
Proof.
  intros Hws Hst Hk key s'. subst s'. unfold exec.
  rewrite (sendMessage_open_object s sock fields cb Hws Hst). simpl.
  rewrite Object_assign_key_then_data, Hk. split; reflexivity.
Qed.

(** *** Preservation of state predicates *)

Definition preserves {A} (P : State -> Prop) (m : M A) : Prop :=
  forall s, P s -> P (fst (m s)).

Lemma preserves_ret {A} P (a : A) : preserves P (ret a).
Proof. intros s H. exact H. Qed.

Lemma preserves_throw {A} P err : preserves P (@throw A err).
Proof. intros s H. exact H. Qed.

Lemma preserves_gets {A} P (f : State -> A) : preserves P (gets f).
Proof. intros s H. exact H. Qed.

Lemma preserves_modify P f : (forall s, P s -> P (f s)) -> preserves P (modify f).
Proof. intros Hf s H. apply Hf, H. Qed.

Lemma preserves_bind {A B} P (m : M A) (k : A -> M B) :
  preserves P m -> (forall a, preserves P (k a)) -> preserves P (bind m k).
Proof.
  intros Hm Hk s H. unfold bind. specialize (Hm s H).
  destruct (m s) as [s' [a|err]]; simpl in *; [apply Hk, Hm | exact Hm].
Qed.

Lemma preserves_when P b m : preserves P m -> preserves P (when b m).
Proof. intros Hm. destruct b; [exact Hm | apply preserves_ret]. Qed.

Lemma preserves_try_catch P m h :
  preserves P m -> (forall err, preserves P (h err)) -> preserves P (try_catch m h).
Proof.
  intros Hm Hh s H. unfold try_catch. specialize (Hm s H).
  destruct (m s) as [s' [a|err]]; simpl in *; [exact Hm | apply Hh, Hm].
Qed.

Lemma preserves_forEach {A} P (f : A -> M unit) l :
  (forall x, preserves P (f x)) -> preserves P (forEach f l).
Proof.
  intros Hf. induction l as [|x rest IH]; simpl.
  - apply preserves_ret.
  - apply preserves_bind; [apply Hf | intros _; exact IH].
Qed.

(** Breaks a computation down to its [modify] leaves. *)
Ltac preserves_step :=
  lazymatch goal with
  | |- preserves _ (bind _ _) => apply preserves_bind; [|intro]
  | |- preserves _ (ret _) => apply preserves_ret
  | |- preserves _ (throw _) => apply preserves_throw
  | |- preserves _ (gets _) => apply preserves_gets
  | |- preserves _ (when _ _) => apply preserves_when
  | |- preserves _ (try_catch _ _) => apply preserves_try_catch; [|intro]
  | |- preserves _ (forEach _ _) => apply preserves_forEach; intro
  | |- preserves _ (modify _) => apply preserves_modify; intros ? ?
  | |- preserves _ (match ?x with _ => _ end) => destruct x
  | |- preserves _ (let _ := _ in _) => cbv zeta
  end.

Ltac unfold_primitives :=
  unfold emit_effect, setTimeout, clearTimeout, socket_send, socket_close,
    console_warn, console_error, call_callback, new_WebSocket, bindEvents,
    generateUniqueKey, call_listener, call_listener_body, off, emit.

Ltac preserves_auto :=
  repeat preserves_step;
  repeat (progress unfold_primitives; repeat preserves_step).

(** Breaks a computation down to the leaves of the methods it calls: [leaf]
    is tried first on every sub-computation, then the structure is split,
    then the method at the head is unfolded. *)
Ltac head_of m :=
  lazymatch m with
  | ?f _ => head_of f
  | _ => m
  end.

Ltac unfold_head :=
  lazymatch goal with
  | |- preserves _ ?m => let h := head_of m in progress unfold h
  end.

Ltac preserves_with leaf :=
  repeat first [ leaf | preserves_step | unfold_head ].

Ltac frame_leaf :=
  idtac;
  match goal with
  | H : ?P ?s |- ?P _ => exact H
  | |- context [match readyState ?s ?k with _ => _ end] =>
      destruct (readyState s k); assumption
  end.

Lemma preserves_run (P : State -> Prop) inputs :
  (forall s err, P s -> P (set_log (log s ++ [Uncaught err]) s)) ->
  (forall i, List.In i inputs -> preserves P (step i)) ->
  forall s, P s -> P (run inputs s).
Proof.
  intros Hlog. induction inputs as [|i rest IH]; intros Hstep s Hs; [exact Hs|].
  simpl. apply IH.
  - intros j Hj. apply Hstep. right. exact Hj.
  - unfold turn. pose proof (Hstep i (or_introl eq_refl) s Hs) as Hi.
    destruct (step i s) as [s' [a|err]]; [exact Hi | apply Hlog, Hi].
Qed.

(** **** The user-initiated-close flag stays set *)

Definition flag_is (b : bool) (s : State) : Prop := isHandleClose s = b.
Definition closed_by_user : State -> Prop := flag_is true.

Lemma flag_reconnect : preserves closed_by_user reconnect.
Proof. unfold reconnect. preserves_auto; assumption. Qed.

Lemma flag_sendMessage b d cb : preserves (flag_is b) (sendMessage d cb).
Proof. unfold sendMessage, push, shift. preserves_auto; assumption. Qed.

Lemma flag_emit b event e : preserves (flag_is b) (emit event e).
Proof. preserves_auto; assumption. Qed.

Lemma flag_sendNextMessage b index : preserves (flag_is b) (sendNextMessage index).
Proof.
  unfold sendNextMessage. preserves_auto; try assumption.
  apply flag_sendMessage.
Qed.

Lemma flag_timeout_guard : preserves closed_by_user timeout_guard.
Proof.
  unfold timeout_guard. apply preserves_bind; [apply preserves_gets|intros byUser].
  destruct byUser; [apply preserves_ret|].
  repeat preserves_step.
  - preserves_auto; try assumption.
    destruct (readyState _ _); assumption.
  - apply flag_emit.
  - assumption.
  - apply flag_reconnect.
Qed.

Lemma flag_step i :
  (forall sock, i <> Transport_open sock) -> preserves closed_by_user (step i).
Proof.
  intros Hopen. destruct i; simpl.
  - unfold connect. preserves_auto; assumption.
  - apply flag_sendMessage.
  - unfold close. preserves_auto; try assumption; try reflexivity.
    destruct (readyState _ _); assumption.
  - unfold destroy, close, removeAllListeners. preserves_auto; try assumption; try reflexivity.
    destruct (readyState _ _); assumption.
  - unfold on. preserves_auto; assumption.
  - unfold once, on. preserves_auto; assumption.
  - unfold removeListener. preserves_auto; assumption.
  - unfold removeAllListeners. preserves_auto; assumption.
  - exfalso. apply (Hopen sock). reflexivity.
  - unfold closeHandler. repeat preserves_step; try assumption.
    + apply flag_emit.
    + apply flag_reconnect.
  - unfold messageHandler. repeat preserves_step; try apply flag_emit;
      preserves_auto; assumption.
  - unfold errorHandler. repeat preserves_step. apply flag_emit.
  - repeat preserves_step.
    + preserves_auto. assumption.
    + unfold run_timer. destruct (t_action _).
      * apply flag_timeout_guard.
      * unfold reconnect_timer. preserves_auto; assumption.
      * apply flag_sendNextMessage.
Qed.

Lemma flag_run inputs : forall s,
  Forall (fun i => forall sock, i <> Transport_open sock) inputs ->
  closed_by_user s -> closed_by_user (run inputs s).
Proof.
  induction inputs as [|i rest IH]; intros s Hall Hs; [exact Hs|].
  inversion Hall as [|? ? Hi Hrest]; subst. simpl. apply IH; [exact Hrest|].
  unfold turn. pose proof (flag_step i Hi s Hs) as Hstep.
  destruct (step i s) as [s' [a|err]]; exact Hstep.
Qed.

Lemma close_run s :
  close s
  = (set_ws None
       (match ws s with
        | Some sock => exec (socket_close sock) (set_isHandleClose true s)
        | None => set_isHandleClose true s
        end),
     Ok tt).
Proof.
  unfold close. unfold_monad. simpl. destruct (ws s); reflexivity.
Qed.

Lemma close_sets_flag s : closed_by_user (exec close s).
Proof.
  unfold closed_by_user, flag_is, exec. rewrite close_run. simpl.
  destruct (ws s) as [sock|]; simpl; [|reflexivity].
  unfold exec, socket_close. unfold_monad. simpl.
  destruct (readyState _ sock); reflexivity.
Qed.

Lemma timeout_guard_after_user_close s :
  closed_by_user s -> timeout_guard s = (s, Ok tt).
Proof.
  intros H. unfold timeout_guard. unfold_monad. rewrite H. reflexivity.
Qed.

Lemma closeHandler_after_user_close e s :
  closed_by_user s -> closeHandler e s = emit "close" e s.
Proof.
  intros H. unfold closeHandler.
  destruct (emit_run "close" e s) as [L HL]. rewrite HL.
  destruct (invoked e (listeners_of s "close")) as [called [[]|err]]; simpl in *.
  - rewrite (bind_Ok _ _ _ _ _ HL). unfold_monad. simpl.
    rewrite H, andb_false_r. reflexivity.
  - rewrite (bind_Throw _ _ _ _ _ HL). reflexivity.
Qed.

Lemma openHandler_clears_flag e s : isHandleClose (exec (openHandler e) s) = false.
Proof.
  unfold openHandler, sendCachedMessages, exec.
  assert (H : preserves (flag_is false)
                (modify (set_reconnectAttempts 0%nat) >> emit "open" e >> sendNextMessage 0)).
  { repeat preserves_step; [assumption | apply flag_emit | apply flag_sendNextMessage]. }
  unfold bind at 1, gets at 1. unfold bind at 1.
  destruct (isHandleClose s) eqn:Hf; simpl.
  - apply (H (set_isHandleClose false s)). reflexivity.
  - apply (H s). exact Hf.
Qed.

(** C10: once [close] has been called the user-initiated-close flag stays
    set through every later call, transport event and timer, up to the next
    transport [open] event, which resets it; while it is set the
    connection-timeout guard does nothing when it fires (no forced close, no
    synthetic [error] event, no reconnect scheduling), in particular for a
    [connect] issued after the [close] whose transport never opens. *)
Theorem timeout_guard_disabled_after_close (s : State) (inputs : list Input) :
  Forall (fun i => forall sock, i <> Transport_open sock) inputs ->
  let s' := run inputs (exec close s) in
  isHandleClose s' = true
  /\ timeout_guard s' = (s', Ok tt)
  /\ (forall id t others,
        filter (fun t => t_id t = id) (timers s') = t :: others ->
        t_action t = TimeoutGuard ->
        step (Timer_fires id) s'
        = (set_timers (filter (fun t => t_id t <> id) (timers s')) s', Ok tt))
  /\ (forall e s0, isHandleClose (exec (openHandler e) s0) = false).
Proof.
  intros Hall s'.
  assert (Hflag : closed_by_user s') by (apply flag_run; [exact Hall | apply close_sets_flag]).
  split; [exact Hflag | split; [|split]].
  - apply timeout_guard_after_user_close, Hflag.
  - intros id t others Harmed Haction. simpl step.
    unfold bind at 1, gets at 1. rewrite Harmed, Haction. simpl run_timer.
    unfold clearTimeout. unfold bind, modify.
    apply timeout_guard_after_user_close. exact Hflag.
  - intros e s0. apply openHandler_clears_flag.
Qed.

(** C7: [close] sets the user-initiated-close flag before it closes the
    transport, and while the flag is set the close handler only emits the
    [close] event: the transport close event that follows an explicit
    [close], whatever the [reconnect] option, calls no [reconnect], arms no
    timer and creates no transport. *)
Theorem close_event_after_close_does_not_reconnect
    (s : State) (inputs : list Input) (e : Event) :
  Forall (fun i => forall sock, i <> Transport_open sock) inputs ->
  let s' := run inputs (exec close s) in
  close s
  = (set_ws None
       (match ws s with
        | Some sock => exec (socket_close sock) (set_isHandleClose true s)
        | None => set_isHandleClose true s
        end),
     Ok tt)
  /\ isHandleClose (exec close s) = true
  /\ ws (exec close s) = None
  /\ closeHandler e s' = emit "close" e s'
  /\ timers (exec (closeHandler e) s') = timers s'
  /\ sockets (exec (closeHandler e) s') = sockets s'
  /\ ws (exec (closeHandler e) s') = ws s'
  /\ reconnectTimeout (exec (closeHandler e) s') = reconnectTimeout s'.
Proof.
  intros Hall s'.
  assert (Hflag : closed_by_user s') by (apply flag_run; [exact Hall | apply close_sets_flag]).
  split; [apply close_run|].
  split; [apply close_sets_flag|].
  split; [unfold exec; rewrite close_run; reflexivity|].
  split; [apply closeHandler_after_user_close, Hflag|].
  unfold exec. rewrite (closeHandler_after_user_close e s' Hflag).
  destruct (emit_run "close" e s') as [L HL]. rewrite HL. simpl. auto.
Qed.

Lemma destroy_run s :
  destroy s
  = (set_ws None
       (match ws s with
        | Some sock =>
            exec (socket_close sock) (set_isHandleClose true (set_eventListeners ∅ s))
        | None => set_isHandleClose true (set_eventListeners ∅ s)
        end),
     Ok tt).
Proof.
  unfold destroy, close, removeAllListeners. unfold_monad. simpl.
  destruct (ws s); reflexivity.
Qed.

(** C4 (as the code has it): [close] and [destroy] cancel no timer; they set
    the user-initiated-close flag and drop the transport handle ([destroy]
    also empties the listener table).  Right after either, [sendMessage]
    sends nothing and reports the "not connected" failure to the supplied
    callback, and the connection-timeout guard, when it fires, does nothing
    and creates no transport. *)
Theorem destroy_drops_transport_and_keeps_timers
    (s : State) (d : payload) (cb : option MessageCallback) :
  let after_close := exec close s in
  let after_destroy := exec destroy s in
  (ws after_close = None /\ isHandleClose after_close = true
   /\ timers after_close = timers s
   /\ reconnectTimeout after_close = reconnectTimeout s)
  /\ (ws after_destroy = None /\ isHandleClose after_destroy = true
      /\ timers after_destroy = timers s
      /\ reconnectTimeout after_destroy = reconnectTimeout s
      /\ eventListeners after_destroy = ∅)
  /\ sendMessage d cb after_destroy
     = not_connected_report cb
         (if Opt.cacheMessage (options after_destroy)
          then set_messageCache
                 (enqueue (options after_destroy) (messageCache after_destroy)
                    (mkCacheItem d cb)) after_destroy
          else after_destroy)
  /\ timeout_guard after_close = (after_close, Ok tt)
  /\ timeout_guard after_destroy = (after_destroy, Ok tt).
Proof.
  intros after_close after_destroy.
  assert (Hc : ws after_close = None /\ isHandleClose after_close = true
               /\ timers after_close = timers s
               /\ reconnectTimeout after_close = reconnectTimeout s).
  { subst after_close. unfold exec. rewrite close_run. simpl.
    destruct (ws s) as [sock|]; simpl; [|auto].
    unfold exec, socket_close. unfold_monad. simpl.
    destruct (readyState _ sock); simpl; auto. }
  assert (Hd : ws after_destroy = None /\ isHandleClose after_destroy = true
               /\ timers after_destroy = timers s
               /\ reconnectTimeout after_destroy = reconnectTimeout s
               /\ eventListeners after_destroy = ∅).
  { subst after_destroy. unfold exec. rewrite destroy_run. simpl.
    destruct (ws s) as [sock|]; simpl; [|auto 6].
    unfold exec, socket_close. unfold_monad. simpl.
    destruct (readyState _ sock); simpl; auto 6. }
  split; [exact Hc|]. split; [exact Hd|].
  split; [apply sendMessage_no_transport; apply Hd|].
  split; apply timeout_guard_after_user_close; [apply Hc | apply Hd].
Qed.

(** *** The outbound cache *)

Definition cache_bounded (o : Options) (s : State) : Prop :=
  options s = o
  /\ 1 <= Opt.maxCacheMessage o
  /\ Z.of_nat (length (messageCache s)) <= Opt.maxCacheMessage o.

Lemma enqueue_bounded o cache item :
  1 <= Opt.maxCacheMessage o ->
  Z.of_nat (length cache) <= Opt.maxCacheMessage o ->
  Z.of_nat (length (enqueue o cache item)) <= Opt.maxCacheMessage o.
Proof.
  intros Hmax Hlen. unfold enqueue.
  destruct (Z.of_nat (length cache) <? Opt.maxCacheMessage o) eqn:Hlt.
  - apply Z.ltb_lt in Hlt. rewrite length_app. simpl. lia.
  - apply Z.ltb_ge in Hlt. rewrite length_app. simpl.
    destruct cache as [|old rest]; simpl in *; lia.
Qed.

Lemma sendMessage_cache s d cb :
  options (exec (sendMessage d cb) s) = options s
  /\ messageCache (exec (sendMessage d cb) s)
     = if Opt.cacheMessage (options s) && bool_decide (ws s = None)
       then enqueue (options s) (messageCache s) (mkCacheItem d cb)
       else messageCache s.
Proof.
  unfold exec. destruct (ws s) as [sock|] eqn:Hws.
  - rewrite andb_false_r.
    destruct (decide (readyState s sock = OPEN)) as [Hst|Hst].
    + unfold sendMessage, generateUniqueKey. unfold_monad.
      rewrite Hws, andb_false_r. simpl. rewrite Hws, Hst.
      destruct d; simpl; auto.
    + rewrite (sendMessage_not_open s sock d cb Hws Hst).
      unfold not_connected_report. destruct cb; simpl; auto.
  - rewrite (sendMessage_no_transport s d cb Hws), andb_true_r.
    unfold not_connected_report.
    destruct (Opt.cacheMessage (options s)); destruct cb; simpl; auto.
Qed.

Lemma bounded_sendMessage o d cb : preserves (cache_bounded o) (sendMessage d cb).
Proof.
  intros s (Hopt & Hmax & Hlen). destruct (sendMessage_cache s d cb) as [Ho Hc].
  unfold exec in *. unfold cache_bounded. rewrite Ho, Hc, Hopt.
  split; [reflexivity|]. split; [exact Hmax|].
  destruct (Opt.cacheMessage o && bool_decide (ws s = None));
    [apply enqueue_bounded; assumption | exact Hlen].
Qed.

Lemma bounded_emit o event e : preserves (cache_bounded o) (emit event e).
Proof. preserves_auto; assumption. Qed.

Lemma bounded_reconnect o : preserves (cache_bounded o) reconnect.
Proof. unfold reconnect. preserves_auto; assumption. Qed.

Lemma bounded_sendNextMessage o index : preserves (cache_bounded o) (sendNextMessage index).
Proof.
  unfold sendNextMessage. preserves_auto; try assumption.
  apply bounded_sendMessage.
Qed.

Lemma bounded_socket_close o sock : preserves (cache_bounded o) (socket_close sock).
Proof. preserves_auto; try assumption. destruct (readyState _ _); assumption. Qed.

Lemma bounded_step o i : preserves (cache_bounded o) (step i).
Proof.
  destruct i; simpl.
  - unfold connect. preserves_auto; assumption.
  - apply bounded_sendMessage.
  - unfold close. repeat preserves_step; try assumption; apply bounded_socket_close.
  - unfold destroy, close, removeAllListeners.
    repeat preserves_step; try assumption; apply bounded_socket_close.
  - unfold on. preserves_auto; assumption.
  - unfold once, on. preserves_auto; assumption.
  - unfold removeListener. preserves_auto; assumption.
  - unfold removeAllListeners. preserves_auto; assumption.
  - unfold openHandler, sendCachedMessages. repeat preserves_step; try assumption.
    + apply bounded_emit.
    + apply bounded_sendNextMessage.
  - unfold closeHandler. repeat preserves_step; try assumption.
    + apply bounded_emit.
    + apply bounded_reconnect.
  - unfold messageHandler. repeat preserves_step; try apply bounded_emit;
      preserves_auto; assumption.
  - unfold errorHandler. repeat preserves_step. apply bounded_emit.
  - repeat preserves_step.
    + preserves_auto. assumption.
    + unfold run_timer. destruct (t_action _).
      * unfold timeout_guard. repeat preserves_step; try assumption.
        -- apply bounded_socket_close.
        -- apply bounded_emit.
        -- apply bounded_reconnect.
      * unfold reconnect_timer. preserves_auto; assumption.
      * apply bounded_sendNextMessage.
Qed.

Lemma bounded_run o inputs :
  forall s, cache_bounded o s -> cache_bounded o (run inputs s).
Proof.
  induction inputs as [|i rest IH]; intros s Hs; [exact Hs|].
  simpl. apply IH. unfold turn. pose proof (bounded_step o i s Hs) as Hstep.
  destruct (step i s) as [s' [a|err]]; exact Hstep.
Qed.

Lemma sendMessage_open s sock d cb f :
  ws s = Some sock -> readyState s sock = OPEN ->
  frame_of (options s) (key_source (keysDrawn s)) d = Some f ->
  sendMessage d cb s = (after_send sock f d cb s, Ok tt).
Proof.
  intros Hws Hst Hf. unfold sendMessage, generateUniqueKey, after_send. unfold_monad.
  rewrite Hws, andb_false_r. simpl. rewrite Hws, Hst.
  destruct d; simpl in *; try discriminate; inversion Hf; subst; reflexivity.
Qed.

Lemma sendNextMessage_sends s sock index item f :
  ws s = Some sock -> readyState s sock = OPEN ->
  messageCache s !! index = Some item ->
  frame_of (options s) (key_source (keysDrawn s)) (data item) = Some f ->
  sendNextMessage index s
  = (let s1 := after_send sock f (data item) (cache_callback item) s in
     set_nextTimer (S (nextTimer s1))
       (set_timers (timers s1 ++ [mkTimer (nextTimer s1) 100 (SendNextMessage (S index))]) s1),
     Ok tt).
Proof.
  intros Hws Hst Hitem Hf. unfold sendNextMessage.
  unfold bind at 1, gets at 1.
  rewrite bool_decide_eq_true_2 by (apply lookup_lt_is_Some; eauto).
  rewrite Hitem.
  rewrite (bind_Ok _ _ _ _ _ (sendMessage_open s sock _ _ f Hws Hst Hf)).
  unfold_monad. reflexivity.
Qed.

Lemma sendNextMessage_done s index :
  (length (messageCache s) <= index)%nat -> sendNextMessage index s = (s, Ok tt).
Proof.
  intros Hlen. unfold sendNextMessage. unfold_monad.
  rewrite bool_decide_eq_false_2 by lia. reflexivity.
Qed.

Lemma replay_sends_in_order sock n : forall index s,
  ws s = Some sock -> readyState s sock = OPEN ->
  Forall (fun item => data item <> POther) (drop index (messageCache s)) ->
  log (exec (replay n index) s)
  = log s ++ map (SocketSend sock)
               (frames (options s) (keysDrawn s) (take n (drop index (messageCache s))))
  /\ outcome (replay n index) s = Ok tt.
Proof.
  induction n as [|n IH]; intros index s Hws Hst Hvalid.
  - unfold exec, outcome. simpl. unfold ret. simpl.
    rewrite app_nil_r. split; reflexivity.
  - simpl replay. destruct (messageCache s !! index) as [item|] eqn:Hitem.
    + rewrite (drop_S _ _ _ Hitem) in *. inversion Hvalid as [|? ? Hd Hrest]; subst.
      destruct (frame_of (options s) (key_source (keysDrawn s)) (data item)) as [f|] eqn:Hf;
        [|destruct (data item); simpl in Hf; congruence].
      pose proof (sendNextMessage_sends s sock index item f Hws Hst Hitem Hf) as Hstep.
      cbv zeta in Hstep.
      unfold exec, outcome. rewrite (bind_Ok _ _ _ _ _ Hstep).
      match goal with |- context [replay n (S index) ?s1] =>
        destruct (IH (S index) s1) as [Hlog Hout] end.
      * unfold after_send. destruct (draws_key _); exact Hws.
      * unfold after_send, readyState in *. destruct (draws_key _); exact Hst.
      * unfold after_send. destruct (draws_key _); exact Hrest.
      * unfold exec, outcome in Hlog, Hout. rewrite Hlog, Hout. split; [|reflexivity].
        simpl. rewrite Hf. unfold after_send.
        destruct (draws_key (data item)); simpl; rewrite <- app_assoc; reflexivity.
    + apply lookup_ge_None in Hitem.
      unfold exec, outcome.
      rewrite (bind_Ok _ _ _ _ _ (sendNextMessage_done s index Hitem)).
      rewrite drop_ge in * by lia. rewrite take_nil in *.
      specialize (IH (S index) s Hws Hst).
      rewrite drop_ge in IH by lia. rewrite take_nil in IH.
      apply IH. constructor.
Qed.

Lemma turn_send_disconnected s d cb :
  ws s = None ->
  let s' := turn (Call_sendMessage d cb) s in
  ws s' = None /\ options s' = options s
  /\ messageCache s'
     = if Opt.cacheMessage (options s)
       then enqueue (options s) (messageCache s) (mkCacheItem d cb)
       else messageCache s.
Proof.
  intros Hws. unfold turn. simpl step.
  rewrite (sendMessage_no_transport s d cb Hws). unfold not_connected_report.
  destruct (Opt.cacheMessage (options s)); destruct cb as [c|]; simpl;
    try case_callback; simpl; auto.
Qed.

(** **** Timer ids are fresh *)

(** The id that the next [setTimeout] returns is above the id of every
    armed timer. *)
Definition timers_fresh (s : State) : Prop :=
  Forall (fun t => (t_id t < nextTimer s)%nat) (timers s).

Lemma fresh_setTimeout action delay : preserves timers_fresh (setTimeout action delay).
Proof.
  intros s H. unfold setTimeout. unfold_monad. unfold timers_fresh in *. simpl.
  apply Forall_app. split.
  - eapply Forall_impl; [exact H|]. simpl. intros t Ht. lia.
  - constructor; [simpl; lia | constructor].
Qed.

Lemma fresh_clearTimeout id : preserves timers_fresh (clearTimeout id).
Proof.
  intros s H. unfold clearTimeout, modify. unfold timers_fresh in *. simpl.
  apply Forall_forall. intros t Ht. apply list_elem_of_filter in Ht as [_ Ht].
  rewrite Forall_forall in H. auto.
Qed.

Ltac fresh_leaf :=
  idtac;
  lazymatch goal with
  | |- preserves _ (setTimeout _ _) => apply fresh_setTimeout
  | |- preserves _ (clearTimeout _) => apply fresh_clearTimeout
  | |- _ => frame_leaf
  end.

Lemma fresh_step i : preserves timers_fresh (step i).
Proof. destruct i; simpl; preserves_with fresh_leaf. Qed.

Lemma fresh_run o inputs : timers_fresh (run inputs (initial o)).
Proof.
  apply (preserves_run timers_fresh).
  - intros s err H. exact H.
  - intros i _. apply fresh_step.
  - constructor.
Qed.

(** **** The replay, as the event loop runs it *)

Lemma fresh_ids (base : list Timer) (id : nat) :
  Forall (fun t => (t_id t < id)%nat) base ->
  filter (fun t => t_id t = id) base = []
  /\ filter (fun t => t_id t <> id) base = base.
Proof.
  induction 1 as [|t rest Ht _ [IH1 IH2]]; [split; reflexivity|].
  rewrite !filter_cons.
  destruct (decide (t_id t = id)) as [Heq|Hne]; [lia|].
  destruct (decide (t_id t <> id)) as [_|Hn]; [|contradiction].
  rewrite IH1, IH2. split; reflexivity.
Qed.

(** Firing an id that no armed timer carries does nothing. *)
Lemma fire_stale s id :
  Forall (fun t => (t_id t < id)%nat) (timers s) ->
  step (Timer_fires id) s = (s, Ok tt).
Proof.
  intros Hfresh. destruct (fresh_ids _ id Hfresh) as [H1 _].
  simpl step. unfold bind at 1, gets at 1. rewrite H1. reflexivity.
Qed.

Lemma stale_run m : forall id s,
  Forall (fun t => (t_id t < id)%nat) (timers s) ->
  run (map Timer_fires (seq id m)) s = s.
Proof.
  induction m as [|m IH]; intros id s Hfresh; [reflexivity|].
  simpl. unfold turn. rewrite (fire_stale s id Hfresh).
  apply IH. eapply Forall_impl; [exact Hfresh|]. simpl. intros t Ht. lia.
Qed.

(** Firing the timer that a link of the chain armed runs the next link. *)
Lemma fire_link s base id index :
  timers s = base ++ [mkTimer id 100 (SendNextMessage index)] ->
  Forall (fun t => (t_id t < id)%nat) base ->
  step (Timer_fires id) s = sendNextMessage index (set_timers base s).
Proof.
  intros Ht Hfresh. destruct (fresh_ids base id Hfresh) as [H1 H2].
  simpl step. unfold bind at 1, gets at 1.
  rewrite Ht, filter_app, H1. simpl.
  rewrite filter_cons_True by reflexivity. simpl.
  unfold clearTimeout. unfold bind at 1, modify.
  rewrite Ht, filter_app, H2.
  rewrite filter_cons_False by (simpl; intros Hne; apply Hne; reflexivity).
  rewrite filter_nil, app_nil_r. reflexivity.
Qed.

Lemma chain_runs sock base m : forall index id s,
  ws s = Some sock ->
  readyState s sock = OPEN ->
  Forall (fun item => data item <> POther) (drop index (messageCache s)) ->
  (index <= length (messageCache s))%nat ->
  timers s = base ++ [mkTimer id 100 (SendNextMessage index)] ->
  nextTimer s = S id ->
  Forall (fun t => (t_id t < id)%nat) base ->
  let s' := run (map Timer_fires (seq id m)) s in
  log s' = log s ++ map (SocketSend sock)
                      (frames (options s) (keysDrawn s)
                         (take m (drop index (messageCache s))))
  /\ timers s'
     = base ++ (if bool_decide (index + m <= length (messageCache s))%nat
                then [mkTimer (id + m) 100 (SendNextMessage (index + m))]
                else []).
Proof.
  induction m as [|m IH]; intros index id s Hws Hst Hvalid Hlen Ht Hnext Hfresh.
  - simpl. rewrite app_nil_r, !Nat.add_0_r.
    rewrite bool_decide_eq_true_2 by exact Hlen. split; [reflexivity | exact Ht].
  - cbv zeta. simpl seq. simpl map. simpl run. unfold turn.
    rewrite (fire_link s base id index Ht Hfresh).
    destruct (messageCache s !! index) as [item|] eqn:Hitem.
    + rewrite (drop_S _ _ _ Hitem) in *. inversion Hvalid as [|? ? Hd Hrest]; subst.
      destruct (frame_of (options s) (key_source (keysDrawn s)) (data item)) as [f|] eqn:Hf;
        [|destruct (data item); simpl in Hf; congruence].
      rewrite (sendNextMessage_sends (set_timers base s) sock index item f Hws Hst Hitem Hf).
      cbv zeta.
      match goal with |- context [run _ ?s1] =>
        destruct (IH (S index) (S id) s1) as [Hlog Htimers] end.
      * unfold after_send. destruct (draws_key _); exact Hws.
      * unfold after_send, readyState in *. destruct (draws_key _); exact Hst.
      * unfold after_send. destruct (draws_key _); exact Hrest.
      * apply lookup_lt_Some in Hitem.
        unfold after_send. destruct (draws_key _); simpl; lia.
      * unfold after_send. destruct (draws_key _); simpl; rewrite Hnext; reflexivity.
      * unfold after_send. destruct (draws_key _); simpl; rewrite Hnext; reflexivity.
      * eapply Forall_impl; [exact Hfresh|]. simpl. intros t Hlt. lia.
      * cbv zeta in Hlog, Htimers. rewrite Hlog, Htimers. clear Hlog Htimers IH.
        simpl frames. rewrite Hf.
        replace (index + S m)%nat with (S index + m)%nat by lia.
        replace (id + S m)%nat with (S id + m)%nat by lia.
        unfold after_send.
        destruct (draws_key (data item)); simpl; rewrite <- app_assoc; split; reflexivity.
    + apply lookup_ge_None in Hitem.
      rewrite (sendNextMessage_done (set_timers base s) index Hitem).
      rewrite stale_run
        by (simpl; eapply Forall_impl; [exact Hfresh|]; simpl; intros t Hlt; lia).
      simpl. rewrite drop_ge by lia. rewrite take_nil. simpl.
      rewrite bool_decide_eq_false_2 by lia. rewrite !app_nil_r.
      split; reflexivity.
Qed.

Lemma is_bound_in_range s sock : is_bound s sock = true -> (sock < length (sockets s))%nat.
Proof.
  unfold is_bound. intros H. apply lookup_lt_is_Some.
  destruct (sockets s !! sock); [eauto | discriminate].
Qed.

Lemma readyState_after_event s sock r :
  is_bound s sock = true -> readyState (set_readyState sock r s) sock = r.
Proof.
  intros H. apply is_bound_in_range in H.
  unfold readyState, set_readyState. simpl. rewrite list_lookup_alter_eq.
  destruct (lookup_lt_is_Some_2 (sockets s) sock H) as [k Hk]. rewrite Hk. reflexivity.
Qed.

(** A transport [open] event, once the [open] listeners have returned,
    starts the replay at the head of the cache. *)
Lemma open_starts_replay s sock :
  is_bound s sock = true ->
  Forall (fun l => l_run l (plain_event "open") = None) (listeners_of s "open") ->
  exists s0,
    step (Transport_open sock) s = sendNextMessage 0 s0
    /\ ws s0 = ws s
    /\ readyState s0 sock = OPEN
    /\ options s0 = options s
    /\ messageCache s0 = messageCache s
    /\ keysDrawn s0 = keysDrawn s
    /\ timers s0 = timers s
    /\ nextTimer s0 = nextTimer s
    /\ log s0 = log s ++ calls "open" (plain_event "open") (listeners_of s "open").
Proof.
  intros Hbound Hquiet.
  pose proof (readyState_after_event s sock OPEN Hbound) as Hopen.
  set (s1 := set_readyState sock OPEN s) in *.
  set (s2 := set_reconnectAttempts 0%nat
               (if isHandleClose s1 then set_isHandleClose false s1 else s1)).
  destruct (emit_run "open" (plain_event "open") s2) as [L HL].
  assert (Hls : listeners_of s2 "open" = listeners_of s "open").
  { subst s2 s1. destruct (isHandleClose _); reflexivity. }
  rewrite Hls, (invoked_all _ _ Hquiet) in HL. simpl in HL.
  eexists. split.
  - simpl step. unfold bind at 1, gets at 1. rewrite Hbound. unfold when.
    unfold bind at 1, modify at 1. fold s1.
    unfold openHandler, sendCachedMessages.
    unfold bind at 1, gets at 1. unfold bind at 1.
    assert (Hpre : when (isHandleClose s1) (modify (set_isHandleClose false)) s1
                   = (if isHandleClose s1 then set_isHandleClose false s1 else s1, Ok tt)).
    { unfold when, modify, ret. destruct (isHandleClose s1); reflexivity. }
    rewrite Hpre. unfold bind at 1, modify at 1. fold s2.
    rewrite (bind_Ok _ _ _ _ _ HL). reflexivity.
  - subst s2. simpl. unfold readyState in *. simpl.
    destruct (isHandleClose s); simpl; repeat split; try reflexivity; exact Hopen.
Qed.

(** C6 (as the code has it): for a limit [maxCacheMessage >= 1] the outbound
    cache never grows beyond the limit, whatever calls, transport events and
    timers occur; eviction is drop-oldest: a send made with caching enabled
    and no transport appends the new entry, after removing the single oldest
    entry when the cache is full, so the newest entry is always retained;
    with a limit of 2, three sends made while disconnected retain exactly the
    2nd and the 3rd.  When, in any state the controller can reach, the
    transport it holds opens, with [open] listeners that return and cached
    payloads that are strings or objects, the open event sends the oldest
    entry and arms a 100 ms timer for the next; each such timer, when it
    fires, sends the next entry and arms the next timer: after the open
    event and [m] timer firings the first [m + 1] entries have been sent,
    oldest first, and nothing else. *)
Theorem cache_is_bounded_drop_oldest_and_replayed_in_order :
  (forall (o : Options) (inputs : list Input),
      1 <= Opt.maxCacheMessage o ->
      Z.of_nat (length (messageCache (run inputs (initial o)))) <= Opt.maxCacheMessage o)
  /\ (forall (s : State) (d : payload) (cb : option MessageCallback),
        Opt.cacheMessage (options s) = true ->
        ws s = None ->
        let cache' := messageCache (exec (sendMessage d cb) s) in
        cache'
        = (if Z.of_nat (length (messageCache s)) <? Opt.maxCacheMessage (options s)
           then messageCache s
           else tail (messageCache s)) ++ [mkCacheItem d cb]
        /\ last cache' = Some (mkCacheItem d cb))
  /\ (forall (o : Options) (p1 p2 p3 : payload) (cb1 cb2 cb3 : option MessageCallback),
        Opt.cacheMessage o = true ->
        Opt.maxCacheMessage o = 2 ->
        messageCache
          (run [Call_sendMessage p1 cb1; Call_sendMessage p2 cb2; Call_sendMessage p3 cb3]
             (initial o))
        = [mkCacheItem p2 cb2; mkCacheItem p3 cb3])
  /\ (forall (o : Options) (inputs : list Input) (sock m : nat),
        let s := run inputs (initial o) in
        ws s = Some sock ->
        is_bound s sock = true ->
        Forall (fun l => l_run l (plain_event "open") = None) (listeners_of s "open") ->
        Forall (fun item => data item <> POther) (messageCache s) ->
        let s' := run (Transport_open sock :: map Timer_fires (seq (nextTimer s) m)) s in
        log s'
        = log s ++ calls "open" (plain_event "open") (listeners_of s "open")
                ++ map (SocketSend sock)
                     (frames (options s) (keysDrawn s) (take (S m) (messageCache s)))
        /\ timers s'
           = timers s
             ++ (if bool_decide (S m <= length (messageCache s))%nat
                 then [mkTimer (nextTimer s + m) 100 (SendNextMessage (S m))]
                 else [])).
Proof.
  split; [|split; [|split]].
  - intros o inputs Hmax.
    apply (bounded_run o inputs (initial o)).
    split; [reflexivity|]. split; [exact Hmax|]. simpl. lia.
  - intros s d cb Hcache Hws cache'. subst cache'.
    destruct (sendMessage_cache s d cb) as [_ Hc]. rewrite Hc, Hcache, Hws. simpl.
    unfold enqueue. split; [reflexivity|]. apply last_snoc.
  - intros o p1 p2 p3 cb1 cb2 cb3 Hcache Hmax. simpl run.
    destruct (turn_send_disconnected (initial o) p1 cb1 eq_refl) as (Hw1 & Ho1 & Hc1).
    destruct (turn_send_disconnected _ p2 cb2 Hw1) as (Hw2 & Ho2 & Hc2).
    destruct (turn_send_disconnected _ p3 cb3 Hw2) as (Hw3 & Ho3 & Hc3).
    rewrite Hc3, Ho2, Hc2, Ho1, Hc1. simpl options. rewrite Hcache.
    unfold enqueue. rewrite Hmax. reflexivity.
  - intros o inputs sock m s Hws Hbound Hquiet Hvalid.
    pose proof (fresh_run o inputs) as Hfresh. fold s in Hfresh. unfold timers_fresh in Hfresh.
    destruct (open_starts_replay s sock Hbound Hquiet)
      as (s0 & Hstep & Hws0 & Hst0 & Hopt0 & Hcache0 & Hkeys0 & Htimers0 & Hnext0 & Hlog0).
    rewrite Hws in Hws0.
    cbv zeta. simpl run. unfold turn. rewrite Hstep.
    destruct (messageCache s0 !! 0%nat) as [item|] eqn:Hitem.
    + assert (Hhead : messageCache s = item :: drop 1 (messageCache s)).
      { rewrite <- Hcache0. rewrite <- (drop_0 (messageCache s0)) at 1.
        apply (drop_S _ _ _ Hitem). }
      assert (Hd : data item <> POther).
      { rewrite Hhead in Hvalid. inversion Hvalid; assumption. }
      destruct (frame_of (options s0) (key_source (keysDrawn s0)) (data item)) as [f|] eqn:Hf;
        [|destruct (data item); simpl in Hf; congruence].
      rewrite (sendNextMessage_sends s0 sock 0%nat item f Hws0 Hst0 Hitem Hf).
      cbv zeta.
      match goal with |- context [run _ ?s1] =>
        destruct (chain_runs sock (timers s) m 1%nat (nextTimer s) s1) as [Hlog Htimers] end.
      * unfold after_send. destruct (draws_key _); exact Hws0.
      * unfold after_send, readyState in *. destruct (draws_key _); exact Hst0.
      * replace (messageCache _) with (messageCache s)
          by (unfold after_send; destruct (draws_key _); simpl; congruence).
        rewrite Hhead in Hvalid. inversion Hvalid; assumption.
      * replace (messageCache _) with (messageCache s)
          by (unfold after_send; destruct (draws_key _); simpl; congruence).
        rewrite Hhead. simpl. lia.
      * unfold after_send. destruct (draws_key _); simpl; rewrite Htimers0, Hnext0; reflexivity.
      * unfold after_send. destruct (draws_key _); simpl; rewrite Hnext0; reflexivity.
      * exact Hfresh.
      * cbv zeta in Hlog, Htimers. rewrite Hlog, Htimers. clear Hlog Htimers.
        assert (Hframes : frames (options s) (keysDrawn s) (take (S m) (messageCache s))
                          = f :: frames (options s)
                                   (if draws_key (data item)
                                    then S (keysDrawn s) else keysDrawn s)
                                   (take m (drop 1 (messageCache s)))).
        { rewrite Hhead at 1. simpl. rewrite <- Hopt0, <- Hkeys0, Hf. reflexivity. }
        rewrite Hframes. unfold after_send.
        destruct (draws_key (data item)); simpl;
          rewrite Hlog0, Hcache0, Hopt0, Hkeys0, <- !app_assoc; split; reflexivity.
    + apply lookup_ge_None in Hitem.
      rewrite (sendNextMessage_done s0 0%nat Hitem).
      rewrite stale_run by (rewrite Htimers0; exact Hfresh).
      assert (Hnil : messageCache s = []).
      { rewrite <- Hcache0. destruct (messageCache s0); [reflexivity | simpl in Hitem; lia]. }
      rewrite Hlog0, Htimers0, Hnil. simpl. rewrite !app_nil_r. split; reflexivity.
Qed.

(** *** Correlated responses *)

Lemma emit_Ok_bind {B} event e (k : unit -> M B) s :
  outcome (emit event e) s = Ok tt ->
  bind (emit event e) k s = k tt (exec (emit event e) s).
Proof.
  unfold outcome, exec. intros H. unfold bind.
  destruct (emit event e s) as [s1 r]. simpl in *. subst r. reflexivity.
Qed.

(** The body of [if (uniqueKey) { ... }] in [messageHandler], for the parsed
    frame [data] and the key read from it. *)
Definition resolve_pending (data : json) (key : string) : M unit :=
  let* entry := gets (fun s => sendMessageQueue s !! key) in
  match entry with
  | None =>
      if bool_decide (key ∈ Object_prototype_keys) then ret tt
      else throw TypeError
  | Some item =>
      match callback item with
      | None => ret tt
      | Some cb =>
          let* st := gets (fun s => readyState s <$> ws s) in
          match st with
          | Some OPEN => call_callback cb None data
          | _ => call_callback cb (Some ConnectionNotOpen) JNull
          end >>
          modify (fun s => set_sendMessageQueue (delete key (sendMessageQueue s)) s)
      end
  end.

Lemma emit_Throw_bind {B} event e (k : unit -> M B) s err :
  outcome (emit event e) s = Throw err ->
  bind (emit event e) k s = (exec (emit event e) s, Throw err).
Proof.
  unfold outcome, exec. intros H. unfold bind.
  destruct (emit event e s) as [s1 r]. simpl in *. subst r. reflexivity.
Qed.

(** [emit] leaves everything but the listener table and the log as it is,
    and logs the calls it makes. *)
Lemma emit_keeps event e s :
  let s1 := exec (emit event e) s in
  options s1 = options s /\ sendMessageQueue s1 = sendMessageQueue s
  /\ ws s1 = ws s /\ sockets s1 = sockets s
  /\ log s1 = log s ++ calls event e (fst (invoked e (listeners_of s event))).
Proof.
  unfold exec. destruct (emit_run event e s) as [L HL]. rewrite HL. simpl. auto 10.
Qed.

Lemma get_property_own (fields : gmap string jsval) (name : string) (v : jsval) :
  fields !! name = Some v -> get_property (JObject fields) name = Some v.
Proof. unfold get_property. simpl. intros ->. reflexivity. Qed.

(** Once the listeners have returned and the correlation field has been
    read as a truthy value, the handler is the lookup of that key, run
    inside the [try]. *)
Lemma messageHandler_lookup s e data v :
  outcome (emit "message" e) s = Ok tt ->
  JSON_parse (ev_data e) = Some data ->
  data <> JNull ->
  get_property data (Opt.uniqueKey (options s)) = Some v ->
  truthy v = true ->
  messageHandler e s
  = try_catch (resolve_pending data (to_property_key v)) console_error
      (exec (emit "message" e) s).
Proof.
  intros Hemit Hparse Hnull Hfield Htruthy.
  destruct (emit_keeps "message" e s) as (Hopt & _).
  unfold messageHandler. rewrite (emit_Ok_bind _ _ _ _ Hemit), Hparse.
  unfold try_catch, resolve_pending.
  unfold bind at 1, ret at 1. unfold bind at 1, gets at 1. rewrite Hopt.
  destruct data; try contradiction;
    unfold bind at 1, ret at 1; rewrite Hfield, Htruthy; reflexivity.
Qed.

(** C9 (as the code has it): for an inbound message whose correlation field
    reads as a truthy key.  The [message] listeners run first, and touch
    neither the pending table nor any callback; when one of them throws, the
    handler ends there with that exception.  When they have returned, the
    key is looked up in the pending table.  An entry with a callback has its
    callback invoked exactly once, with the parsed message when the transport
    is open and with a "connection not open" failure otherwise, and is then
    removed (when the callback itself throws, the error is logged and the
    entry stays).  An entry registered without a callback is left in the
    table.  When there is no entry, the resulting [TypeError] is caught and
    logged on the console, unless the key names a property that every object
    inherits, in which case nothing is logged; in both cases no callback is
    invoked and the table is unchanged. *)
Theorem correlated_message_resolution
    (s : State) (e : Event) (data : json) (v : jsval) :
  JSON_parse (ev_data e) = Some data ->
  data <> JNull ->
  get_property data (Opt.uniqueKey (options s)) = Some v ->
  truthy v = true ->
  let key := to_property_key v in
  let s1 := exec (emit "message" e) s in
  sendMessageQueue s1 = sendMessageQueue s
  /\ log s1 = log s ++ calls "message" e (fst (invoked e (listeners_of s "message")))
  /\ (forall thrown,
        outcome (emit "message" e) s = Throw thrown ->
        messageHandler e s = (s1, Throw thrown))
  /\ (outcome (emit "message" e) s = Ok tt ->
      (forall item cb,
          sendMessageQueue s !! key = Some item ->
          callback item = Some cb ->
          let err := if transport_open s then None else Some ConnectionNotOpen in
          let d := if transport_open s then data else JNull in
          let called := set_log (log s1 ++ [CallbackCall (cb_ref cb) err d]) s1 in
          messageHandler e s
          = match cb_run cb err d with
            | None => (set_sendMessageQueue (delete key (sendMessageQueue s)) called, Ok tt)
            | Some thrown => (set_log (log called ++ [ConsoleError thrown]) called, Ok tt)
            end)
      /\ (forall item,
            sendMessageQueue s !! key = Some item ->
            callback item = None ->
            messageHandler e s = (s1, Ok tt))
      /\ (sendMessageQueue s !! key = None ->
          messageHandler e s
          = (if bool_decide (key ∈ Object_prototype_keys) then s1
             else set_log (log s1 ++ [ConsoleError TypeError]) s1,
             Ok tt))).
Proof.
  intros Hparse Hnull Hfield Htruthy key s1.
  destruct (emit_keeps "message" e s) as (Hopt & Hq & Hws & Hsocks & Hlog).
  fold s1 in Hopt, Hq, Hws, Hsocks, Hlog.
  split; [exact Hq|]. split; [exact Hlog|]. split.
  - intros thrown Hthrow. unfold messageHandler.
    apply (emit_Throw_bind _ _ _ _ _ Hthrow).
  - intros Hemit.
    rewrite (messageHandler_lookup s e data v Hemit Hparse Hnull Hfield Htruthy).
    fold key s1. unfold resolve_pending.
    split; [|split].
    + intros item cb Hitem Hcb.
      unfold_monad. rewrite Hq, Hitem, Hcb.
      unfold transport_open. rewrite Hws.
      destruct (ws s) as [sock|]; simpl.
      * unfold readyState. rewrite Hsocks.
        destruct (default CLOSED (sock_state <$> sockets s !! sock)); simpl;
          case_callback; simpl; rewrite ?Hq; reflexivity.
      * case_callback; simpl; rewrite ?Hq; reflexivity.
    + intros item Hitem Hcb.
      unfold_monad. rewrite Hq, Hitem, Hcb. reflexivity.
    + intros Hnone.
      unfold_monad. rewrite Hq, Hnone.
      destruct (bool_decide (key ∈ Object_prototype_keys)); reflexivity.
Qed.

(** ** Further properties of the controller *)

(** *** The configuration is never modified *)

Lemma options_step o i : preserves (fun s => options s = o) (step i).
Proof. destruct i; simpl; preserves_with frame_leaf. Qed.

(** X1: the options resolved at construction are the options of every later
    state: no call, transport event or timer changes them. *)
Theorem options_are_immutable (inputs : list Input) (s : State) :
  options (run inputs s) = options s.
Proof.
  apply (preserves_run (fun s' => options s' = options s)); [| |reflexivity].
  - intros s' err H. exact H.
  - intros i _. apply options_step.
Qed.

(** *** The connection-timeout path *)

Definition cancel_armed (s : State) : list Timer :=
  match reconnectTimeout s with
  | Some (S id) => filter (fun t => t_id t <> S id) (timers s)
  | Some O | None => timers s
  end.

Lemma reconnect_schedules s sock :
  ws s = Some sock ->
  exhausted s = false ->
  readyState s sock <> CONNECTING ->
  readyState s sock <> OPEN ->
  reconnect s
  = (set_reconnectTimeout (Some (nextTimer s))
       (set_nextTimer (S (nextTimer s))
          (set_timers
             (cancel_armed s
              ++ [mkTimer (nextTimer s)
                    (exponentialBackoff (options s) (reconnectAttempts s)) ReconnectTimer])
             s)),
     Ok tt).
Proof.
  intros Hws Hex Hc Ho. unfold exhausted in Hex.
  unfold reconnect, cancel_armed. unfold_monad. rewrite Hws, Hex.
  destruct (reconnectTimeout s) as [[|id]|]; simpl;
    destruct (readyState _ sock) eqn:Hst; try congruence; reflexivity.
Qed.

Lemma reconnect_skips s sock :
  ws s = Some sock ->
  exhausted s = false ->
  readyState s sock = CONNECTING \/ readyState s sock = OPEN ->
  reconnect s = (set_timers (cancel_armed s) s, Ok tt).
Proof.
  intros Hws Hex Hst. unfold exhausted in Hex.
  unfold reconnect, cancel_armed. unfold_monad. rewrite Hws, Hex.
  unfold readyState in *.
  destruct (reconnectTimeout s) as [[|id]|]; simpl;
    destruct Hst as [-> | ->]; try reflexivity; destruct s; reflexivity.
Qed.

Lemma cancel_armed_subseteq s : cancel_armed s ⊆ timers s.
Proof.
  unfold cancel_armed. destruct (reconnectTimeout s) as [[|id]|]; try reflexivity.
  apply list_subseteq_filter.
Qed.

Lemma readyState_set_readyState s sock r :
  (sock < length (sockets s))%nat ->
  readyState (set_readyState sock r s) sock = r.
Proof.
  intros Hlt. unfold readyState, set_readyState. simpl.
  rewrite list_lookup_alter_eq.
  destruct (lookup_lt_is_Some_2 (sockets s) sock Hlt) as [k Hk]. rewrite Hk. reflexivity.
Qed.

Lemma readyState_in_range s sock r :
  readyState s sock = r -> r <> CLOSED -> (sock < length (sockets s))%nat.
Proof.
  unfold readyState. intros H Hr. apply lookup_lt_is_Some.
  destruct (sockets s !! sock); [eauto | simpl in H; congruence].
Qed.

(** X3: when the timeout guard fires on a transport that is still connecting
    (and the controller was not closed by the user), it closes that
    transport, emits an [error] event of type [timeout] to the [error]
    listeners, and, with [reconnect] enabled and attempts left, increments
    the attempt counter and arms a retry whose delay is the backoff at the
    incremented count. *)
Theorem timeout_closes_and_schedules_retry (s : State) (sock : nat) :
  ws s = Some sock ->
  isHandleClose s = false ->
  readyState s sock = CONNECTING ->
  Opt.reconnect (options s) = true ->
  exhausted (set_reconnectAttempts (S (reconnectAttempts s)) s) = false ->
  Forall (fun l => l_run l (plain_event "timeout") = None) (listeners_of s "error") ->
  let s' := exec timeout_guard s in
  outcome timeout_guard s = Ok tt
  /\ log s' = log s ++ SocketClose sock
                       :: calls "error" (plain_event "timeout") (listeners_of s "error")
  /\ readyState s' sock = CLOSING
  /\ reconnectAttempts s' = S (reconnectAttempts s)
  /\ timers s'
     = cancel_armed s
       ++ [mkTimer (nextTimer s)
             (exponentialBackoff (options s) (S (reconnectAttempts s))) ReconnectTimer]
  /\ reconnectTimeout s' = Some (nextTimer s).
Proof.
  intros Hws Hflag Hst Hre Hex Hquiet s'.
  pose proof (readyState_in_range s sock CONNECTING Hst ltac:(discriminate)) as Hlt.
  set (s1 := set_readyState sock CLOSING (set_log (log s ++ [SocketClose sock]) s)).
  assert (Hclose : socket_close sock s = (s1, Ok tt)).
  { unfold socket_close. unfold_monad. simpl.
    replace (readyState (set_log (log s ++ [SocketClose sock]) s) sock)
      with (readyState s sock) by reflexivity.
    rewrite Hst. reflexivity. }
  destruct (emit_run "error" (plain_event "timeout") s1) as [L HL].
  replace (listeners_of s1 "error") with (listeners_of s "error") in HL by reflexivity.
  rewrite (invoked_all _ _ Hquiet) in HL. simpl in HL.
  assert (Hrun : timeout_guard s
                 = reconnect (set_reconnectAttempts (S (reconnectAttempts s))
                               (set_eventListeners L
                                  (set_log (log s1 ++ calls "error" (plain_event "timeout")
                                                        (listeners_of s "error")) s1)))).
  { unfold timeout_guard.
    unfold bind at 1, gets at 1. rewrite Hflag.
    unfold bind at 1, gets at 1. rewrite Hws.
    unfold bind at 1, gets at 1. rewrite Hst.
    rewrite bool_decide_eq_false_2 by discriminate.
    rewrite (bind_Ok _ _ _ _ _ Hclose), (bind_Ok _ _ _ _ _ HL).
    unfold bind at 1, gets at 1. simpl options. rewrite Hre.
    unfold when, modify. unfold bind at 1. reflexivity. }
  subst s'. unfold exec, outcome. rewrite Hrun.
  rewrite (reconnect_schedules _ sock).
  - simpl. unfold cancel_armed. simpl.
    split; [reflexivity|]. split; [rewrite <- app_assoc; reflexivity|].
    split; [|auto].
    unfold readyState. simpl. rewrite list_lookup_alter_eq.
    destruct (lookup_lt_is_Some_2 (sockets s) sock Hlt) as [k Hk]. rewrite Hk. reflexivity.
  - exact Hws.
  - exact Hex.
  - unfold readyState. simpl. rewrite list_lookup_alter_eq.
    destruct (lookup_lt_is_Some_2 (sockets s) sock Hlt) as [k Hk]. rewrite Hk. discriminate.
  - unfold readyState. simpl. rewrite list_lookup_alter_eq.
    destruct (lookup_lt_is_Some_2 (sockets s) sock Hlt) as [k Hk]. rewrite Hk. discriminate.
Qed.

(** A guard that fires when the transport has opened, or when no transport
    is held, does nothing at all. *)
Lemma timeout_guard_spares_open_transport (s : State) :
  (forall sock, ws s = Some sock -> readyState s sock = OPEN) ->
  timeout_guard s = (s, Ok tt).
Proof.
  intros Hopen. unfold timeout_guard. unfold_monad.
  destruct (isHandleClose s); [reflexivity|].
  destruct (ws s) as [sock|] eqn:Hws; [|reflexivity].
  rewrite (Hopen sock eq_refl). reflexivity.
Qed.

(** *** Connecting *)

Lemma bindEvents_new (s : State) (socks : list WebSocket) (k : WebSocket) :
  alter (fun k => mkWebSocket (sock_state k) true) (length socks) (socks ++ [k])
  = socks ++ [mkWebSocket (sock_state k) true].
Proof.
  rewrite alter_app_r_alt by lia. rewrite Nat.sub_diag. reflexivity.
Qed.

(** X4: [connect], when no transport is held, creates exactly one transport, in
    state [CONNECTING] and with the four handlers bound, takes it as the
    handle, and arms the timeout guard with delay [timeout], unless [timeout]
    is 0, in which case no timer is armed. *)
Theorem connect_creates_one_transport (s : State) :
  ws s = None ->
  let s' := exec connect s in
  outcome connect s = Ok tt
  /\ ws s' = Some (length (sockets s))
  /\ sockets s' = sockets s ++ [mkWebSocket CONNECTING true]
  /\ log s' = log s ++ [NewWebSocket (Opt.url (options s)) (length (sockets s))]
  /\ timers s'
     = timers s ++ (if Opt.timeout (options s) =? 0 then []
                    else [mkTimer (nextTimer s) (Opt.timeout (options s)) TimeoutGuard]).
Proof.
  intros Hws s'. subst s'. unfold exec, outcome, connect, bindEvents. unfold_monad.
  rewrite Hws. simpl. rewrite (bindEvents_new s).
  destruct (Opt.timeout (options s) =? 0); simpl;
    rewrite ?app_nil_r; repeat split; reflexivity.
Qed.

Lemma ws_closeHandler w e : preserves (fun s => ws s = w) (closeHandler e).
Proof. preserves_with frame_leaf. Qed.

(** X5: a transport [close] event never releases the handle: the closed socket
    stays in [ws], with or without [reconnect].  A [connect] call made after
    an unsolicited close therefore creates no transport and arms no timer;
    it only logs the "already connected or connecting" warning. *)
Theorem connect_is_refused_after_unsolicited_close (s : State) (sock : nat) (e : Event) :
  ws s = Some sock ->
  let s1 := exec (closeHandler e) s in
  ws s1 = Some sock
  /\ connect s1
     = (set_log (log s1 ++ [ConsoleWarn "WebSocket is already connected or connecting."]) s1,
        Ok tt).
Proof.
  intros Hws s1.
  assert (H1 : ws s1 = Some sock) by (apply (ws_closeHandler (Some sock) e s Hws)).
  split; [exact H1|].
  unfold connect. unfold_monad. rewrite H1. reflexivity.
Qed.

(** *** One failed retry *)

Lemma closeHandler_schedules s sock e :
  ws s = Some sock ->
  isHandleClose s = false ->
  Opt.reconnect (options s) = true ->
  exhausted s = false ->
  readyState s sock <> CONNECTING ->
  readyState s sock <> OPEN ->
  Forall (fun l => l_run l e = None) (listeners_of s "close") ->
  exists L,
    closeHandler e s
    = (set_reconnectTimeout (Some (nextTimer s))
         (set_nextTimer (S (nextTimer s))
            (set_timers
               (cancel_armed s
                ++ [mkTimer (nextTimer s)
                      (exponentialBackoff (options s) (reconnectAttempts s)) ReconnectTimer])
               (set_eventListeners L
                  (set_log (log s ++ calls "close" e (listeners_of s "close")) s)))),
       Ok tt).
Proof.
  intros Hws Hflag Hre Hex Hc Ho Hquiet.
  destruct (emit_run "close" e s) as [L HL].
  rewrite (invoked_all _ _ Hquiet) in HL. simpl in HL.
  exists L. unfold closeHandler. rewrite (bind_Ok _ _ _ _ _ HL).
  unfold bind at 1, gets at 1. unfold bind at 1, gets at 1. simpl.
  rewrite Hre, Hflag. simpl.
  rewrite (reconnect_schedules _ sock); try assumption. reflexivity.
Qed.

(** X6: when a connection is lost (the transport closed on its own, [reconnect]
    is on and attempts are left), the close handler arms one retry whose
    delay is the backoff at the current attempt count; when that timer fires
    it replaces the handle by a fresh transport in state [CONNECTING] and
    increments the attempt counter by one.  The old transport is left as it
    is. *)
Theorem lost_connection_is_retried_once (s : State) (sock : nat) (e : Event) :
  ws s = Some sock ->
  isHandleClose s = false ->
  Opt.reconnect (options s) = true ->
  exhausted s = false ->
  readyState s sock = CLOSED ->
  Forall (fun l => l_run l e = None) (listeners_of s "close") ->
  let s1 := exec (closeHandler e) s in
  let s2 := exec reconnect_timer s1 in
  timers s1
  = cancel_armed s
    ++ [mkTimer (nextTimer s) (exponentialBackoff (options s) (reconnectAttempts s))
          ReconnectTimer]
  /\ sockets s1 = sockets s
  /\ ws s2 = Some (length (sockets s))
  /\ sockets s2 = sockets s ++ [mkWebSocket CONNECTING true]
  /\ reconnectAttempts s2 = S (reconnectAttempts s).
Proof.
  intros Hws Hflag Hre Hex Hst Hquiet s1 s2.
  destruct (closeHandler_schedules s sock e Hws Hflag Hre Hex) as [L HL];
    try (rewrite Hst; discriminate); try exact Hquiet.
  subst s2 s1. unfold exec. rewrite HL. simpl.
  split; [reflexivity|]. split; [reflexivity|].
  unfold reconnect_timer, bindEvents. unfold_monad. simpl.
  rewrite (bindEvents_new s). auto.
Qed.

(** *** A successful open resets the backoff *)

Lemma attempts_emit n event e : preserves (fun s => reconnectAttempts s = n) (emit event e).
Proof. preserves_with frame_leaf. Qed.

Lemma attempts_sendNextMessage n index :
  preserves (fun s => reconnectAttempts s = n) (sendNextMessage index).
Proof. preserves_with frame_leaf. Qed.

Lemma openHandler_resets_attempts e s : reconnectAttempts (exec (openHandler e) s) = 0%nat.
Proof.
  unfold openHandler, sendCachedMessages, exec.
  assert (H : preserves (fun s => reconnectAttempts s = 0%nat)
                (emit "open" e >> sendNextMessage 0)).
  { apply preserves_bind; [apply attempts_emit | intros _; apply attempts_sendNextMessage]. }
  unfold bind at 1, gets at 1. unfold bind at 1.
  destruct (isHandleClose s); simpl; unfold bind at 1; simpl; apply H; reflexivity.
Qed.

(** What a handler that only emits, sends and resets its own fields leaves
    alone: the handle, the sockets and the listeners of another event. *)
Definition untouched (w : option nat) (socks : list WebSocket)
    (event : string) (ls : option (list SocketEventListener)) (s : State) : Prop :=
  ws s = w /\ sockets s = socks /\ eventListeners s !! event = ls.

Lemma untouched_emit w socks event ls other e :
  other <> event -> preserves (untouched w socks event ls) (emit other e).
Proof.
  intros Hne. unfold untouched. preserves_auto; simpl;
    rewrite ?lookup_insert_ne by exact Hne; assumption.
Qed.

Lemma untouched_sendNextMessage w socks event ls index :
  preserves (untouched w socks event ls) (sendNextMessage index).
Proof. unfold untouched. preserves_with frame_leaf. Qed.

Lemma untouched_openHandler w socks event ls e :
  "open" <> event -> preserves (untouched w socks event ls) (openHandler e).
Proof.
  intros Hne. unfold openHandler, sendCachedMessages.
  repeat preserves_step; try assumption;
    [apply untouched_emit; exact Hne | apply untouched_sendNextMessage].
Qed.

(** A turn is its step, up to the report of an exception in the log. *)
Lemma turn_is_step i s : exists l, turn i s = set_log l (exec (step i) s).
Proof.
  unfold turn, exec. destruct (step i s) as [s' [a|err]]; simpl.
  - exists (log s'). destruct s'; reflexivity.
  - eexists. reflexivity.
Qed.

Lemma is_bound_sockets s s' sock : sockets s' = sockets s -> is_bound s' sock = is_bound s sock.
Proof. unfold is_bound. intros ->. reflexivity. Qed.

Lemma is_bound_set_readyState k r s sock :
  is_bound (set_readyState k r s) sock = is_bound s sock.
Proof.
  unfold is_bound, set_readyState. simpl.
  destruct (decide (k = sock)) as [->|Hne].
  - rewrite list_lookup_alter_eq. destruct (sockets s !! sock); reflexivity.
  - rewrite list_lookup_alter_ne by exact Hne. reflexivity.
Qed.

(** X2: every [open] event of the transport held resets the attempt counter
    to 0, whatever it was and whether or not an [open] listener throws; when
    the [close] event of that transport is the next thing delivered (with
    [reconnect] on, a non-negative [reconnectMaxTimes] and [close] listeners
    that return), the retry timer that the close handler arms waits
    [min(reconnectInterval, reconnectMaxInterval)]. *)
Theorem open_resets_backoff (s : State) (sock : nat) :
  ws s = Some sock ->
  is_bound s sock = true ->
  Opt.reconnect (options s) = true ->
  0 <= Opt.reconnectMaxTimes (options s) ->
  Forall (fun l => l_run l (plain_event "close") = None) (listeners_of s "close") ->
  let s1 := turn (Transport_open sock) s in
  let s2 := turn (Transport_close sock) s1 in
  reconnectAttempts s1 = 0%nat
  /\ timers s2
     = cancel_armed s1
       ++ [mkTimer (nextTimer s1)
             (Z.min (Opt.reconnectInterval (options s)) (Opt.reconnectMaxInterval (options s)))
             ReconnectTimer]
  /\ reconnectTimeout s2 = Some (nextTimer s1).
Proof.
  intros Hws Hbound Hre Hmax Hquiet s1 s2.
  set (e := plain_event "open").
  set (s0 := set_readyState sock OPEN s).
  assert (Hstep : step (Transport_open sock) s = openHandler e s0).
  { simpl step. unfold bind at 1, gets at 1. rewrite Hbound. reflexivity. }
  destruct (turn_is_step (Transport_open sock) s) as [l Hl]. fold s1 in Hl.
  unfold exec in Hl. rewrite Hstep in Hl. fold (exec (openHandler e) s0) in Hl.
  assert (Hn : reconnectAttempts s1 = 0%nat).
  { rewrite Hl. apply (openHandler_resets_attempts e s0). }
  assert (Hflag : isHandleClose s1 = false).
  { rewrite Hl. apply (openHandler_clears_flag e s0). }
  assert (Hopt : options s1 = options s).
  { rewrite Hl. simpl.
    assert (H : preserves (fun s' => options s' = options s) (openHandler e))
      by (unfold openHandler; preserves_with frame_leaf).
    apply (H s0). reflexivity. }
  assert (Hkept : untouched (Some sock) (sockets s0) "close" (eventListeners s !! "close") s1).
  { rewrite Hl.
    apply (untouched_openHandler (Some sock) (sockets s0) "close"
             (eventListeners s !! "close") e ltac:(discriminate) s0).
    unfold untouched. auto. }
  destruct Hkept as (Hws1 & Hsocks1 & Hls1).
  assert (Hbound1 : is_bound s1 sock = true).
  { rewrite (is_bound_sockets s0 s1 sock Hsocks1). subst s0.
    rewrite is_bound_set_readyState. exact Hbound. }
  split; [exact Hn|].
  set (s1' := set_readyState sock CLOSED s1).
  pose proof (readyState_after_event s1 sock CLOSED Hbound1) as Hclosed. fold s1' in Hclosed.
  destruct (closeHandler_schedules s1' sock (plain_event "close")) as [L HL].
  - exact Hws1.
  - exact Hflag.
  - simpl. rewrite Hopt. exact Hre.
  - unfold exhausted. simpl. rewrite Hopt, Hn. simpl.
    destruct (Z.eqb_spec (Opt.reconnectMaxTimes (options s)) 0) as [Hz|Hz]; [reflexivity|].
    simpl. apply Z.leb_gt. lia.
  - rewrite Hclosed. discriminate.
  - rewrite Hclosed. discriminate.
  - unfold listeners_of in *. simpl. rewrite Hls1. exact Hquiet.
  - assert (Hs2 : s2 = fst (closeHandler (plain_event "close") s1')).
    { subst s2. unfold turn. simpl step. unfold bind at 1, gets at 1.
      rewrite Hbound1. unfold when. unfold bind at 1, modify at 1. fold s1'.
      rewrite HL. reflexivity. }
    rewrite Hs2, HL. simpl. unfold exponentialBackoff. rewrite Hopt, Hn.
    simpl. rewrite Z.mul_1_r. split; reflexivity.
Qed.

(** *** At most one retry timer *)

Global Instance TimerAction_eq_dec : EqDecision TimerAction.
Proof. solve_decision. Defined.

(** Timer ids are positive, below the next id and pairwise distinct, and an
    armed retry timer is the one recorded in [reconnectTimeout]. *)
Definition timers_wf (s : State) : Prop :=
  (1 <= nextTimer s)%nat
  /\ Forall (fun t => (1 <= t_id t < nextTimer s)%nat) (timers s)
  /\ NoDup (t_id <$> timers s)
  /\ Forall (fun t => t_action t = ReconnectTimer -> reconnectTimeout s = Some (t_id t))
       (timers s).

Lemma wf_setTimeout action delay :
  action <> ReconnectTimer -> preserves timers_wf (setTimeout action delay).
Proof.
  intros Hact s (Hnext & Hids & Hnodup & Hrec). unfold setTimeout. unfold_monad. simpl.
  unfold timers_wf. simpl. split; [lia|]. split; [|split].
  - apply Forall_app. split.
    + eapply Forall_impl; [exact Hids|]. simpl. intros t Ht. lia.
    + constructor; [simpl; lia | constructor].
  - rewrite fmap_app. simpl. apply NoDup_app. split; [exact Hnodup|]. split.
    + intros x Hx Hx'. apply list_elem_of_singleton in Hx'. subst x.
      apply list_elem_of_fmap in Hx as (t & Heq & Ht).
      rewrite Forall_forall in Hids. specialize (Hids t Ht). lia.
    + apply NoDup_singleton.
  - apply Forall_app. split; [exact Hrec|].
    constructor; [simpl; congruence | constructor].
Qed.

Lemma wf_filter (Q : Timer -> Prop) `{!forall t, Decision (Q t)} s :
  timers_wf s -> timers_wf (set_timers (filter Q (timers s)) s).
Proof.
  intros (Hnext & Hids & Hnodup & Hrec). unfold timers_wf. simpl.
  split; [exact Hnext|]. split; [|split].
  - apply Forall_forall. intros t Ht. apply list_elem_of_filter in Ht as [_ Ht].
    rewrite Forall_forall in Hids. auto.
  - eapply sublist_NoDup; [exact Hnodup|]. apply fmap_sublist, sublist_filter.
  - apply Forall_forall. intros t Ht. apply list_elem_of_filter in Ht as [_ Ht].
    rewrite Forall_forall in Hrec. auto.
Qed.

Lemma wf_clearTimeout id : preserves timers_wf (clearTimeout id).
Proof. intros s H. unfold clearTimeout, modify. simpl. apply wf_filter, H. Qed.

Lemma cancel_armed_no_retry s :
  timers_wf s -> Forall (fun t => t_action t <> ReconnectTimer) (cancel_armed s).
Proof.
  intros (Hnext & Hids & Hnodup & Hrec). unfold cancel_armed.
  rewrite Forall_forall in Hids, Hrec.
  destruct (reconnectTimeout s) as [[|id]|] eqn:Harmed; apply Forall_forall.
  - intros t Ht Hact. specialize (Hids t Ht). specialize (Hrec t Ht Hact).
    inversion Hrec. lia.
  - intros t Ht Hact. apply list_elem_of_filter in Ht as [Hne Ht].
    specialize (Hrec t Ht Hact). inversion Hrec. congruence.
  - intros t Ht Hact. specialize (Hrec t Ht Hact). discriminate.
Qed.

Lemma wf_cancel_armed s : timers_wf s -> timers_wf (set_timers (cancel_armed s) s).
Proof.
  intros H. unfold cancel_armed.
  destruct (reconnectTimeout s) as [[|id]|]; try (destruct s; exact H).
  apply wf_filter, H.
Qed.

Lemma wf_reconnect : preserves timers_wf reconnect.
Proof.
  intros s H. destruct (ws s) as [sock|] eqn:Hws.
  - destruct (exhausted s) eqn:Hex.
    + rewrite (reconnect_exhausted s sock Hws Hex). exact H.
    + destruct (decide (readyState s sock = CONNECTING \/ readyState s sock = OPEN))
        as [Hst|Hst].
      * rewrite (reconnect_skips s sock Hws Hex Hst). apply wf_cancel_armed, H.
      * rewrite (reconnect_schedules s sock Hws Hex) by tauto. simpl.
        pose proof (cancel_armed_no_retry s H) as Hnone.
        pose proof (wf_cancel_armed s H) as (Hnext & Hids & Hnodup & _).
        simpl in *. unfold timers_wf. simpl. split; [lia|]. split; [|split].
        -- apply Forall_app. split.
           ++ eapply Forall_impl; [exact Hids|]. simpl. intros t Ht. lia.
           ++ constructor; [simpl; lia | constructor].
        -- rewrite fmap_app. simpl. apply NoDup_app. split; [exact Hnodup|]. split.
           ++ intros x Hx Hx'. apply list_elem_of_singleton in Hx'. subst x.
              apply list_elem_of_fmap in Hx as (t & Heq & Ht).
              rewrite Forall_forall in Hids. specialize (Hids t Ht). lia.
           ++ apply NoDup_singleton.
        -- apply Forall_app. split.
           ++ eapply Forall_impl; [exact Hnone|]. simpl. intros t Ht Hact. contradiction.
           ++ constructor; [reflexivity | constructor].
  - unfold reconnect. unfold_monad. rewrite Hws. exact H.
Qed.

Ltac wf_leaf :=
  idtac;
  lazymatch goal with
  | |- preserves _ reconnect => apply wf_reconnect
  | |- preserves _ (setTimeout _ _) => apply wf_setTimeout; discriminate
  | |- preserves _ (clearTimeout _) => apply wf_clearTimeout
  | |- _ => frame_leaf
  end.

Lemma wf_step i : preserves timers_wf (step i).
Proof. destruct i; simpl; preserves_with wf_leaf. Qed.

Lemma wf_initial o : timers_wf (initial o).
Proof.
  unfold timers_wf. simpl. split; [lia|]. split; [constructor|].
  split; constructor.
Qed.

Lemma filter_none {A} (Q : A -> Prop) `{!forall x, Decision (Q x)} (l : list A) :
  Forall (fun x => ~ Q x) l -> filter Q l = [].
Proof.
  induction 1 as [|x rest Hx _ IH]; [reflexivity|].
  rewrite filter_cons_False by exact Hx. exact IH.
Qed.

Lemma same_ids_nodup_short (ids : list nat) (x : nat) :
  NoDup ids -> Forall (fun y => y = x) ids -> (length ids <= 1)%nat.
Proof.
  intros Hnodup Hall. destruct ids as [|a [|b rest]]; simpl; try lia.
  inversion Hall as [|? ? Ha Hall']; subst. inversion Hall' as [|? ? Hb _]; subst.
  inversion Hnodup as [|? ? Hnotin _]; subst. exfalso. apply Hnotin. left.
Qed.

(** X7: in every state reached from a fresh controller, whatever the calls,
    transport events and timers, at most one retry timer is armed, its id is
    the one held in [reconnectTimeout], and no two armed timers share an
    id. *)
Theorem at_most_one_retry_timer (o : Options) (inputs : list Input) :
  let s := run inputs (initial o) in
  (length (filter (fun t => t_action t = ReconnectTimer) (timers s)) <= 1)%nat
  /\ Forall (fun t => t_action t = ReconnectTimer -> reconnectTimeout s = Some (t_id t))
       (timers s)
  /\ NoDup (t_id <$> timers s).
Proof.
  intros s.
  assert (Hwf : timers_wf s).
  { apply (preserves_run timers_wf).
    - intros s' err H. exact H.
    - intros i _. apply wf_step.
    - apply wf_initial. }
  destruct Hwf as (Hnext & Hids & Hnodup & Hrec).
  split; [|split; assumption].
  destruct (reconnectTimeout s) as [x|] eqn:Harmed.
  - rewrite <- (length_fmap t_id).
    apply (same_ids_nodup_short _ x).
    + eapply sublist_NoDup; [exact Hnodup|]. apply fmap_sublist, sublist_filter.
    + apply Forall_fmap, Forall_forall. intros t Ht.
      apply list_elem_of_filter in Ht as [Hact Ht].
      rewrite Forall_forall in Hrec. specialize (Hrec t Ht Hact). simpl. congruence.
  - assert (Hnil : filter (fun t => t_action t = ReconnectTimer) (timers s) = []).
    { apply filter_none. apply Forall_forall. intros t Ht Hact.
      rewrite Forall_forall in Hrec. specialize (Hrec t Ht Hact). discriminate. }
    rewrite Hnil. simpl. lia.
Qed.

(** *** Nothing is sent before a transport opens *)

Definition is_send (ef : Effect) : Prop :=
  match ef with SocketSend _ _ => True | _ => False end.

Definition never_opened (s : State) : Prop :=
  Forall (fun k => sock_state k <> OPEN) (sockets s)
  /\ Forall (fun ef => ~ is_send ef) (log s).

Lemma never_opened_readyState s sock : never_opened s -> readyState s sock <> OPEN.
Proof.
  intros [Hsocks _]. unfold readyState.
  destruct (sockets s !! sock) as [k|] eqn:Hk; simpl; [|discriminate].
  rewrite Forall_forall in Hsocks. apply Hsocks. eapply list_elem_of_lookup_2, Hk.
Qed.

Lemma quiet_emit_effect ef : ~ is_send ef -> preserves never_opened (emit_effect ef).
Proof.
  intros Hef s [Hsocks Hlog]. split; [exact Hsocks|]. simpl.
  apply Forall_app. split; [exact Hlog | constructor; [exact Hef | constructor]].
Qed.

Lemma quiet_alter (f : WebSocket -> WebSocket) sock s :
  (forall k, sock_state k <> OPEN -> sock_state (f k) <> OPEN) ->
  never_opened s -> never_opened (set_sockets (alter f sock (sockets s)) s).
Proof.
  intros Hf [Hsocks Hlog]. split; [|exact Hlog]. simpl.
  apply Forall_forall. intros k Hk.
  apply list_elem_of_lookup_1 in Hk as [i Hi].
  rewrite Forall_forall in Hsocks.
  destruct (decide (i = sock)) as [->|Hne].
  - rewrite list_lookup_alter_eq in Hi.
    destruct (sockets s !! sock) as [k0|] eqn:Hk0; simpl in Hi; [|discriminate].
    inversion Hi; subst. apply Hf, Hsocks. eapply list_elem_of_lookup_2, Hk0.
  - rewrite list_lookup_alter_ne in Hi by congruence.
    apply Hsocks. eapply list_elem_of_lookup_2, Hi.
Qed.

Lemma quiet_set_readyState sock r s :
  r <> OPEN -> never_opened s -> never_opened (set_readyState sock r s).
Proof. intros Hr. apply quiet_alter. intros k _. exact Hr. Qed.

Lemma quiet_socket_close sock : preserves never_opened (socket_close sock).
Proof.
  unfold socket_close. apply preserves_bind; [apply quiet_emit_effect; simpl; tauto|].
  intros _. apply preserves_modify. intros s H.
  destruct (readyState s sock); try exact H;
    (apply quiet_set_readyState; [discriminate | exact H]).
Qed.

Lemma quiet_new_WebSocket u : preserves never_opened (new_WebSocket u).
Proof.
  unfold new_WebSocket. repeat preserves_step.
  - destruct H as [Hsocks Hlog]. split; [|exact Hlog]. simpl.
    apply Forall_app. split; [exact Hsocks | constructor; [discriminate | constructor]].
  - apply quiet_emit_effect. simpl. tauto.
Qed.

Lemma quiet_bindEvents : preserves never_opened bindEvents.
Proof.
  unfold bindEvents. repeat preserves_step.
  apply quiet_alter; [|assumption]. intros k Hk. exact Hk.
Qed.

Lemma quiet_report cb : preserves never_opened (not_connected_report cb).
Proof.
  intros s H. unfold not_connected_report. destruct cb as [c|]; [|exact H]. simpl.
  apply (quiet_emit_effect (CallbackCall (cb_ref c) (Some NotConnected) JNull)); [|exact H].
  simpl. tauto.
Qed.

Lemma quiet_sendMessage d cb : preserves never_opened (sendMessage d cb).
Proof.
  intros s H. destruct (ws s) as [sock|] eqn:Hws.
  - rewrite (sendMessage_not_open s sock d cb Hws (never_opened_readyState s sock H)).
    apply quiet_report, H.
  - rewrite (sendMessage_no_transport s d cb Hws). apply quiet_report.
    destruct (Opt.cacheMessage (options s)); exact H.
Qed.

Ltac quiet_leaf :=
  idtac;
  lazymatch goal with
  | |- preserves _ (sendMessage _ _) => apply quiet_sendMessage
  | |- preserves _ (socket_close _) => apply quiet_socket_close
  | |- preserves _ (new_WebSocket _) => apply quiet_new_WebSocket
  | |- preserves _ bindEvents => apply quiet_bindEvents
  | |- preserves _ (emit_effect _) => apply quiet_emit_effect; simpl; tauto
  | |- never_opened (set_readyState _ _ _) =>
      apply quiet_set_readyState; [discriminate | assumption]
  | |- _ => frame_leaf
  end.

Lemma quiet_step i :
  (forall sock, i <> Transport_open sock) -> preserves never_opened (step i).
Proof.
  intros Hopen. destruct i; simpl; try (exfalso; apply (Hopen sock); reflexivity);
    preserves_with quiet_leaf.
Qed.

(** X8: as long as no transport [open] event has been delivered, no frame is
    handed to any transport: every [sendMessage] made in the meantime, and
    every replay step, ends in the "not connected" branch. *)
Theorem nothing_is_sent_before_open (o : Options) (inputs : list Input) :
  Forall (fun i => forall sock, i <> Transport_open sock) inputs ->
  forall sock msg, SocketSend sock msg ∉ log (run inputs (initial o)).
Proof.
  intros Hall sock msg Hin.
  assert (H : never_opened (run inputs (initial o))).
  { apply (preserves_run never_opened).
    - intros s err [Hsocks Hlog]. split; [exact Hsocks|]. simpl.
      apply Forall_app. split; [exact Hlog | constructor; [|constructor]].
      simpl. intros Hf. exact Hf.
    - intros i Hi. apply quiet_step. rewrite Forall_forall in Hall.
      apply Hall. apply list_elem_of_In. exact Hi.
    - split; constructor. }
  destruct H as [_ Hlog]. rewrite Forall_forall in Hlog.
  apply (Hlog _ Hin). exact I.
Qed.

(** *** A closed controller stays closed *)

Definition stays_closed (n : nat) (s : State) : Prop :=
  ws s = None
  /\ length (sockets s) = n
  /\ Forall (fun t => t_action t <> ReconnectTimer) (timers s).

Lemma closed_reconnect n : preserves (stays_closed n) reconnect.
Proof.
  intros s H. unfold reconnect. unfold_monad. destruct H as (Hws & Hrest). rewrite Hws.
  simpl. split; [exact Hws | exact Hrest].
Qed.

Lemma closed_setTimeout n action delay :
  action <> ReconnectTimer -> preserves (stays_closed n) (setTimeout action delay).
Proof.
  intros Hact s (Hws & Hlen & Htimers). unfold setTimeout. unfold_monad. simpl.
  split; [exact Hws|]. split; [exact Hlen|]. simpl.
  apply Forall_app. split; [exact Htimers | constructor; [exact Hact | constructor]].
Qed.

Lemma closed_clearTimeout n id : preserves (stays_closed n) (clearTimeout id).
Proof.
  intros s (Hws & Hlen & Htimers). unfold clearTimeout, modify. simpl.
  split; [exact Hws|]. split; [exact Hlen|]. simpl.
  apply Forall_forall. intros t Ht. apply list_elem_of_filter in Ht as [_ Ht].
  rewrite Forall_forall in Htimers. auto.
Qed.

Lemma closed_set_readyState n sock r s :
  stays_closed n s -> stays_closed n (set_readyState sock r s).
Proof.
  intros (Hws & Hlen & Htimers). split; [exact Hws|]. split; [|exact Htimers].
  simpl. rewrite length_alter. exact Hlen.
Qed.

Lemma closed_socket_close n sock : preserves (stays_closed n) (socket_close sock).
Proof.
  unfold socket_close. repeat preserves_step.
  - unfold emit_effect. apply preserves_modify. intros s H. exact H.
  - destruct (readyState _ sock); try assumption;
      (apply closed_set_readyState; assumption).
Qed.

Ltac closed_leaf :=
  idtac;
  lazymatch goal with
  | |- preserves _ reconnect => apply closed_reconnect
  | |- preserves _ (setTimeout _ _) => apply closed_setTimeout; discriminate
  | |- preserves _ (clearTimeout _) => apply closed_clearTimeout
  | |- preserves _ (socket_close _) => apply closed_socket_close
  | |- stays_closed _ (set_readyState _ _ _) => apply closed_set_readyState; assumption
  | H : stays_closed _ _ |- stays_closed _ (set_ws None _) =>
      destruct H as (? & ? & ?); split; [reflexivity | split; assumption]
  | |- _ => frame_leaf
  end.

Lemma closed_step n i :
  i <> Call_connect -> preserves (stays_closed n) (step i).
Proof.
  intros Hconnect. destruct i; try congruence; simpl;
    try solve [preserves_with closed_leaf].
  (* a timer fires: by the invariant it is not a retry timer *)
  intros s H. unfold bind at 1, gets at 1.
  destruct (filter (fun t => t_id t = id) (timers s)) as [|t others] eqn:Harmed; [exact H|].
  assert (Hact : t_action t <> ReconnectTimer).
  { destruct H as (_ & _ & Htimers). rewrite Forall_forall in Htimers. apply Htimers.
    assert (Hin : t ∈ filter (fun t => t_id t = id) (timers s)) by (rewrite Harmed; left).
    apply list_elem_of_filter in Hin as [_ Hin]. exact Hin. }
  revert s H Harmed.
  change (preserves (stays_closed n) (clearTimeout id >> run_timer (t_action t))) with
    (forall s, stays_closed n s -> stays_closed n (fst ((clearTimeout id >> run_timer (t_action t)) s))).
  intros s H _.
  assert (Hp : preserves (stays_closed n) (clearTimeout id >> run_timer (t_action t))).
  { destruct (t_action t) eqn:Ht; try congruence; simpl; preserves_with closed_leaf. }
  apply Hp, H.
Qed.

(** X9: once no transport is held and no retry timer is armed (as after [close]
    or [destroy] on a controller that was not waiting to retry), the
    controller never holds a transport again and creates no socket, whatever
    transport events, timers and calls follow, until [connect] is called. *)
Theorem closed_controller_stays_closed (s : State) (inputs : list Input) :
  ws s = None ->
  Forall (fun t => t_action t <> ReconnectTimer) (timers s) ->
  Forall (fun i => i <> Call_connect) inputs ->
  ws (run inputs s) = None
  /\ length (sockets (run inputs s)) = length (sockets s).
Proof.
  intros Hws Htimers Hall.
  assert (H : stays_closed (length (sockets s)) (run inputs s)).
  { apply (preserves_run (stays_closed (length (sockets s)))).
    - intros s' err H. exact H.
    - intros i Hi. apply closed_step. rewrite Forall_forall in Hall.
      apply Hall. apply list_elem_of_In. exact Hi.
    - split; [exact Hws | split; [reflexivity | exact Htimers]]. }
  destruct H as (H1 & H2 & _). split; assumption.
Qed.

(** *** Inbound messages *)

(** The key under which an inbound frame is looked up in the pending table,
    if it has one: the frame must parse to a value other than [null] on
    which the correlation field, own or inherited, reads as a truthy value. *)
Definition correlation_of (o : Options) (parsed : option json) : option string :=
  match parsed with
  | None | Some JNull => None
  | Some data =>
      match get_property data (Opt.uniqueKey o) with
      | Some v => if truthy v then Some (to_property_key v) else None
      | None => None
      end
  end.

Lemma emit_frame event e s :
  let s1 := exec (emit event e) s in
  options s1 = options s /\ sendMessageQueue s1 = sendMessageQueue s
  /\ ws s1 = ws s /\ sockets s1 = sockets s /\ messageCache s1 = messageCache s
  /\ timers s1 = timers s
  /\ log s1 = log s ++ calls event e (fst (invoked e (listeners_of s event))).
Proof.
  unfold exec. destruct (emit_run event e s) as [L HL]. rewrite HL. simpl. auto 10.
Qed.

Lemma try_catch_console_error_returns m s :
  snd (try_catch m console_error s) = Ok tt.
Proof.
  unfold try_catch. destruct (m s) as [s' [[]|err]]; reflexivity.
Qed.

(** X10: the message handler throws only what a [message] listener throws: the
    correlation step never lets an exception out, whether the frame is
    unparseable, is [null], names an unknown key, or the resolved callback
    itself throws. *)
Theorem messageHandler_throws_only_listener_errors (e : Event) (s : State) :
  outcome (messageHandler e) s = outcome (emit "message" e) s.
Proof.
  unfold outcome, messageHandler, bind.
  destruct (emit "message" e s) as [s1 [[]|err]]; simpl; [|reflexivity].
  apply try_catch_console_error_returns.
Qed.

(** X11: an inbound frame from which no truthy correlation key is read (it
    does not parse, it is [null], or the read of the correlation field, own
    or inherited, yields [undefined] or a falsy value such as 0 or the empty
    string) resolves nothing: the [message] listeners are called, the
    pending table is unchanged and no callback is invoked; when the
    listeners have returned, the only further trace is a console error for a
    frame that does not parse or is [null]; when one of them throws, the
    handler ends with that exception. *)
Theorem uncorrelated_message_resolves_nothing (e : Event) (s : State) :
  correlation_of (options s) (JSON_parse (ev_data e)) = None ->
  let s1 := exec (emit "message" e) s in
  messageHandler e s
  = match outcome (emit "message" e) s with
    | Throw thrown => (s1, Throw thrown)
    | Ok _ =>
        (match JSON_parse (ev_data e) with
         | None => set_log (log s1 ++ [ConsoleError SyntaxError]) s1
         | Some JNull => set_log (log s1 ++ [ConsoleError TypeError]) s1
         | Some _ => s1
         end,
         Ok tt)
    end
  /\ log s1 = log s ++ calls "message" e (fst (invoked e (listeners_of s "message")))
  /\ sendMessageQueue (exec (messageHandler e) s) = sendMessageQueue s.
Proof.
  intros Hcorr s1.
  destruct (emit_keeps "message" e s) as (Hopt & Hq & _ & _ & Hlog).
  fold s1 in Hopt, Hq, Hlog.
  assert (Hrun : messageHandler e s
                 = match outcome (emit "message" e) s with
                   | Throw thrown => (s1, Throw thrown)
                   | Ok _ =>
                       (match JSON_parse (ev_data e) with
                        | None => set_log (log s1 ++ [ConsoleError SyntaxError]) s1
                        | Some JNull => set_log (log s1 ++ [ConsoleError TypeError]) s1
                        | Some _ => s1
                        end,
                        Ok tt)
                   end).
  { destruct (outcome (emit "message" e) s) as [[]|thrown] eqn:Hemit.
    - unfold messageHandler. rewrite (emit_Ok_bind _ _ _ _ Hemit). fold s1.
      unfold correlation_of in Hcorr.
      destruct (JSON_parse (ev_data e)) as [data|]; [|reflexivity].
      unfold_monad. rewrite Hopt.
      destruct data; try reflexivity; simpl;
        (destruct (get_property _ _) as [v|]; [|reflexivity]);
        (destruct (truthy v); [discriminate | reflexivity]).
    - unfold messageHandler. apply (emit_Throw_bind _ _ _ _ _ Hemit). }
  split; [exact Hrun|]. split; [exact Hlog|].
  unfold exec. rewrite Hrun.
  destruct (outcome (emit "message" e) s) as [[]|thrown]; simpl; [|exact Hq].
  destruct (JSON_parse (ev_data e)) as [[]|]; exact Hq.
Qed.

Lemma messageHandler_resolves s e fields v item cb :
  outcome (emit "message" e) s = Ok tt ->
  JSON_parse (ev_data e) = Some (JObject fields) ->
  fields !! Opt.uniqueKey (options s) = Some v ->
  truthy v = true ->
  sendMessageQueue s !! to_property_key v = Some item ->
  callback item = Some cb ->
  let s1 := exec (emit "message" e) s in
  let err := if transport_open s then None else Some ConnectionNotOpen in
  let d := if transport_open s then JObject fields else JNull in
  cb_run cb err d = None ->
  messageHandler e s
  = (set_sendMessageQueue (delete (to_property_key v) (sendMessageQueue s))
       (set_log (log s1 ++ [CallbackCall (cb_ref cb) err d]) s1),
     Ok tt).
Proof.
  intros Hemit Hparse Hfield Htruthy Hitem Hcb s1 err d Hrun.
  destruct (emit_frame "message" e s) as (Hopt & Hq & Hws & Hsocks & _).
  fold s1 in Hopt, Hq, Hws, Hsocks.
  rewrite (messageHandler_lookup s e (JObject fields) v Hemit Hparse
             ltac:(discriminate) (get_property_own _ _ _ Hfield) Htruthy).
  fold s1. unfold resolve_pending.
  unfold_monad. rewrite Hq, Hitem, Hcb.
  subst err d. unfold transport_open in *. rewrite Hws.
  destruct (ws s) as [sock|]; simpl in *.
  - unfold readyState in *. rewrite Hsocks.
    destruct (default CLOSED (sock_state <$> sockets s !! sock)); simpl in *;
      rewrite Hrun; simpl; rewrite ?Hq; reflexivity.
  - rewrite Hrun. simpl. rewrite Hq. reflexivity.
Qed.

Lemma request_then_response
    (s : State) (sock : nat) (fields reply : gmap string jsval)
    (cb : MessageCallback) (e : Event) :
  ws s = Some sock ->
  readyState s sock = OPEN ->
  let key := key_source (keysDrawn s) in
  let s1 := exec (sendMessage (PObject fields) (Some cb)) s in
  JSON_parse (ev_data e) = Some (JObject reply) ->
  reply !! Opt.uniqueKey (options s) = Some (VStr key) ->
  key <> EmptyString ->
  Forall (fun l => l_run l e = None) (listeners_of s "message") ->
  cb_run cb None (JObject reply) = None ->
  let s2 := exec (messageHandler e) s1 in
  sendMessageQueue s1 !! key = Some (mkQueueItem
    (JSON_stringify
       (Object_assign (Object_assign ∅ {[Opt.uniqueKey (options s) := VStr key]}) fields))
    (Some cb))
  /\ log s2 = log s1 ++ calls "message" e (listeners_of s "message")
                     ++ [CallbackCall (cb_ref cb) None (JObject reply)]
  /\ sendMessageQueue s2 = delete key (sendMessageQueue s)
  /\ outcome (messageHandler e) s1 = Ok tt.
Proof.
  intros Hws Hst key s1 Hparse Hreply Hkey Hquiet Hcb s2.
  assert (Hs1 : s1 = set_log (log s ++ [SocketSend sock
                        (JSON_stringify
                           (Object_assign
                              (Object_assign ∅ {[Opt.uniqueKey (options s) := VStr key]})
                              fields))])
                      (set_sendMessageQueue
                         (<[key := mkQueueItem
                              (JSON_stringify
                                 (Object_assign
                                    (Object_assign ∅ {[Opt.uniqueKey (options s) := VStr key]})
                                    fields)) (Some cb)]> (sendMessageQueue s))
                         (set_keysDrawn (S (keysDrawn s)) s))).
  { subst s1. unfold exec. rewrite (sendMessage_open_object s sock fields (Some cb) Hws Hst).
    reflexivity. }
  assert (Hlisteners : listeners_of s1 "message" = listeners_of s "message")
    by (rewrite Hs1; reflexivity).
  assert (Hemit : outcome (emit "message" e) s1 = Ok tt).
  { unfold outcome. destruct (emit_run "message" e s1) as [L HL]. rewrite HL. simpl.
    rewrite Hlisteners, (invoked_all _ _ Hquiet). reflexivity. }
  assert (Hopen : transport_open s1 = true).
  { rewrite Hs1. unfold transport_open. simpl. rewrite Hws.
    apply bool_decide_eq_true_2. exact Hst. }
  assert (Htruthy : truthy (VStr key) = true).
  { simpl. destruct (String.eqb_spec key EmptyString); [contradiction | reflexivity]. }
  assert (Hitem : sendMessageQueue s1 !! to_property_key (VStr key)
                  = Some (mkQueueItem
                            (JSON_stringify
                               (Object_assign
                                  (Object_assign ∅ {[Opt.uniqueKey (options s) := VStr key]})
                                  fields)) (Some cb))).
  { rewrite Hs1. simpl. apply lookup_insert_eq. }
  pose proof (messageHandler_resolves s1 e reply (VStr key) _ cb Hemit Hparse
                ltac:(rewrite Hs1; exact Hreply) Htruthy Hitem eq_refl) as Hres.
  cbv zeta in Hres. rewrite Hopen in Hres. specialize (Hres Hcb).
  split; [exact Hitem|].
  subst s2. unfold exec, outcome. rewrite Hres. simpl.
  destruct (emit_frame "message" e s1) as (_ & _ & _ & _ & _ & _ & Hlog).
  rewrite Hlog, Hlisteners, (invoked_all _ _ Hquiet). simpl.
  split; [rewrite <- app_assoc; reflexivity|]. split; [|reflexivity].
  rewrite Hs1. simpl. apply delete_insert_eq.
Qed.

(** X12: request and response: after an object payload is sent with a callback on
    an open transport, a frame that carries the key generated for it (and
    nothing thrown by listeners or by the callback) invokes that callback
    exactly once with the parsed response and no failure, and the key is no
    longer pending. *)
Theorem response_resolves_request
    (s : State) (sock : nat) (fields reply : gmap string jsval)
    (cb : MessageCallback) (e : Event) :
  ws s = Some sock ->
  readyState s sock = OPEN ->
  let key := key_source (keysDrawn s) in
  let s1 := exec (sendMessage (PObject fields) (Some cb)) s in
  JSON_parse (ev_data e) = Some (JObject reply) ->
  reply !! Opt.uniqueKey (options s) = Some (VStr key) ->
  key <> EmptyString ->
  Forall (fun l => l_run l e = None) (listeners_of s "message") ->
  cb_run cb None (JObject reply) = None ->
  let s2 := exec (messageHandler e) s1 in
  sendMessageQueue s1 !! key = Some (mkQueueItem
    (JSON_stringify
       (Object_assign (Object_assign ∅ {[Opt.uniqueKey (options s) := VStr key]}) fields))
    (Some cb))
  /\ log s2 = log s1 ++ calls "message" e (listeners_of s "message")
                     ++ [CallbackCall (cb_ref cb) None (JObject reply)]
  /\ sendMessageQueue s2 = delete key (sendMessageQueue s)
  /\ outcome (messageHandler e) s1 = Ok tt.
Proof. apply request_then_response. Qed.

(** X13: [close] leaves the handlers bound to the socket it closes, so a
    response frame may still arrive on it.  Such a frame (with [message]
    listeners and a callback that return) still resolves its pending
    request, but as a failure: the handle is gone, so the callback receives
    "websocket connection is not open" and no payload, once, after the
    listeners have run, and the entry is removed. *)
Theorem response_after_close_fails_request
    (s : State) (sock : nat) (frame : string) (fields : gmap string jsval) (v : jsval)
    (item : sendMessageQueueItem) (cb : MessageCallback) :
  ws s = Some sock ->
  is_bound s sock = true ->
  JSON_parse frame = Some (JObject fields) ->
  fields !! Opt.uniqueKey (options s) = Some v ->
  truthy v = true ->
  sendMessageQueue s !! to_property_key v = Some item ->
  callback item = Some cb ->
  let e := mkEvent "message" frame in
  Forall (fun l => l_run l e = None) (listeners_of s "message") ->
  cb_run cb (Some ConnectionNotOpen) JNull = None ->
  let s1 := exec close s in
  let s2 := exec (step (Transport_message sock frame)) s1 in
  outcome (step (Transport_message sock frame)) s1 = Ok tt
  /\ log s2 = log s1 ++ calls "message" e (listeners_of s "message")
                     ++ [CallbackCall (cb_ref cb) (Some ConnectionNotOpen) JNull]
  /\ sendMessageQueue s2 = delete (to_property_key v) (sendMessageQueue s)
  /\ ws s2 = None.
Proof.
  intros Hws Hbound Hparse Hfield Htruthy Hitem Hcb e Hquiet Hrun s1 s2.
  assert (Hclose : s1 = set_ws None (exec (socket_close sock) (set_isHandleClose true s))).
  { subst s1. unfold exec. rewrite close_run, Hws. reflexivity. }
  assert (Hfields : options s1 = options s /\ sendMessageQueue s1 = sendMessageQueue s
                    /\ eventListeners s1 = eventListeners s /\ ws s1 = None
                    /\ is_bound s1 sock = true).
  { rewrite Hclose. unfold exec, socket_close. unfold_monad. simpl.
    change (readyState (set_log (log s ++ [SocketClose sock]) (set_isHandleClose true s)) sock)
      with (readyState s sock).
    destruct (readyState s sock); simpl; repeat split; try reflexivity;
      try exact Hbound;
      match goal with
      | |- is_bound (set_ws None (set_readyState ?k ?r ?s') ) sock = true =>
          change (is_bound (set_readyState k r s') sock = true);
          rewrite is_bound_set_readyState; exact Hbound
      end. }
  destruct Hfields as (Hopt & Hq & Hl & Hws1 & Hbound1).
  assert (Hls : listeners_of s1 "message" = listeners_of s "message")
    by (unfold listeners_of; rewrite Hl; reflexivity).
  assert (Hstep : step (Transport_message sock frame) s1 = messageHandler e s1).
  { simpl step. unfold bind at 1, gets at 1. rewrite Hbound1. reflexivity. }
  assert (Hout : outcome (emit "message" e) s1 = Ok tt).
  { unfold outcome. destruct (emit_run "message" e s1) as [L HL]. rewrite HL. simpl.
    rewrite Hls, (invoked_all _ _ Hquiet). reflexivity. }
  assert (Hopen : transport_open s1 = false) by (unfold transport_open; rewrite Hws1; reflexivity).
  pose proof (messageHandler_resolves s1 e fields v item cb Hout Hparse
                ltac:(rewrite Hopt; exact Hfield) Htruthy
                ltac:(rewrite Hq; exact Hitem) Hcb) as Hres.
  cbv zeta in Hres. rewrite Hopen in Hres. specialize (Hres Hrun).
  destruct (emit_frame "message" e s1) as (_ & _ & Hws2 & _ & _ & _ & Hlog).
  rewrite Hls, (invoked_all _ _ Hquiet) in Hlog. simpl in Hlog.
  subst s2. unfold exec, outcome. rewrite Hstep, Hres. simpl.
  rewrite Hlog, Hq, Hws2, Hws1, <- app_assoc. auto.
Qed.

(** *** Sending: validation, and what is cached *)

(** X14: while a transport handle is held but is not open (still connecting,
    closing, or closed and waiting for a retry), [sendMessage] neither sends
    nor caches, even with [cacheMessage] enabled, and does not look at the
    payload type: its only effect is the "not connected" report to the
    callback.  The payload is lost. *)
Theorem send_while_handle_not_open_is_dropped
    (s : State) (sock : nat) (d : payload) (cb : option MessageCallback) :
  ws s = Some sock ->
  readyState s sock <> OPEN ->
  sendMessage d cb s = not_connected_report cb s
  /\ messageCache (exec (sendMessage d cb) s) = messageCache s
  /\ sendMessageQueue (exec (sendMessage d cb) s) = sendMessageQueue s.
Proof.
  intros Hws Hst. pose proof (sendMessage_not_open s sock d cb Hws Hst) as Hrun.
  split; [exact Hrun|]. unfold exec. rewrite Hrun. unfold not_connected_report.
  destruct cb; split; reflexivity.
Qed.

(** X15: the payload type is checked only on an open transport: there a payload
    that is neither a string nor an object makes [sendMessage] throw and
    change nothing.  With no transport and caching enabled the same payload
    is accepted into the cache; when the replay reaches it, the replay step
    throws without arming the next timer, so that the entries behind it are
    not replayed. *)
Theorem invalid_payload_is_rejected_only_when_open
    (s : State) (cb : option MessageCallback) :
  (forall sock, ws s = Some sock -> readyState s sock = OPEN ->
     sendMessage POther cb s = (s, Throw DataMustBeStringOrObject))
  /\ (ws s = None -> Opt.cacheMessage (options s) = true ->
      messageCache (exec (sendMessage POther cb) s)
      = enqueue (options s) (messageCache s) (mkCacheItem POther cb))
  /\ (forall sock index n,
        ws s = Some sock -> readyState s sock = OPEN ->
        messageCache s !! index = Some (mkCacheItem POther cb) ->
        sendNextMessage index s = (s, Throw DataMustBeStringOrObject)
        /\ replay (S n) index s = (s, Throw DataMustBeStringOrObject)).
Proof.
  split; [|split].
  - intros sock Hws Hst. unfold sendMessage. unfold_monad.
    rewrite Hws, andb_false_r. simpl. rewrite Hws, Hst. reflexivity.
  - intros Hws Hcache. destruct (sendMessage_cache s POther cb) as [_ Hc].
    rewrite Hc, Hcache, Hws. reflexivity.
  - intros sock index n Hws Hst Hitem.
    assert (Hsend : sendMessage POther cb s = (s, Throw DataMustBeStringOrObject)).
    { unfold sendMessage. unfold_monad.
      rewrite Hws, andb_false_r. simpl. rewrite Hws, Hst. reflexivity. }
    assert (Hnext : sendNextMessage index s = (s, Throw DataMustBeStringOrObject)).
    { unfold sendNextMessage. unfold bind at 1, gets at 1.
      rewrite bool_decide_eq_true_2 by (apply lookup_lt_is_Some; eauto).
      rewrite Hitem. simpl. apply (bind_Throw _ _ _ _ _ Hsend). }
    split; [exact Hnext|]. simpl. apply (bind_Throw _ _ _ _ _ Hnext).
Qed.

(** X16: two object payloads sent one after the other on an open transport are
    registered under two successive values of the key generator; when the
    generator repeats a value, the second registration silently replaces the
    first. *)
Theorem successive_sends_use_successive_keys
    (s : State) (sock : nat) (f1 f2 : gmap string jsval)
    (cb1 cb2 : option MessageCallback) :
  ws s = Some sock ->
  readyState s sock = OPEN ->
  let k1 := key_source (keysDrawn s) in
  let k2 := key_source (S (keysDrawn s)) in
  let s2 := exec (sendMessage (PObject f2) cb2) (exec (sendMessage (PObject f1) cb1) s) in
  (exists m1 m2,
      sendMessageQueue s2
      = <[k2 := mkQueueItem m2 cb2]> (<[k1 := mkQueueItem m1 cb1]> (sendMessageQueue s))
      /\ log s2 = log s ++ [SocketSend sock m1; SocketSend sock m2])
  /\ keysDrawn s2 = S (S (keysDrawn s))
  /\ (k1 <> k2 -> callback <$> sendMessageQueue s2 !! k1 = Some cb1)
  /\ (k1 = k2 -> callback <$> sendMessageQueue s2 !! k1 = Some cb2).
Proof.
  intros Hws Hst k1 k2 s2. subst s2. unfold exec.
  rewrite (sendMessage_open_object s sock f1 cb1 Hws Hst). simpl.
  match goal with |- context [sendMessage (PObject f2) cb2 ?s1] =>
    rewrite (sendMessage_open_object s1 sock f2 cb2 Hws Hst) end.
  simpl. fold k1 k2. split; [|split; [reflexivity|split]].
  - eexists _, _. split; [reflexivity|]. rewrite <- app_assoc. reflexivity.
  - intros Hne. rewrite lookup_insert_ne by congruence. rewrite lookup_insert_eq. reflexivity.
  - intros Heq. rewrite Heq, lookup_insert_eq. reflexivity.
Qed.

(** *** Replay of the cache *)

Definition replay_frame (sock : nat) (socks : list WebSocket) (cache : list CacheItem)
    (s : State) : Prop :=
  ws s = Some sock /\ sockets s = socks /\ messageCache s = cache.

Lemma frame_sendMessage sock socks cache d cb :
  preserves (replay_frame sock socks cache) (sendMessage d cb).
Proof.
  intros s (Hws & Hsocks & Hcache).
  destruct (sendMessage_cache s d cb) as [_ Hc]. unfold exec in Hc.
  assert (H : preserves (fun s' => ws s' = Some sock /\ sockets s' = socks) (sendMessage d cb)).
  { preserves_with frame_leaf. }
  destruct (H s (conj Hws Hsocks)) as [Hws' Hsocks'].
  split; [exact Hws'|]. split; [exact Hsocks'|].
  rewrite Hc, Hws, andb_false_r. exact Hcache.
Qed.

Lemma frame_sendNextMessage sock socks cache index :
  preserves (replay_frame sock socks cache) (sendNextMessage index).
Proof.
  unfold sendNextMessage.
  preserves_with ltac:(idtac; first [apply frame_sendMessage | frame_leaf]).
Qed.

Lemma frame_replay sock socks cache n :
  forall index, preserves (replay_frame sock socks cache) (replay n index).
Proof.
  induction n as [|n IH]; intros index; simpl.
  - apply preserves_ret.
  - apply preserves_bind; [apply frame_sendNextMessage | intros _; apply IH].
Qed.

Lemma options_replay o n :
  forall index, preserves (fun s => options s = o) (replay n index).
Proof.
  induction n as [|n IH]; intros index; simpl.
  - apply preserves_ret.
  - apply preserves_bind; [preserves_with frame_leaf | intros _; apply IH].
Qed.

(** X17: replaying does not consume the cache: the cached entries are still
    there after a complete replay, so that the next replay (at the next
    transport [open]) hands every one of them to the transport again, under
    freshly generated keys. *)
Theorem replay_keeps_the_cache (s : State) (sock n : nat) :
  ws s = Some sock ->
  readyState s sock = OPEN ->
  Forall (fun item => data item <> POther) (messageCache s) ->
  (length (messageCache s) <= n)%nat ->
  let s1 := exec (replay n 0) s in
  messageCache s1 = messageCache s
  /\ log (exec (replay n 0) s1)
     = log s ++ map (SocketSend sock) (frames (options s) (keysDrawn s) (messageCache s))
             ++ map (SocketSend sock) (frames (options s) (keysDrawn s1) (messageCache s)).
Proof.
  intros Hws Hst Hvalid Hlen s1.
  destruct (frame_replay sock (sockets s) (messageCache s) n 0%nat s
              ltac:(repeat split; auto)) as (Hws1 & Hsocks1 & Hcache1).
  fold (exec (replay n 0) s) in Hws1, Hsocks1, Hcache1. fold s1 in Hws1, Hsocks1, Hcache1.
  assert (Hopt1 : options s1 = options s)
    by (apply (options_replay (options s) n 0%nat s); reflexivity).
  split; [exact Hcache1|].
  destruct (replay_sends_in_order sock n 0%nat s Hws Hst) as [Hlog _];
    [rewrite drop_0; exact Hvalid|].
  rewrite drop_0, take_ge in Hlog by lia.
  destruct (replay_sends_in_order sock n 0%nat s1 Hws1) as [Hlog1 _].
  - unfold readyState in *. rewrite Hsocks1. exact Hst.
  - rewrite drop_0, Hcache1. exact Hvalid.
  - rewrite drop_0, Hcache1, take_ge, Hopt1 in Hlog1 by lia.
    rewrite Hlog1. fold s1 in Hlog. rewrite Hlog, <- app_assoc. reflexivity.
Qed.

(** *** Registering and removing listeners *)

Lemma includes_spec ls l :
  includes ls l = true <-> Exists (fun l' => l_ref l' = l_ref l) ls.
Proof. unfold includes. apply bool_decide_eq_true. Qed.

Lemma on_run event l s :
  event ∈ supported_events ->
  let ls := listeners_of s event in
  on event l s
  = (set_eventListeners
       (if includes ls l
        then match eventListeners s !! event with
             | Some _ => eventListeners s
             | None => <[event := []]> (eventListeners s)
             end
        else <[event := ls ++ [l]]> (eventListeners s)) s,
     Ok tt).
Proof.
  intros Hev ls. subst ls. unfold on, listeners_of. unfold_monad.
  rewrite bool_decide_eq_true_2 by exact Hev.
  destruct (eventListeners s !! event) as [ls|] eqn:Hls; simpl.
  - rewrite Hls. simpl. destruct (includes ls l); simpl; destruct s; reflexivity.
  - rewrite lookup_insert_eq. simpl. rewrite insert_insert_eq. reflexivity.
Qed.

(** X18: [on] accepts the four event names only and throws for any other,
    leaving the listener table untouched.  For a supported event the
    listener goes to the end of that event's list unless the same function is
    already in it, in which case nothing changes; the lists of the other
    events are not affected.  Registering the same function twice is
    therefore the same as registering it once. *)
Theorem on_appends_unless_registered (event : string) (l : SocketEventListener) (s : State) :
  (event ∉ supported_events -> on event l s = (s, Throw (UnsupportedEvent event)))
  /\ (event ∈ supported_events ->
      let s' := exec (on event l) s in
      outcome (on event l) s = Ok tt
      /\ listeners_of s' event
         = (if includes (listeners_of s event) l then listeners_of s event
            else listeners_of s event ++ [l])
      /\ (forall other, other <> event -> listeners_of s' other = listeners_of s other)
      /\ listeners_of (exec (on event l) s') event = listeners_of s' event).
Proof.
  split.
  - intros Hev. unfold on. rewrite bool_decide_eq_false_2 by exact Hev. reflexivity.
  - intros Hev s'.
    assert (Hfirst : listeners_of s' event
                     = (if includes (listeners_of s event) l then listeners_of s event
                        else listeners_of s event ++ [l])
                     /\ (forall other, other <> event ->
                           listeners_of s' other = listeners_of s other)).
    { subst s'. unfold exec. rewrite (on_run event l s Hev). cbv zeta.
      unfold listeners_of. simpl.
      destruct (eventListeners s !! event) as [ls|] eqn:Hls; simpl.
      - destruct (includes ls l); simpl; split.
        + rewrite Hls. reflexivity.
        + intros other Hne. reflexivity.
        + rewrite lookup_insert_eq. reflexivity.
        + intros other Hne. rewrite lookup_insert_ne by congruence. reflexivity.
      - destruct (includes [] l); simpl; split.
        + rewrite lookup_insert_eq. reflexivity.
        + intros other Hne. rewrite lookup_insert_ne by congruence. reflexivity.
        + rewrite lookup_insert_eq. reflexivity.
        + intros other Hne. rewrite lookup_insert_ne by congruence. reflexivity. }
    destruct Hfirst as [Hls Hother].
    split; [unfold outcome; rewrite (on_run event l s Hev); reflexivity|].
    split; [exact Hls|]. split; [exact Hother|].
    assert (Hinc' : includes (listeners_of s' event) l = true).
    { rewrite Hls. destruct (includes (listeners_of s event) l) eqn:Hinc; [exact Hinc|].
      apply includes_spec. apply Exists_app. right. constructor. reflexivity. }
    unfold exec at 1. rewrite (on_run event l s' Hev). cbv zeta. rewrite Hinc'. simpl.
    unfold listeners_of at 1. simpl. unfold listeners_of.
    destruct (eventListeners s' !! event) as [ls|] eqn:Hls'; [rewrite Hls'; reflexivity|].
    rewrite lookup_insert_eq. reflexivity.
Qed.

(** X19: after [removeListener(event)] firing that event calls no listener and
    changes nothing, while the listeners of every other event are kept;
    after [removeAllListeners] no event has a listener. *)
Theorem removed_listeners_are_not_called (event : string) (e : Event) (s : State) :
  let s' := exec (removeListener event) s in
  emit event e s' = (s', Ok tt)
  /\ (forall other, other <> event -> listeners_of s' other = listeners_of s other)
  /\ (forall any, listeners_of (exec removeAllListeners s) any = []
                  /\ emit any e (exec removeAllListeners s)
                     = (exec removeAllListeners s, Ok tt)).
Proof.
  intros s'. subst s'. unfold exec, removeListener, removeAllListeners, modify. simpl.
  split; [|split].
  - unfold emit. unfold_monad. simpl. rewrite lookup_delete_eq. reflexivity.
  - intros other Hne. unfold listeners_of. simpl.
    rewrite lookup_delete_ne by congruence. reflexivity.
  - intros any. split.
    + unfold listeners_of. simpl. rewrite lookup_empty. reflexivity.
    + unfold emit. unfold_monad. simpl. rewrite lookup_empty. reflexivity.
Qed.

(** *** One-shot listeners *)

(** The listeners that survive the removals made by the one-shot listeners
    in [fired]. *)
Definition survives (fired : list SocketEventListener) (l' : SocketEventListener) : Prop :=
  Forall (fun l => is_once l = true -> l_ref l' <> l_ref l) fired.

Global Instance survives_dec fired l' : Decision (survives fired l').
Proof. unfold survives. apply _. Defined.

Lemma call_listener_quiet event e l cur s :
  l_run l e = None ->
  eventListeners s !! event = Some cur ->
  call_listener event e l s
  = (set_eventListeners
       (<[event := filter (survives [l]) cur]> (eventListeners s))
       (set_log (log s ++ [ListenerCall (l_ref l) event e]) s),
     Ok tt).
Proof.
  intros Hrun Hcur. unfold call_listener, call_listener_body, off. unfold_monad.
  rewrite Hrun. simpl.
  destruct (is_once l) eqn:Honce; simpl.
  - rewrite Hcur. simpl.
    assert (Hf : filter (fun l' => l_ref l' <> l_ref l) cur = filter (survives [l]) cur).
    { apply list_filter_iff. intros l'. unfold survives. split.
      - intros Hne. constructor; [intros _; exact Hne | constructor].
      - intros H. inversion H as [|? ? Hl _]; subst. apply Hl. exact Honce. }
    rewrite Hf. reflexivity.
  - assert (Hid : filter (survives [l]) cur = cur).
    { clear Hcur. induction cur as [|x rest IH]; [reflexivity|].
      rewrite filter_cons_True; [rewrite IH; reflexivity|].
      constructor; [intros H; congruence | constructor]. }
    rewrite Hid, insert_id by exact Hcur. destruct s; reflexivity.
Qed.

Lemma forEach_quiet_listeners event e rest : forall cur s,
  Forall (fun l => l_run l e = None) rest ->
  eventListeners s !! event = Some cur ->
  forEach (call_listener event e) rest s
  = (set_eventListeners
       (<[event := filter (survives rest) cur]> (eventListeners s))
       (set_log (log s ++ calls event e rest) s),
     Ok tt).
Proof.
  induction rest as [|l rest IH]; intros cur s Hquiet Hcur.
  - simpl. unfold ret, calls. simpl. rewrite app_nil_r.
    assert (Hid : filter (survives []) cur = cur).
    { clear Hcur. induction cur as [|x xs IHx]; [reflexivity|].
      rewrite filter_cons_True; [rewrite IHx; reflexivity | constructor]. }
    rewrite Hid, insert_id by exact Hcur. destruct s; reflexivity.
  - inversion Hquiet as [|? ? Hl Hrest]; subst. simpl forEach.
    rewrite (bind_Ok _ _ _ _ _ (call_listener_quiet event e l cur s Hl Hcur)).
    rewrite (IH (filter (survives [l]) cur)); [|exact Hrest|simpl; apply lookup_insert_eq].
    assert (Hf : filter (survives rest) (filter (survives [l]) cur)
                 = filter (survives (l :: rest)) cur).
    { rewrite list_filter_filter. apply list_filter_iff. intros l'. unfold survives. split.
      - intros [H1 H2]. inversion H2; subst. constructor; assumption.
      - intros H. inversion H; subst.
        split; [assumption | constructor; [assumption|constructor]]. }
    simpl. rewrite insert_insert_eq, Hf. unfold calls. simpl. rewrite <- app_assoc.
    reflexivity.
Qed.

Lemma filter_ext_in {A} (P Q : A -> Prop)
    `{HP : !forall x, Decision (P x), HQ : !forall x, Decision (Q x)} (l : list A) :
  (forall x, x ∈ l -> P x <-> Q x) -> filter P l = filter Q l.
Proof.
  induction l as [|x rest IH]; intros Hext; [reflexivity|].
  assert (Hrest : filter P rest = filter Q rest).
  { apply IH. intros y Hy. apply Hext. right. exact Hy. }
  assert (Hx : P x <-> Q x) by (apply Hext; left).
  destruct (decide (P x)) as [Hp|Hp].
  - rewrite (filter_cons_True P), (filter_cons_True Q); [|tauto|exact Hp].
    rewrite Hrest. reflexivity.
  - rewrite (filter_cons_False P), (filter_cons_False Q); [exact Hrest|tauto|exact Hp].
Qed.

Lemma survives_self ls :
  filter (survives ls) ls = filter (fun l => is_once l = false) ls.
Proof.
  apply filter_ext_in. intros l' Hin. unfold survives. split.
  - intros H. rewrite Forall_forall in H. specialize (H l' Hin).
    destruct (is_once l'); [exfalso; apply H; reflexivity | reflexivity].
  - intros Hnot. apply Forall_forall. intros l _ Honce Heq.
    unfold is_once in *. rewrite Heq in Hnot. congruence.
Qed.

Lemma emit_removes_one_shot_listeners_aux (event : string) (e : Event) (s : State) :
  Forall (fun l => l_run l e = None) (listeners_of s event) ->
  let s' := exec (emit event e) s in
  log s' = log s ++ calls event e (listeners_of s event)
  /\ listeners_of s' event = filter (fun l => is_once l = false) (listeners_of s event)
  /\ (forall other, other <> event -> listeners_of s' other = listeners_of s other).
Proof.
  intros Hquiet s'. subst s'. unfold listeners_of in *.
  assert (Hrun : emit event e s
                 = (set_eventListeners
                      (match eventListeners s !! event with
                       | Some (l :: ls) =>
                           <[event := filter (survives (l :: ls)) (l :: ls)]> (eventListeners s)
                       | _ => eventListeners s
                       end)
                      (set_log (log s ++ calls event e (default [] (eventListeners s !! event))) s),
                    Ok tt)).
  { unfold emit. unfold bind at 1, gets at 1.
    destruct (eventListeners s !! event) as [[|l ls]|] eqn:Hcur; simpl in Hquiet.
    - unfold ret. simpl. rewrite app_nil_r. destruct s; reflexivity.
    - apply (forEach_quiet_listeners event e (l :: ls) (l :: ls) s Hquiet Hcur).
    - unfold ret. simpl. rewrite app_nil_r. destruct s; reflexivity. }
  unfold exec. rewrite Hrun. simpl. split; [reflexivity|].
  destruct (eventListeners s !! event) as [[|l ls]|] eqn:Hcur; simpl.
  - rewrite Hcur. auto.
  - split.
    + rewrite lookup_insert_eq. apply (survives_self (l :: ls)).
    + intros other Hne. rewrite lookup_insert_ne by congruence. reflexivity.
  - rewrite Hcur. auto.
Qed.

(** X20: when no listener throws, firing an event runs every registered listener
    and then leaves registered exactly the listeners that were not added by
    [once]: each one-shot listener removes itself after its first call, the
    others stay, in their order, and the lists of the other events are not
    touched. *)
Theorem emit_removes_one_shot_listeners (event : string) (e : Event) (s : State) :
  Forall (fun l => l_run l e = None) (listeners_of s event) ->
  let s' := exec (emit event e) s in
  log s' = log s ++ calls event e (listeners_of s event)
  /\ listeners_of s' event = filter (fun l => is_once l = false) (listeners_of s event)
  /\ (forall other, other <> event -> listeners_of s' other = listeners_of s other).
Proof. apply emit_removes_one_shot_listeners_aux. Qed.

(** X21: [once(event, f)] registers a fresh one-shot wrapper of [f] at the end of
    the event's list; the first firing calls it last and unregisters it, the
    second firing does not call it any more. *)
Theorem once_listener_fires_once
    (event : string) (f : Event -> option Error) (e : Event) (s : State) :
  event ∈ supported_events ->
  Forall (fun l => l_run l e = None /\ l_ref l <> OnceFn (nextClosure s))
    (listeners_of s event) ->
  f e = None ->
  let wrapper := mkListener (OnceFn (nextClosure s)) f in
  let s1 := exec (once event f) s in
  let s2 := exec (emit event e) s1 in
  let s3 := exec (emit event e) s2 in
  listeners_of s1 event = listeners_of s event ++ [wrapper]
  /\ log s2 = log s1 ++ calls event e (listeners_of s event)
                     ++ [ListenerCall (OnceFn (nextClosure s)) event e]
  /\ listeners_of s2 event = filter (fun l => is_once l = false) (listeners_of s event)
  /\ log s3 = log s2 ++ calls event e
                          (filter (fun l => is_once l = false) (listeners_of s event)).
Proof.
  intros Hev Hall Hf wrapper s1 s2 s3.
  assert (Hquiet : Forall (fun l => l_run l e = None) (listeners_of s event)).
  { eapply Forall_impl; [exact Hall|]. simpl. intros l [H _]. exact H. }
  assert (Hfresh : includes (listeners_of s event) wrapper = false).
  { apply not_true_is_false. intros H. apply includes_spec in H.
    apply Exists_exists in H as (l & Hl & Href).
    rewrite Forall_forall in Hall. destruct (Hall l Hl) as [_ Hne]. apply Hne. exact Href. }
  assert (H1 : listeners_of s1 event = listeners_of s event ++ [wrapper]).
  { subst s1. unfold exec, once. rewrite bool_decide_eq_true_2 by exact Hev.
    unfold bind at 1, gets at 1. unfold bind at 1, modify at 1.
    fold wrapper.
    rewrite (on_run event wrapper (set_nextClosure (S (nextClosure s)) s) Hev).
    cbv zeta. simpl.
    replace (listeners_of (set_nextClosure (S (nextClosure s)) s) event)
      with (listeners_of s event) by reflexivity.
    rewrite Hfresh. unfold listeners_of at 1. simpl. rewrite lookup_insert_eq. reflexivity. }
  assert (Hq1 : Forall (fun l => l_run l e = None) (listeners_of s1 event)).
  { rewrite H1. apply Forall_app. split; [exact Hquiet | constructor; [exact Hf | constructor]]. }
  destruct (emit_removes_one_shot_listeners_aux event e s1 Hq1) as (Hlog2 & Hls2 & _).
  fold s2 in Hlog2, Hls2.
  assert (Hls2' : listeners_of s2 event
                  = filter (fun l => is_once l = false) (listeners_of s event)).
  { rewrite Hls2, H1, filter_app. simpl.
    rewrite filter_cons_False by (unfold wrapper, is_once; simpl; discriminate).
    rewrite filter_nil, app_nil_r.
    reflexivity. }
  split; [exact H1|]. split.
  { rewrite Hlog2, H1. unfold calls. rewrite map_app. reflexivity. }
  split; [exact Hls2'|].
  assert (Hq2 : Forall (fun l => l_run l e = None) (listeners_of s2 event)).
  { rewrite Hls2'. apply Forall_forall. intros l Hl.
    apply list_elem_of_filter in Hl as [_ Hl]. rewrite Forall_forall in Hquiet. auto. }
  destruct (emit_removes_one_shot_listeners_aux event e s2 Hq2) as (Hlog3 & _).
  fold s3 in Hlog3. rewrite Hlog3, Hls2'. reflexivity.
Qed.

(** *** [sendMessageAsync]

    The promise returned by [sendMessageAsync] is settled by the callback
    [(error, data) => error ? reject(error) : resolve(data)] handed to
    [sendMessage]; [closure] is the identity of that callback.  A promise
    keeps the first settlement, so that its state can be read off the log:
    it is the first call of the callback, if any. *)

Inductive PromiseState :=
| Pending
| Fulfilled (d : json)
| Rejected (err : Error).

Fixpoint settled (closure : nat) (effects : list Effect) : PromiseState :=
  match effects with
  | [] => Pending
  | CallbackCall cb err d :: rest =>
      if Nat.eqb cb closure then
        match err with
        | Some x => Rejected x
        | None => Fulfilled d
        end
      else settled closure rest
  | _ :: rest => settled closure rest
  end.

(** [resolve] and [reject] never throw. *)
Definition promise_callback (closure : nat) : MessageCallback :=
  mkCallback closure (fun _ _ => None).

Inductive AsyncResult :=
| DataMustBeObject            (* throw new Error("data must be an object") *)
| Promise (closure : nat).

Definition is_object (d : payload) : bool :=
  match d with
  | PObject _ | PNull => true
  | PText _ | POther => false
  end.

(** An exception thrown inside the promise executor rejects the promise. *)
Definition sendMessageAsync (closure : nat) (d : payload) (s : State)
  : State * AsyncResult :=
  if is_object d then
    match sendMessage d (Some (promise_callback closure)) s with
    | (s', Ok _) => (s', Promise closure)
    | (s', Throw err) =>
        (set_log (log s' ++ [CallbackCall closure (Some err) JNull]) s', Promise closure)
    end
  else (s, DataMustBeObject).

Lemma settled_app closure before after :
  settled closure before = Pending ->
  settled closure (before ++ after) = settled closure after.
Proof.
  induction before as [|ef rest IH]; intros H; [reflexivity|].
  simpl in *. destruct ef; auto.
  destruct (Nat.eqb cb closure); [destruct err; discriminate | auto].
Qed.

Lemma settled_app_send closure before sock msg :
  settled closure (before ++ [SocketSend sock msg]) = settled closure before.
Proof.
  induction before as [|ef rest IH]; [reflexivity|].
  simpl. destruct ef; auto. destruct (Nat.eqb cb closure); auto.
Qed.

(** X22: [sendMessageAsync] refuses a payload that is not an object by throwing
    at once, without sending or caching anything.  For an object payload it
    returns a promise: when the transport is not open the promise is already
    rejected with "not connected" on return (although, with caching enabled
    and no transport, the payload has also been queued for replay); on an
    open transport the frame is sent, the promise is pending and its
    callback is registered under the generated key. *)
Theorem sendMessageAsync_outcomes (closure : nat) (d : payload) (s : State) :
  (is_object d = false -> sendMessageAsync closure d s = (s, DataMustBeObject))
  /\ (is_object d = true ->
      settled closure (log s) = Pending ->
      (forall sock, ws s = Some sock -> readyState s sock <> OPEN) ->
      let s' := fst (sendMessageAsync closure d s) in
      snd (sendMessageAsync closure d s) = Promise closure
      /\ settled closure (log s') = Rejected NotConnected
      /\ sendMessageQueue s' = sendMessageQueue s
      /\ messageCache s'
         = if Opt.cacheMessage (options s) && bool_decide (ws s = None)
           then enqueue (options s) (messageCache s)
                  (mkCacheItem d (Some (promise_callback closure)))
           else messageCache s)
  /\ (is_object d = true ->
      settled closure (log s) = Pending ->
      forall sock f,
        ws s = Some sock -> readyState s sock = OPEN ->
        frame_of (options s) (key_source (keysDrawn s)) d = Some f ->
        let s' := fst (sendMessageAsync closure d s) in
        snd (sendMessageAsync closure d s) = Promise closure
        /\ settled closure (log s') = Pending
        /\ log s' = log s ++ [SocketSend sock f]
        /\ sendMessageQueue s' !! key_source (keysDrawn s)
           = Some (mkQueueItem f (Some (promise_callback closure)))).
Proof.
  split; [|split].
  - intros Hobj. unfold sendMessageAsync. rewrite Hobj. reflexivity.
  - intros Hobj Hpending Hclosed s'. subst s'. unfold sendMessageAsync. rewrite Hobj.
    assert (Hrun : sendMessage d (Some (promise_callback closure)) s
                   = not_connected_report (Some (promise_callback closure))
                       (if Opt.cacheMessage (options s) && bool_decide (ws s = None)
                        then set_messageCache
                               (enqueue (options s) (messageCache s)
                                  (mkCacheItem d (Some (promise_callback closure)))) s
                        else s)).
    { destruct (ws s) as [sock|] eqn:Hws.
      - rewrite andb_false_r.
        apply (sendMessage_not_open s sock d _ Hws (Hclosed sock eq_refl)).
      - rewrite andb_true_r. apply (sendMessage_no_transport s d _ Hws). }
    rewrite Hrun. unfold not_connected_report. simpl.
    split; [reflexivity|]. split.
    + destruct (_ && _); simpl; rewrite (settled_app _ _ _ Hpending); simpl;
        rewrite Nat.eqb_refl; reflexivity.
    + destruct (_ && _); simpl; auto.
  - intros Hobj Hpending sock f Hws Hst Hf s'. subst s'. unfold sendMessageAsync.
    rewrite Hobj, (sendMessage_open s sock d _ f Hws Hst Hf). simpl.
    split; [reflexivity|]. unfold after_send.
    assert (Hdraw : draws_key d = true) by (destruct d; simpl in *; congruence).
    rewrite Hdraw. simpl.
    split; [rewrite settled_app_send; exact Hpending|]. split; [reflexivity|].
    apply lookup_insert_eq.
Qed.

(** X23: the promise of an object payload sent on an open transport is fulfilled
    with the parsed response when a frame carrying its key arrives (no
    [message] listener throwing), and its key is then no longer pending. *)
Theorem async_request_is_fulfilled_by_response
    (closure : nat) (s : State) (sock : nat) (fields reply : gmap string jsval) (e : Event) :
  ws s = Some sock ->
  readyState s sock = OPEN ->
  settled closure (log s) = Pending ->
  let key := key_source (keysDrawn s) in
  let s1 := fst (sendMessageAsync closure (PObject fields) s) in
  JSON_parse (ev_data e) = Some (JObject reply) ->
  reply !! Opt.uniqueKey (options s) = Some (VStr key) ->
  key <> EmptyString ->
  Forall (fun l => l_run l e = None) (listeners_of s "message") ->
  let s2 := exec (messageHandler e) s1 in
  settled closure (log s1) = Pending
  /\ settled closure (log s2) = Fulfilled (JObject reply)
  /\ sendMessageQueue s2 = delete key (sendMessageQueue s).
Proof.
  intros Hws Hst Hpending key s1 Hparse Hreply Hkey Hquiet s2.
  assert (Hs1 : s1 = exec (sendMessage (PObject fields) (Some (promise_callback closure))) s).
  { subst s1. unfold sendMessageAsync, exec. simpl.
    rewrite (sendMessage_open_object s sock fields _ Hws Hst). reflexivity. }
  destruct (request_then_response s sock fields reply (promise_callback closure) e
              Hws Hst Hparse Hreply Hkey Hquiet eq_refl) as (_ & Hlog & Hqueue & _).
  rewrite <- Hs1 in Hlog, Hqueue. fold s2 in Hlog, Hqueue.
  assert (Hp1 : settled closure (log s1) = Pending).
  { rewrite Hs1. unfold exec.
    rewrite (sendMessage_open_object s sock fields _ Hws Hst). simpl.
    rewrite settled_app_send. exact Hpending. }
  split; [exact Hp1|]. split; [|exact Hqueue].
  rewrite Hlog, (settled_app _ _ _ Hp1).
  assert (Hcalls : forall ls rest,
             settled closure (calls "message" e ls ++ rest) = settled closure rest).
  { induction ls as [|l ls IH]; intros rest; [reflexivity | simpl; apply IH]. }
  rewrite Hcalls. simpl. rewrite Nat.eqb_refl. reflexivity.
Qed.

End Controller.

(** * Concrete scenarios

    Stand-ins for the four collaborators, enough to run the controller:
    [stringify] shows the correlation field of the object it is given;
    [parse] reads such a frame back, as well as [null], the empty object and
    an array of one string; every value inherits the properties of
    [Object.prototype], which read as native functions; the n-th key
    generated is [k] followed by [n]. *)

Definition stringify (o : gmap string jsval) : string :=
  match o !! "message_id" with
  | Some (VStr k) => "id:" +:+ k
  | _ => "?"
  end.

Definition parse (frame : string) : option json :=
  if String.eqb frame "null" then Some JNull
  else if String.eqb frame "{}" then Some (JObject ∅)
  else if String.eqb frame "[k0]" then Some (JArray [VStr "k0"])
  else if String.prefix "id:" frame
       then Some (JObject {[ "message_id" :=
                              VStr (String.substring 3 (String.length frame - 3) frame) ]})
       else None.

Definition prototypes (data : json) (name : string) : option jsval :=
  if bool_decide (name ∈ Object_prototype_keys)
  then Some (VRef ("function " +:+ name +:+ "() { [native code] }"))
  else None.

Definition keys (n : nat) : string := "k" +:+ pretty n.

Definition play : list Input -> State -> State := run stringify parse prototypes keys.

Definition host : string := "ws://host".

Definition caching (limit : Z) : Options :=
  {| Opt.url := host; Opt.timeout := 5000; Opt.reconnect := true;
     Opt.reconnectInterval := 5000; Opt.reconnectMaxInterval := 10000;
     Opt.reconnectMaxTimes := 0; Opt.uniqueKey := "message_id";
     Opt.cacheMessage := true; Opt.maxCacheMessage := limit |}.

Definition one_retry : Options :=
  {| Opt.url := host; Opt.timeout := 5000; Opt.reconnect := true;
     Opt.reconnectInterval := 5000; Opt.reconnectMaxInterval := 10000;
     Opt.reconnectMaxTimes := 1; Opt.uniqueKey := "message_id";
     Opt.cacheMessage := false; Opt.maxCacheMessage := 100 |}.

Definition one_second : Options :=
  {| Opt.url := host; Opt.timeout := 5000; Opt.reconnect := true;
     Opt.reconnectInterval := 1000; Opt.reconnectMaxInterval := 10000;
     Opt.reconnectMaxTimes := 0; Opt.uniqueKey := "message_id";
     Opt.cacheMessage := false; Opt.maxCacheMessage := 100 |}.

Definition quiet : MessageCallback := mkCallback 7 (fun _ _ => None).
Definition listener_a : SocketEventListener := mkListener (UserFn 1) (fun _ => None).
Definition listener_b : SocketEventListener := mkListener (UserFn 2) (fun _ => None).
Definition thrower : SocketEventListener :=
  mkListener (UserFn 3) (fun _ => Some (UserError "boom")).

(** A connection that opened and was then lost: socket 0 is [CLOSED] and
    still held, as [closeHandler] finds it. *)
Definition lost (o : Options) : State :=
  set_readyState 0 CLOSED (play [Call_connect; Transport_open 0%nat] (initial o)).

(** An open connection. *)
Definition connected (o : Options) : State :=
  play [Call_connect; Transport_open 0%nat] (initial o).

Definition hi : gmap string jsval := {[ "text" := VStr "hi" ]}.
Definition colliding : gmap string jsval :=
  {[ "message_id" := VStr "mine"; "text" := VStr "hi" ]}.

Ltac by_computation := vm_compute; first [reflexivity | discriminate].
Ltac split_all := cbv zeta; repeat match goal with |- _ /\ _ => split end.

(** ** C1 *)

(** C1, counterexample: caching is enabled and no transport exists, yet the
    call itself invokes the supplied callback with the "not connected"
    failure (while the payload is queued). *)
Lemma cached_send_still_reports_failure :
  let s := initial (caching 100) in
  let s' := exec (sendMessage stringify keys (PText "hello") (Some quiet)) s in
  Opt.cacheMessage (options s) = true
  /\ ws s = None
  /\ messageCache s' = [mkCacheItem (PText "hello") (Some quiet)]
  /\ log s' = [CallbackCall 7 (Some NotConnected) JNull].
Proof. split_all; by_computation. Qed.

Lemma sendMessage_caches_and_reports_failure_witness :
  let s := initial (caching 100) in
  Opt.cacheMessage (options s) = true
  /\ ws s = None
  /\ sendMessage stringify keys (PText "hello") (Some quiet) s
     = not_connected_report (Some quiet)
         (set_messageCache
            (enqueue (options s) (messageCache s) (mkCacheItem (PText "hello") (Some quiet)))
            s).
Proof.
  split; [by_computation|]. split; [by_computation|].
  apply sendMessage_caches_and_reports_failure; by_computation.
Defined.

(** ** C2 *)

Lemma sendMessage_keeps_caller_correlation_field_witness :
  let s := connected (default_options host) in
  let s' := exec (sendMessage stringify keys (PObject colliding) (Some quiet)) s in
  colliding !! Opt.uniqueKey (options s) = Some (VStr "mine")
  /\ log s' = log s ++ [SocketSend 0 (stringify colliding)]
  /\ stringify colliding = "id:mine"
  /\ sendMessageQueue s'
     = <[keys 0 := mkQueueItem (stringify colliding) (Some quiet)]> (sendMessageQueue s)
  /\ keys 0 = "k0".
Proof.
  split; [by_computation|].
  destruct (sendMessage_keeps_caller_correlation_field stringify keys
              (connected (default_options host)) 0%nat colliding (VStr "mine") (Some quiet))
    as [Hlog Hqueue]; [by_computation | by_computation | by_computation |].
  split; [exact Hlog|]. split; [by_computation|]. split; [exact Hqueue | by_computation].
Defined.

(** ** C3 *)

(** The retry after a lost connection has failed: one retry was allowed and
    it has been used.  The [error] listener has seen the transport's own
    error event. *)
Definition retry_failed : State :=
  play [Call_on "error" listener_a; Call_connect; Transport_open 0%nat;
        Transport_close 0%nat; Timer_fires 2%nat; Transport_error 1%nat]
    (initial one_retry).

(** C3, counterexample: with [reconnectMaxTimes = 1] and the attempt counter
    at 1, the transport close event makes the close handler throw
    "Max reconnect attempts reached"; nothing is emitted to the registered
    [error] listener. *)
Lemma exhaustion_escapes_close_handler :
  let r := step stringify parse prototypes keys (Transport_close 1%nat) retry_failed in
  exhausted retry_failed = true
  /\ eventListeners retry_failed !! "error" = Some [listener_a]
  /\ snd r = Throw MaxReconnectAttempts
  /\ log (fst r) = log retry_failed
  /\ timers (fst r) = timers retry_failed.
Proof. split_all; by_computation. Qed.

Lemma exhaustion_is_thrown_witness :
  let s := set_readyState 1 CLOSED retry_failed in
  let e := plain_event "close" in
  ws s = Some 1%nat
  /\ exhausted s = true
  /\ reconnect s = (s, Throw MaxReconnectAttempts)
  /\ closeHandler e s = (exec (emit "close" e) s, Throw MaxReconnectAttempts)
  /\ timeout_guard s
     = (set_reconnectAttempts 2
          (exec (emit "error" (plain_event "timeout")) (exec (socket_close 1) s)),
        Throw MaxReconnectAttempts).
Proof.
  split; [by_computation|]. split; [by_computation|].
  destruct (exhaustion_is_thrown (set_readyState 1 CLOSED retry_failed) 1%nat
              (plain_event "close")) as (H1 & H2 & H3); [by_computation | by_computation |].
  split; [exact H1|]. split.
  - apply H2; by_computation.
  - apply H3; [by_computation | by_computation | by_computation | by_computation].
Defined.

(** ** C4 *)

(** A lost connection with its retry timer armed, then [destroy]. *)
Definition destroyed_while_retrying : State :=
  play [Call_connect; Transport_open 0%nat; Transport_close 0%nat; Call_destroy]
    (initial (default_options host)).

(** C4, counterexample: [destroy] leaves the reconnect timer (and the timeout
    guard) armed; when the reconnect timer fires it creates transport 1 for
    the destroyed controller, and once that transport opens a [sendMessage]
    goes out on it instead of failing as "not connected". *)
Lemma destroyed_controller_is_resurrected :
  let s := destroyed_while_retrying in
  let s' := play [Timer_fires 2%nat; Transport_open 1%nat;
                  Call_sendMessage (PText "x") (Some quiet)] s in
  ws s = None
  /\ timers s = [mkTimer 1 5000 TimeoutGuard; mkTimer 2 5000 ReconnectTimer]
  /\ ws (play [Timer_fires 2%nat] s) = Some 1%nat
  /\ log s' = log s ++ [NewWebSocket host 1; SocketSend 1 "x"].
Proof. split_all; by_computation. Qed.

(** ** C5 *)

Lemma reconnect_delay_is_capped_exponential_witness :
  let s := lost (default_options host) in
  ws s = Some 0%nat
  /\ exhausted s = false
  /\ readyState s 0 = CLOSED
  /\ (exists kept,
        reconnect s
        = (set_reconnectTimeout (Some 2%nat)
             (set_nextTimer 3
                (set_timers (kept ++ [mkTimer 2 (Z.min (5000 * 2 ^ 0) 10000) ReconnectTimer]) s)),
           Ok tt)
        /\ kept ⊆ timers s)
  /\ exponentialBackoff one_second 3 = Z.min (1000 * 2 ^ 3) 10000
  /\ map (exponentialBackoff one_second) [0; 1; 2; 3; 4]%nat
     = [1000; 2000; 4000; 8000; 10000].
Proof.
  destruct reconnect_delay_is_capped_exponential as (Hformula & Harm & Hseq).
  split; [by_computation|]. split; [by_computation|]. split; [by_computation|]. split.
  - apply (Harm (lost (default_options host)) 0%nat);
      [by_computation | by_computation | by_computation | by_computation].
  - split; [apply (Hformula one_second 3%nat) | apply Hseq; by_computation].
Defined.

(** ** C6 *)

(** C6, counterexample: with [maxCacheMessage = 0] a single send made while
    disconnected leaves one entry in the cache, more than the limit. *)
Lemma cache_exceeds_zero_limit :
  let s := play [Call_sendMessage (PText "a") None] (initial (caching 0)) in
  Opt.maxCacheMessage (options s) = 0
  /\ messageCache s = [mkCacheItem (PText "a") None]
  /\ Z.of_nat (length (messageCache s)) > Opt.maxCacheMessage (options s).
Proof. split_all; by_computation. Qed.

(** Where the replay does not take place: an [open] listener that throws
    ends the open handler before the replay starts, and a cached payload that
    [sendMessage] rejects ends the replay where it stands.  In both runs the
    2nd and the 3rd payload are retained and none is sent. *)
Lemma replay_needs_returning_listeners_and_valid_payloads :
  let opening := [Call_connect; Transport_open 0%nat; Timer_fires 2; Timer_fires 3] in
  let s := play ([Call_on "open" thrower; Call_sendMessage (PText "a") None;
                  Call_sendMessage (PText "b") None; Call_sendMessage (PText "c") None]
                 ++ opening) (initial (caching 2)) in
  let s' := play ([Call_sendMessage (PText "a") None; Call_sendMessage POther None;
                   Call_sendMessage (PText "c") None] ++ opening) (initial (caching 2)) in
  messageCache s = [mkCacheItem (PText "b") None; mkCacheItem (PText "c") None]
  /\ log s = [NewWebSocket host 0; ListenerCall (UserFn 3) "open" (plain_event "open");
              Uncaught (UserError "boom")]
  /\ messageCache s' = [mkCacheItem POther None; mkCacheItem (PText "c") None]
  /\ log s' = [NewWebSocket host 0; Uncaught DataMustBeStringOrObject].
Proof. split_all; by_computation. Qed.

(** Three sends while disconnected with a limit of 2, then a connection that
    opens. *)
Definition backlog : State :=
  play [Call_sendMessage (PText "a") None; Call_sendMessage (PText "b") None;
        Call_sendMessage (PObject hi) (Some quiet)]
    (initial (caching 2)).

Definition reopened : State :=
  set_readyState 0 OPEN (play [Call_connect] backlog).

(** The same three sends, followed by [connect]: socket 0 is connecting and
    the timeout guard is timer 1. *)
Definition dialling : list Input :=
  [Call_sendMessage (PText "a") None; Call_sendMessage (PText "b") None;
   Call_sendMessage (PObject hi) (Some quiet); Call_connect].

Definition dialled : State := play dialling (initial (caching 2)).

Ltac same_as H :=
  match type of H with
  | ?l = _ => transitivity l; [by_computation | rewrite H; by_computation]
  end.

Lemma cache_is_bounded_drop_oldest_and_replayed_in_order_witness :
  let inputs := [Call_sendMessage (PText "a") None; Call_sendMessage (PText "b") None;
                 Call_sendMessage (PObject hi) (Some quiet)] in
  Z.of_nat (length (messageCache (play inputs (initial (caching 2))))) <= 2
  /\ (let cache' :=
        messageCache (exec (sendMessage stringify keys (PText "c") None) backlog) in
      cache' = [mkCacheItem (PObject hi) (Some quiet); mkCacheItem (PText "c") None]
      /\ last cache' = Some (mkCacheItem (PText "c") None))
  /\ messageCache (play inputs (initial (caching 2)))
     = [mkCacheItem (PText "b") None; mkCacheItem (PObject hi) (Some quiet)]
  /\ (let s' := play [Transport_open 0%nat] dialled in
      log s' = log dialled ++ [SocketSend 0 "b"]
      /\ timers s' = timers dialled ++ [mkTimer 2 100 (SendNextMessage 1)])
  /\ (let s' := play [Transport_open 0%nat; Timer_fires 2; Timer_fires 3] dialled in
      log s' = log dialled ++ [SocketSend 0 "b"; SocketSend 0 "id:k0"]
      /\ timers s' = timers dialled).
Proof.
  destruct (cache_is_bounded_drop_oldest_and_replayed_in_order stringify parse prototypes keys)
    as (Hbound & Hevict & Hthree & Hreplay).
  cbv zeta. split; [|split; [|split; [|split]]].
  - apply (Hbound (caching 2)). by_computation.
  - destruct (Hevict backlog (PText "c") None) as [Hc Hl]; [by_computation | by_computation |].
    split; [rewrite Hc; by_computation | exact Hl].
  - apply (Hthree (caching 2)); by_computation.
  - pose proof (Hreplay (caching 2) dialling 0%nat 0%nat) as H. cbv zeta in H.
    do 2 (specialize (H ltac:(by_computation))).
    specialize (H ltac:(vm_compute; constructor)).
    specialize (H ltac:(vm_compute; repeat constructor; discriminate)).
    destruct H as [Hlog Htimers]. split; [same_as Hlog | same_as Htimers].
  - pose proof (Hreplay (caching 2) dialling 0%nat 2%nat) as H. cbv zeta in H.
    do 2 (specialize (H ltac:(by_computation))).
    specialize (H ltac:(vm_compute; constructor)).
    specialize (H ltac:(vm_compute; repeat constructor; discriminate)).
    destruct H as [Hlog Htimers]. split; [same_as Hlog | same_as Htimers].
Defined.

(** ** C7 *)

Lemma close_event_after_close_does_not_reconnect_witness :
  let s := connected (default_options host) in
  let e := plain_event "close" in
  let s' := play [Call_connect] (exec close s) in
  Opt.reconnect (options s) = true
  /\ close s
     = (set_ws None (exec (socket_close 0) (set_isHandleClose true s)), Ok tt)
  /\ isHandleClose (exec close s) = true
  /\ ws (exec close s) = None
  /\ closeHandler e s' = emit "close" e s'
  /\ timers (exec (closeHandler e) s') = timers s'
  /\ sockets (exec (closeHandler e) s') = sockets s'
  /\ ws (exec (closeHandler e) s') = ws s'
  /\ reconnectTimeout (exec (closeHandler e) s') = reconnectTimeout s'.
Proof.
  cbv zeta. unfold play.
  pose proof (close_event_after_close_does_not_reconnect stringify parse prototypes keys
                (connected (default_options host)) [Call_connect] (plain_event "close")
                ltac:(repeat constructor; discriminate)) as H.
  cbv zeta in H. destruct H as (Hclose & Hrest).
  split; [by_computation|]. split; [rewrite Hclose; by_computation | exact Hrest].
Defined.

(** ** C8 *)

Definition three_listeners : State :=
  play [Call_on "message" listener_a; Call_on "message" thrower;
        Call_on "message" listener_b]
    (initial (default_options host)).

(** C8, counterexample: three listeners are registered for [message] and the
    second one throws: the third is never called and the exception comes out
    of [emit]. *)
Lemma throwing_listener_stops_emit :
  let e := mkEvent "message" "x" in
  eventListeners three_listeners !! "message" = Some [listener_a; thrower; listener_b]
  /\ log (exec (emit "message" e) three_listeners)
     = [ListenerCall (UserFn 1) "message" e; ListenerCall (UserFn 3) "message" e]
  /\ outcome (emit "message" e) three_listeners = Throw (UserError "boom").
Proof. split_all; by_computation. Qed.

Lemma emit_calls_in_order_until_throw_witness :
  let e := mkEvent "message" "x" in
  let s := play [Call_removeListener "message"; Call_on "message" listener_a;
                 Call_on "message" listener_b] three_listeners in
  (log (exec (emit "message" e) s) = log s ++ calls "message" e [listener_a; listener_b]
   /\ outcome (emit "message" e) s = Ok tt)
  /\ (log (exec (emit "message" e) three_listeners)
      = log three_listeners ++ calls "message" e ([listener_a] ++ [thrower])
      /\ outcome (emit "message" e) three_listeners = Throw (UserError "boom")).
Proof.
  cbv zeta. split.
  - apply (emit_calls_in_order_until_throw "message" (mkEvent "message" "x")).
    + by_computation.
    + repeat constructor.
  - apply (emit_calls_in_order_until_throw "message" (mkEvent "message" "x")
             three_listeners)
      with (before := [listener_a]) (l := thrower) (after := [listener_b]).
    + by_computation.
    + repeat constructor.
    + reflexivity.
Defined.

(** ** C9 *)

(** A structured payload sent without a callback on an open connection. *)
Definition awaiting_without_callback : State :=
  play [Call_connect; Transport_open 0%nat; Call_sendMessage (PObject hi) None]
    (initial (default_options host)).

Definition awaiting_with_callback : State :=
  play [Call_connect; Transport_open 0%nat; Call_sendMessage (PObject hi) (Some quiet)]
    (initial (default_options host)).

(** C9, counterexample: the response to a request that was sent without a
    callback does not remove its entry from the pending table; and a response
    whose key has no entry is not silent: a [TypeError] is logged. *)
Lemma pending_entry_without_callback_is_kept :
  let reply := mkEvent "message" "id:k0" in
  let s := awaiting_without_callback in
  sendMessageQueue s !! "k0" = Some (mkQueueItem "id:k0" None)
  /\ parse (ev_data reply) = Some (JObject {[ "message_id" := VStr "k0" ]})
  /\ sendMessageQueue (exec (messageHandler parse prototypes reply) s) !! "k0"
     = Some (mkQueueItem "id:k0" None)
  /\ log (exec (messageHandler parse prototypes (mkEvent "message" "id:zz")) s)
     = log s ++ [ConsoleError TypeError].
Proof. split_all; by_computation. Qed.

Lemma correlated_message_resolution_witness :
  let reply := mkEvent "message" "id:k0" in
  let fields : gmap string jsval := {[ "message_id" := VStr "k0" ]} in
  let s := awaiting_with_callback in
  let s0 := awaiting_without_callback in
  messageHandler parse prototypes reply s
  = (set_sendMessageQueue (delete "k0" (sendMessageQueue s))
       (set_log (log s ++ [CallbackCall 7 None (JObject fields)]) s),
     Ok tt)
  /\ messageHandler parse prototypes reply s0 = (s0, Ok tt)
  /\ messageHandler parse prototypes (mkEvent "message" "id:zz") s
     = (set_log (log s ++ [ConsoleError TypeError]) s, Ok tt)
  /\ messageHandler parse prototypes (mkEvent "message" "id:toString") s = (s, Ok tt)
  /\ messageHandler parse prototypes reply
       (exec (on "message" thrower) s)
     = (set_log (log s ++ [ListenerCall (UserFn 3) "message" reply])
          (exec (on "message" thrower) s),
        Throw (UserError "boom")).
Proof.
  cbv zeta. split; [|split; [|split; [|split]]].
  - pose proof (correlated_message_resolution parse prototypes awaiting_with_callback
                  (mkEvent "message" "id:k0") (JObject {[ "message_id" := VStr "k0" ]})
                  (VStr "k0")) as H.
    specialize (H ltac:(by_computation) ltac:(discriminate)).
    do 2 (specialize (H ltac:(by_computation))). destruct H as (_ & _ & _ & Hok).
    destruct (Hok ltac:(by_computation)) as (Hcb & _ & _).
    rewrite (Hcb (mkQueueItem "id:k0" (Some quiet)) quiet
               ltac:(by_computation) ltac:(by_computation)).
    by_computation.
  - pose proof (correlated_message_resolution parse prototypes awaiting_without_callback
                  (mkEvent "message" "id:k0") (JObject {[ "message_id" := VStr "k0" ]})
                  (VStr "k0")) as H.
    specialize (H ltac:(by_computation) ltac:(discriminate)).
    do 2 (specialize (H ltac:(by_computation))). destruct H as (_ & _ & _ & Hok).
    destruct (Hok ltac:(by_computation)) as (_ & Hnone & _).
    rewrite (Hnone (mkQueueItem "id:k0" None)
               ltac:(by_computation) ltac:(by_computation)).
    by_computation.
  - pose proof (correlated_message_resolution parse prototypes awaiting_with_callback
                  (mkEvent "message" "id:zz") (JObject {[ "message_id" := VStr "zz" ]})
                  (VStr "zz")) as H.
    specialize (H ltac:(by_computation) ltac:(discriminate)).
    do 2 (specialize (H ltac:(by_computation))). destruct H as (_ & _ & _ & Hok).
    destruct (Hok ltac:(by_computation)) as (_ & _ & Habsent).
    rewrite (Habsent ltac:(by_computation)). by_computation.
  - pose proof (correlated_message_resolution parse prototypes awaiting_with_callback
                  (mkEvent "message" "id:toString")
                  (JObject {[ "message_id" := VStr "toString" ]}) (VStr "toString")) as H.
    specialize (H ltac:(by_computation) ltac:(discriminate)).
    do 2 (specialize (H ltac:(by_computation))). destruct H as (_ & _ & _ & Hok).
    destruct (Hok ltac:(by_computation)) as (_ & _ & Habsent).
    rewrite (Habsent ltac:(by_computation)). by_computation.
  - pose proof (correlated_message_resolution parse prototypes
                  (exec (on "message" thrower) awaiting_with_callback)
                  (mkEvent "message" "id:k0") (JObject {[ "message_id" := VStr "k0" ]})
                  (VStr "k0")) as H.
    specialize (H ltac:(by_computation) ltac:(discriminate)).
    do 2 (specialize (H ltac:(by_computation))). destruct H as (_ & _ & Hthrow & _).
    rewrite (Hthrow (UserError "boom") ltac:(by_computation)). by_computation.
Defined.

(** ** C10 *)

Lemma timeout_guard_disabled_after_close_witness :
  let s := connected (default_options host) in
  let s' := play [Call_connect] (exec close s) in
  ws s' = Some 1%nat
  /\ readyState s' 1 = CONNECTING
  /\ timers s' = [mkTimer 1 5000 TimeoutGuard; mkTimer 2 5000 TimeoutGuard]
  /\ isHandleClose s' = true
  /\ timeout_guard s' = (s', Ok tt)
  /\ step stringify parse prototypes keys (Timer_fires 2) s'
     = (set_timers [mkTimer 1 5000 TimeoutGuard] s', Ok tt)
  /\ (forall e s0, isHandleClose (exec (openHandler stringify keys e) s0) = false).
Proof.
  cbv zeta. split; [by_computation|]. split; [by_computation|]. split; [by_computation|].
  pose proof (timeout_guard_disabled_after_close stringify parse prototypes keys
                (connected (default_options host)) [Call_connect]
                ltac:(repeat constructor; discriminate)) as (Hflag & Hguard & Hfire & Hopen).
  unfold play.
  split; [exact Hflag|]. split; [exact Hguard|]. split; [|exact Hopen].
  rewrite (Hfire 2%nat (mkTimer 2 5000 TimeoutGuard) []
             ltac:(by_computation) ltac:(by_computation)).
  by_computation.
Defined.

(** * Further scenarios *)

Ltac by_forall := vm_compute; solve [repeat constructor; try discriminate].
Ltac not_among :=
  let H := fresh in
  intros H; repeat (apply elem_of_cons in H as [H|H]; [discriminate|]); inversion H.
Ltac conclude H := first [rewrite H; by_computation | exact H].

Definition connecting : State := play [Call_connect] (initial (default_options host)).

Lemma timeout_closes_and_schedules_retry_witness :
  let s' := exec timeout_guard connecting in
  outcome timeout_guard connecting = Ok tt
  /\ log s' = [NewWebSocket host 0; SocketClose 0]
  /\ readyState s' 0 = CLOSING
  /\ reconnectAttempts s' = 1%nat
  /\ timers s' = [mkTimer 1 5000 TimeoutGuard; mkTimer 2 10000 ReconnectTimer]
  /\ reconnectTimeout s' = Some 2%nat.
Proof.
  pose proof (timeout_closes_and_schedules_retry connecting 0%nat
                ltac:(by_computation) ltac:(by_computation) ltac:(by_computation)
                ltac:(by_computation) ltac:(by_computation) ltac:(by_forall)) as H.
  cbv zeta in H. destruct H as (H1 & H2 & H3 & H4 & H5 & H6). split_all.
  - conclude H1.
  - conclude H2.
  - conclude H3.
  - conclude H4.
  - conclude H5.
  - conclude H6.
Defined.

Lemma connect_creates_one_transport_witness :
  let s := initial (default_options host) in
  let s' := exec connect s in
  outcome connect s = Ok tt
  /\ ws s' = Some 0%nat
  /\ sockets s' = [mkWebSocket CONNECTING true]
  /\ log s' = [NewWebSocket host 0]
  /\ timers s' = [mkTimer 1 5000 TimeoutGuard].
Proof.
  pose proof (connect_creates_one_transport (initial (default_options host))
                ltac:(by_computation)) as H.
  cbv zeta in H. destruct H as (H1 & H2 & H3 & H4 & H5). split_all.
  - conclude H1.
  - conclude H2.
  - conclude H3.
  - conclude H4.
  - conclude H5.
Defined.

Lemma connect_is_refused_after_unsolicited_close_witness :
  let s := lost (default_options host) in
  let s1 := exec (closeHandler (plain_event "close")) s in
  ws s1 = Some 0%nat
  /\ connect s1
     = (set_log (log s1 ++ [ConsoleWarn "WebSocket is already connected or connecting."]) s1,
        Ok tt).
Proof.
  exact (connect_is_refused_after_unsolicited_close (lost (default_options host)) 0%nat
           (plain_event "close") ltac:(by_computation)).
Defined.

Lemma lost_connection_is_retried_once_witness :
  let s := lost (default_options host) in
  let s1 := exec (closeHandler (plain_event "close")) s in
  let s2 := exec reconnect_timer s1 in
  timers s1 = [mkTimer 1 5000 TimeoutGuard; mkTimer 2 5000 ReconnectTimer]
  /\ sockets s1 = sockets s
  /\ ws s2 = Some 1%nat
  /\ sockets s2 = [mkWebSocket CLOSED true; mkWebSocket CONNECTING true]
  /\ reconnectAttempts s2 = 1%nat.
Proof.
  pose proof (lost_connection_is_retried_once (lost (default_options host)) 0%nat
                (plain_event "close")
                ltac:(by_computation) ltac:(by_computation) ltac:(by_computation)
                ltac:(by_computation) ltac:(by_computation) ltac:(by_forall)) as H.
  cbv zeta in H. destruct H as (H1 & H2 & H3 & H4 & H5). split_all.
  - conclude H1.
  - conclude H2.
  - conclude H3.
  - conclude H4.
  - conclude H5.
Defined.

(** A first connection that timed out, and the retry that replaced it:
    socket 1 is connecting and the attempt counter is at 2. *)
Definition retried : State :=
  play [Call_connect; Timer_fires 1; Timer_fires 2] (initial (default_options host)).

Lemma open_resets_backoff_witness :
  let s1 := play [Transport_open 1%nat] retried in
  let s2 := play [Transport_close 1%nat] s1 in
  reconnectAttempts retried = 2%nat
  /\ reconnectAttempts s1 = 0%nat
  /\ timers s2 = [mkTimer 3 5000 ReconnectTimer]
  /\ reconnectTimeout s2 = Some 3%nat.
Proof.
  pose proof (open_resets_backoff stringify parse prototypes keys retried 1%nat) as H.
  do 3 (specialize (H ltac:(by_computation))).
  specialize (H ltac:(vm_compute; discriminate) ltac:(by_forall)).
  cbv zeta in H. destruct H as (H1 & H2 & H3). split_all.
  - by_computation.
  - same_as H1.
  - same_as H2.
  - same_as H3.
Defined.

Lemma nothing_is_sent_before_open_witness :
  SocketSend 0 "hello"
  ∉ log (play [Call_connect; Call_sendMessage (PText "hello") (Some quiet);
               Timer_fires 1%nat; Transport_close 0%nat]
           (initial (caching 2))).
Proof.
  unfold play.
  apply (nothing_is_sent_before_open stringify parse prototypes keys (caching 2)).
  repeat constructor; discriminate.
Defined.

Lemma closed_controller_stays_closed_witness :
  let s := exec destroy (connected (default_options host)) in
  let inputs := [Transport_close 0%nat; Timer_fires 1%nat;
                 Call_sendMessage (PText "x") None; Transport_message 0%nat "id:k0"] in
  ws (play inputs s) = None
  /\ length (sockets (play inputs s)) = length (sockets s).
Proof.
  unfold play at 1 2.
  apply (closed_controller_stays_closed stringify parse prototypes keys
           (exec destroy (connected (default_options host)))).
  - by_computation.
  - by_forall.
  - repeat constructor; discriminate.
Defined.

Lemma uncorrelated_message_resolves_nothing_witness :
  let s := awaiting_with_callback in
  let e := mkEvent "message" "not json" in
  messageHandler parse prototypes e s = (set_log (log s ++ [ConsoleError SyntaxError]) s, Ok tt)
  /\ messageHandler parse prototypes (mkEvent "message" "{}") s = (s, Ok tt)
  /\ sendMessageQueue (exec (messageHandler parse prototypes e) s) = sendMessageQueue s.
Proof.
  pose proof (uncorrelated_message_resolves_nothing parse prototypes (mkEvent "message" "not json")
                awaiting_with_callback ltac:(by_computation)) as H.
  pose proof (uncorrelated_message_resolves_nothing parse prototypes (mkEvent "message" "{}")
                awaiting_with_callback ltac:(by_computation)) as H'.
  cbv zeta in H, H'. destruct H as (H1 & _ & H3). destruct H' as (H1' & _). split_all.
  - rewrite H1. by_computation.
  - rewrite H1'. by_computation.
  - conclude H3.
Defined.

(** The correlation field is read through the prototype chain and from
    arrays.  With [uniqueKey = "constructor"] the empty object carries a key,
    the text of the inherited function, which has no pending entry: a
    [TypeError] is logged.  With [uniqueKey = "0"] the array frame carries
    the key [k0] and resolves the request pending under it. *)
Definition keyed_by (field : string) : Options :=
  {| Opt.url := host; Opt.timeout := 5000; Opt.reconnect := true;
     Opt.reconnectInterval := 5000; Opt.reconnectMaxInterval := 10000;
     Opt.reconnectMaxTimes := 0; Opt.uniqueKey := field;
     Opt.cacheMessage := false; Opt.maxCacheMessage := 100 |}.

Lemma correlation_field_is_read_as_any_property :
  let sent := [Call_connect; Transport_open 0%nat; Call_sendMessage (PObject hi) (Some quiet)] in
  let s := play sent (initial (keyed_by "constructor")) in
  let s' := play sent (initial (keyed_by "0")) in
  messageHandler parse prototypes (mkEvent "message" "{}") s
  = (set_log (log s ++ [ConsoleError TypeError]) s, Ok tt)
  /\ messageHandler parse prototypes (mkEvent "message" "[k0]") s'
     = (set_sendMessageQueue ∅
          (set_log (log s' ++ [CallbackCall 7 None (JArray [VStr "k0"])]) s'),
        Ok tt).
Proof. split_all; by_computation. Qed.

Lemma response_resolves_request_witness :
  let s := connected (default_options host) in
  let reply : gmap string jsval := {[ "message_id" := VStr "k0" ]} in
  let e := mkEvent "message" "id:k0" in
  let s1 := exec (sendMessage stringify keys (PObject hi) (Some quiet)) s in
  let s2 := exec (messageHandler parse prototypes e) s1 in
  log s2 = log s1 ++ [CallbackCall 7 None (JObject reply)]
  /\ sendMessageQueue s2 = delete (keys 0) (sendMessageQueue s)
  /\ outcome (messageHandler parse prototypes e) s1 = Ok tt.
Proof.
  pose proof (response_resolves_request stringify parse prototypes keys
                (connected (default_options host)) 0%nat hi
                {[ "message_id" := VStr "k0" ]} quiet (mkEvent "message" "id:k0")
                ltac:(by_computation) ltac:(by_computation) ltac:(by_computation)
                ltac:(by_computation) ltac:(by_computation) ltac:(by_forall)
                ltac:(by_computation)) as H.
  cbv zeta in H. destruct H as (_ & H2 & H3 & H4). split_all.
  - conclude H2.
  - conclude H3.
  - conclude H4.
Defined.

Lemma response_after_close_fails_request_witness :
  let s := awaiting_with_callback in
  let s1 := exec close s in
  let s2 := exec (step stringify parse prototypes keys (Transport_message 0 "id:k0")) s1 in
  outcome (step stringify parse prototypes keys (Transport_message 0 "id:k0")) s1 = Ok tt
  /\ log s2 = log s1 ++ [CallbackCall 7 (Some ConnectionNotOpen) JNull]
  /\ sendMessageQueue s2 = ∅
  /\ ws s2 = None.
Proof.
  pose proof (response_after_close_fails_request stringify parse prototypes keys
                awaiting_with_callback 0%nat "id:k0" {[ "message_id" := VStr "k0" ]}
                (VStr "k0") (mkQueueItem "id:k0" (Some quiet)) quiet) as H.
  do 7 (specialize (H ltac:(by_computation))).
  cbv zeta in H. specialize (H ltac:(by_forall) ltac:(by_computation)).
  destruct H as (H1 & H2 & H3 & H4). split_all.
  - conclude H1.
  - same_as H2.
  - same_as H3.
  - conclude H4.
Defined.

(** A lost connection waiting for its retry, with caching enabled. *)
Definition waiting_to_retry : State :=
  play [Transport_close 0%nat] (connected (caching 10)).

Lemma send_while_handle_not_open_is_dropped_witness :
  let s := waiting_to_retry in
  Opt.cacheMessage (options s) = true
  /\ ws s = Some 0%nat
  /\ readyState s 0 = CLOSED
  /\ sendMessage stringify keys (PText "hello") (Some quiet) s
     = not_connected_report (Some quiet) s
  /\ messageCache (exec (sendMessage stringify keys (PText "hello") (Some quiet)) s)
     = messageCache s
  /\ sendMessageQueue (exec (sendMessage stringify keys (PText "hello") (Some quiet)) s)
     = sendMessageQueue s.
Proof.
  cbv zeta. split; [by_computation|]. split; [by_computation|]. split; [by_computation|].
  exact (send_while_handle_not_open_is_dropped stringify keys waiting_to_retry 0%nat
           (PText "hello") (Some quiet) ltac:(by_computation) ltac:(by_computation)).
Defined.

(** An invalid payload cached in front of a valid one, then a connection
    that opens (seen just before the open handler runs). *)
Definition poisoned : State :=
  set_readyState 0 OPEN
    (play [Call_sendMessage POther None; Call_sendMessage (PText "b") None; Call_connect]
       (initial (caching 10))).

Lemma invalid_payload_is_rejected_only_when_open_witness :
  sendMessage stringify keys POther None (connected (default_options host))
  = (connected (default_options host), Throw DataMustBeStringOrObject)
  /\ messageCache (exec (sendMessage stringify keys POther None) (initial (caching 10)))
     = [mkCacheItem POther None]
  /\ messageCache poisoned = [mkCacheItem POther None; mkCacheItem (PText "b") None]
  /\ sendNextMessage stringify keys 0 poisoned = (poisoned, Throw DataMustBeStringOrObject)
  /\ replay stringify keys 3 0 poisoned = (poisoned, Throw DataMustBeStringOrObject).
Proof.
  destruct (invalid_payload_is_rejected_only_when_open stringify keys
              (connected (default_options host)) None) as (Hopen & _ & _).
  destruct (invalid_payload_is_rejected_only_when_open stringify keys
              (initial (caching 10)) None) as (_ & Hcached & _).
  destruct (invalid_payload_is_rejected_only_when_open stringify keys poisoned None)
    as (_ & _ & Hreplay).
  split; [apply (Hopen 0%nat); by_computation|].
  split; [rewrite Hcached; by_computation|].
  split; [by_computation|].
  apply (Hreplay 0%nat 0%nat 2%nat); by_computation.
Defined.

Lemma successive_sends_use_successive_keys_witness :
  let s := connected (default_options host) in
  let s2 := exec (sendMessage stringify keys (PObject colliding) None)
              (exec (sendMessage stringify keys (PObject hi) (Some quiet)) s) in
  keys 0 = "k0" /\ keys 1 = "k1"
  /\ (exists m1 m2,
         sendMessageQueue s2
         = <[keys 1 := mkQueueItem m2 None]>
             (<[keys 0 := mkQueueItem m1 (Some quiet)]> (sendMessageQueue s))
         /\ log s2 = log s ++ [SocketSend 0 m1; SocketSend 0 m2])
  /\ keysDrawn s2 = 2%nat
  /\ callback <$> sendMessageQueue s2 !! keys 0 = Some (Some quiet).
Proof.
  pose proof (successive_sends_use_successive_keys stringify keys
                (connected (default_options host)) 0%nat hi colliding (Some quiet) None
                ltac:(by_computation) ltac:(by_computation)) as H.
  cbv zeta in H. destruct H as (H1 & H2 & H3 & _). cbv zeta.
  split; [by_computation|]. split; [by_computation|].
  split; [exact H1|]. split; [conclude H2|].
  apply H3. by_computation.
Defined.

Lemma replay_keeps_the_cache_witness :
  let s1 := exec (replay stringify keys 3 0) reopened in
  messageCache s1 = messageCache reopened
  /\ log (exec (replay stringify keys 3 0) s1)
     = log reopened ++ [SocketSend 0 "b"; SocketSend 0 "id:k0"]
                    ++ [SocketSend 0 "b"; SocketSend 0 "id:k1"].
Proof.
  pose proof (replay_keeps_the_cache stringify keys reopened 0%nat 3%nat
                ltac:(by_computation) ltac:(by_computation) ltac:(by_forall)
                ltac:(vm_compute; lia)) as H.
  cbv zeta in H. destruct H as (H1 & H2). split_all.
  - conclude H1.
  - conclude H2.
Defined.

Lemma on_appends_unless_registered_witness :
  let s := three_listeners in
  on "ready" listener_a s = (s, Throw (UnsupportedEvent "ready"))
  /\ listeners_of (exec (on "message" listener_a) s) "message"
     = [listener_a; thrower; listener_b]
  /\ listeners_of (exec (on "open" listener_a) s) "open" = [listener_a]
  /\ listeners_of (exec (on "open" listener_a) s) "message"
     = [listener_a; thrower; listener_b].
Proof.
  cbv zeta.
  destruct (on_appends_unless_registered "ready" listener_a three_listeners) as [Hbad _].
  destruct (on_appends_unless_registered "message" listener_a three_listeners) as [_ Hsame].
  destruct (on_appends_unless_registered "open" listener_a three_listeners) as [_ Hnew].
  split; [apply Hbad; not_among|].
  specialize (Hsame ltac:(repeat constructor)). specialize (Hnew ltac:(repeat constructor)).
  cbv zeta in Hsame, Hnew.
  destruct Hsame as (_ & Hs & _). destruct Hnew as (_ & Hn & Hother & _).
  split; [conclude Hs|]. split; [conclude Hn|].
  rewrite (Hother "message" ltac:(discriminate)). by_computation.
Defined.

Lemma removed_listeners_are_not_called_witness :
  let s' := exec (removeListener "message") three_listeners in
  emit "message" (mkEvent "message" "x") s' = (s', Ok tt)
  /\ listeners_of s' "open" = listeners_of three_listeners "open"
  /\ listeners_of (exec removeAllListeners three_listeners) "message" = [].
Proof.
  pose proof (removed_listeners_are_not_called "message" (mkEvent "message" "x")
                three_listeners) as H.
  cbv zeta in H. destruct H as (H1 & H2 & H3). split_all.
  - exact H1.
  - apply H2. discriminate.
  - apply H3.
Defined.

(** Two persistent listeners around a one-shot one. *)
Definition mixed_listeners : State :=
  play [Call_on "open" listener_a; Call_once "open" (fun _ => None);
        Call_on "open" listener_b]
    (initial (default_options host)).

Lemma emit_removes_one_shot_listeners_witness :
  let e := plain_event "open" in
  let s' := exec (emit "open" e) mixed_listeners in
  listeners_of mixed_listeners "open"
  = [listener_a; mkListener (OnceFn 0) (fun _ => None); listener_b]
  /\ log s' = [ListenerCall (UserFn 1) "open" e; ListenerCall (OnceFn 0) "open" e;
               ListenerCall (UserFn 2) "open" e]
  /\ listeners_of s' "open" = [listener_a; listener_b].
Proof.
  pose proof (emit_removes_one_shot_listeners "open" (plain_event "open") mixed_listeners
                ltac:(by_forall)) as H.
  cbv zeta in H. destruct H as (H1 & H2 & _). split_all.
  - by_computation.
  - conclude H1.
  - conclude H2.
Defined.

Lemma once_listener_fires_once_witness :
  let e := plain_event "open" in
  let s := play [Call_on "open" listener_a] (initial (default_options host)) in
  let s1 := exec (once "open" (fun _ => None)) s in
  let s2 := exec (emit "open" e) s1 in
  let s3 := exec (emit "open" e) s2 in
  listeners_of s1 "open" = [listener_a; mkListener (OnceFn 0) (fun _ => None)]
  /\ log s2 = [ListenerCall (UserFn 1) "open" e; ListenerCall (OnceFn 0) "open" e]
  /\ listeners_of s2 "open" = [listener_a]
  /\ log s3 = log s2 ++ [ListenerCall (UserFn 1) "open" e].
Proof.
  pose proof (once_listener_fires_once "open" (fun _ => None) (plain_event "open")
                (play [Call_on "open" listener_a] (initial (default_options host)))
                ltac:(repeat constructor)
                ltac:(vm_compute; repeat constructor; discriminate)
                eq_refl) as H.
  cbv zeta in H. destruct H as (H1 & H2 & H3 & H4). split_all.
  - conclude H1.
  - conclude H2.
  - conclude H3.
  - conclude H4.
Defined.

Lemma sendMessageAsync_outcomes_witness :
  let offline := initial (caching 10) in
  let online := connected (default_options host) in
  sendMessageAsync stringify keys 9 (PText "hello") online = (online, DataMustBeObject)
  /\ (snd (sendMessageAsync stringify keys 9 (PObject hi) offline) = Promise 9
      /\ settled 9 (log (fst (sendMessageAsync stringify keys 9 (PObject hi) offline)))
         = Rejected NotConnected
      /\ messageCache (fst (sendMessageAsync stringify keys 9 (PObject hi) offline))
         = [mkCacheItem (PObject hi) (Some (promise_callback 9))])
  /\ (snd (sendMessageAsync stringify keys 9 (PObject hi) online) = Promise 9
      /\ settled 9 (log (fst (sendMessageAsync stringify keys 9 (PObject hi) online)))
         = Pending
      /\ log (fst (sendMessageAsync stringify keys 9 (PObject hi) online))
         = log online ++ [SocketSend 0 "id:k0"]).
Proof.
  cbv zeta.
  destruct (sendMessageAsync_outcomes stringify keys 9%nat (PText "hello")
              (connected (default_options host))) as (Htext & _ & _).
  destruct (sendMessageAsync_outcomes stringify keys 9%nat (PObject hi)
              (initial (caching 10))) as (_ & Hoff & _).
  destruct (sendMessageAsync_outcomes stringify keys 9%nat (PObject hi)
              (connected (default_options host))) as (_ & _ & Hon).
  split; [apply Htext; by_computation|]. split.
  - specialize (Hoff ltac:(by_computation) ltac:(by_computation)
                  ltac:(intros sock H; vm_compute in H; discriminate)).
    cbv zeta in Hoff. destruct Hoff as (H1 & H2 & _ & H4).
    split; [exact H1|]. split; [exact H2|]. conclude H4.
  - specialize (Hon ltac:(by_computation) ltac:(by_computation) 0%nat "id:k0"
                  ltac:(by_computation) ltac:(by_computation) ltac:(by_computation)).
    cbv zeta in Hon. destruct Hon as (H1 & H2 & H3 & _).
    split; [exact H1|]. split; [exact H2|]. conclude H3.
Defined.

Lemma async_request_is_fulfilled_by_response_witness :
  let s := connected (default_options host) in
  let reply : gmap string jsval := {[ "message_id" := VStr "k0" ]} in
  let s1 := fst (sendMessageAsync stringify keys 9 (PObject hi) s) in
  let s2 := exec (messageHandler parse prototypes (mkEvent "message" "id:k0")) s1 in
  settled 9 (log s1) = Pending
  /\ settled 9 (log s2) = Fulfilled (JObject reply)
  /\ sendMessageQueue s2 = delete (keys 0) (sendMessageQueue s).
Proof.
  pose proof (async_request_is_fulfilled_by_response stringify parse prototypes keys 9%nat
                (connected (default_options host)) 0%nat hi
                {[ "message_id" := VStr "k0" ]} (mkEvent "message" "id:k0")
                ltac:(by_computation) ltac:(by_computation) ltac:(by_computation)
                ltac:(by_computation) ltac:(by_computation) ltac:(by_computation)
                ltac:(by_forall)) as H.
  cbv zeta in H. cbv zeta. exact H.
Defined.
